(** * Book recommender back end: a shallow embedding and its properties

    The first part embeds the Python sources under [auth-app/backend/models]:

    - [user_sorted_author_preferences.py]  in [AuthorPrefs] and [AuthorCounts]
    - [interaction_counter.py]             in [Counter], [CounterRace] and
                                           [Exclusion]
    - [user_book_interaction.py]           in [Interactions] and
                                           [InteractionQueries]
    - [recommendation_engine.py]           in [Cascade]
    - [ContentBasedRecommender.py]         in [ContentQuery], [ContentTraining],
                                           [ContentShelves] and [VectorCache]

    MongoDB collections are finite maps or lists of documents, Python lists
    are lists, Python integers are [Z], similarity and popularity scores
    (floats) are the rationals they denote.  A key of a catalog document is
    absent, stored as null, or stored with a value, since [d[key]],
    [d.get(key)] and [d.get(key, default)] tell these apart.  Strings are
    byte strings; the string methods are modelled on the ASCII range.  A
    [try/except] that turns an exception into a return value is an [option]
    inside the body and the handler's value outside.  Timestamps are kept
    only where the code reads them back.

    The second part states and proves the properties, module by module. *)

From stdpp Require Import gmap strings list sorting.
From Stdlib Require Import Ascii QArith.

Local Open Scope string_scope.
Local Open Scope list_scope.
Local Open Scope Z_scope.

(** ** Python string primitives used by the sources *)

Module PyStr.

(** [str.isspace] on the ASCII range. *)
Definition is_space (a : ascii) : bool :=
  let n := nat_of_ascii a in
  ((9 <=? n)%nat && (n <=? 13)%nat) || ((28 <=? n)%nat && (n <=? 32)%nat).

Fixpoint lstrip (s : string) : string :=
  match s with
  | String a s' => if is_space a then lstrip s' else s
  | EmptyString => EmptyString
  end.

Definition rstrip (s : string) : string :=
  String.rev (lstrip (String.rev s)).

(** [s.strip()] *)
Definition strip (s : string) : string := rstrip (lstrip s).

Definition lower_ascii (a : ascii) : ascii :=
  let n := nat_of_ascii a in
  if ((65 <=? n)%nat && (n <=? 90)%nat) then ascii_of_nat (n + 32) else a.

(** [s.lower()] on the ASCII range; other bytes are kept. *)
Fixpoint lower (s : string) : string :=
  match s with
  | String a s' => String (lower_ascii a) (lower s')
  | EmptyString => EmptyString
  end.

(** [t in s] for strings: [t] occurs in [s] as a contiguous block. *)
Fixpoint contains (s t : string) : bool :=
  String.prefix t s ||
  match s with
  | String _ s' => contains s' t
  | EmptyString => false
  end.

(** [s[0]]: the one-character string at position 0, [None] for the
    [IndexError] of the empty string. *)
Definition first_char (s : string) : option string :=
  match s with
  | String a _ => Some (String a EmptyString)
  | EmptyString => None
  end.

(** Truthiness of a string. *)
Definition truthy (s : string) : bool :=
  match s with EmptyString => false | _ => true end.

Definition eqb (s t : string) : bool := bool_decide (s = t).

(** [x in l] for a list of strings. *)
Definition mem (x : string) (l : list string) : bool := bool_decide (x ∈ l).

End PyStr.

(** ** [bson.ObjectId] of a string *)

Module Bson.

Definition is_hex (a : ascii) : bool :=
  let n := nat_of_ascii a in
  ((48 <=? n)%nat && (n <=? 57)%nat)
  || ((65 <=? n)%nat && (n <=? 70)%nat)
  || ((97 <=? n)%nat && (n <=? 102)%nat).

Fixpoint all_hex (s : string) : bool :=
  match s with
  | String a s' => is_hex a && all_hex s'
  | EmptyString => true
  end.

(** An object id is kept as its lower-case 24-digit hexadecimal form. *)
Definition oid := string.

(** [ObjectId(s)]: [None] stands for [InvalidId]. *)
Definition ObjectId (s : string) : option oid :=
  if (String.length s =? 24)%nat && all_hex s then Some (PyStr.lower s) else None.

End Bson.

(** ** [list.sort(key=..., reverse=True)]

    Python's sort is stable, also with [reverse=True]: elements with equal
    keys keep their relative order.  A stable sort is determined by that
    contract, so an insertion sort models it. *)

Section StableSort.
Context {A : Type}.

(** [ltb x y]: the key of [x] is below the key of [y]. *)
Fixpoint insert_by (ltb : A → A → bool) (x : A) (l : list A) : list A :=
  match l with
  | [] => [x]
  | y :: l' => if ltb x y then y :: insert_by ltb x l' else x :: l
  end.

Definition sort_by_desc (ltb : A → A → bool) (l : list A) : list A :=
  foldr (insert_by ltb) [] l.

(** The sort on an integer key. *)
Definition sort_desc (key : A → Z) : list A → list A :=
  sort_by_desc (λ x y, key x <? key y).

Definition desc (key : A → Z) (x y : A) : Prop := key y ≤ key x.

End StableSort.

(** ** user_sorted_author_preferences.py *)

Module AuthorPrefs.
Import Bson.

(** One element of [sorted_authors]. *)
Record author := {
  author_name : string;
  preference_count : Z;
  books_liked : list string;
  books_disliked : list string;
  total_interactions : Z
}.

(** The per-user document of the collection (its two timestamps are
    written and never read). *)
Record prefs_doc := {
  sorted_authors : list author;
  total_authors : Z
}.

Abbreviation collection := (gmap oid prefs_doc).

(** [weights.get(action, 0)] *)
Definition weights (action : string) : Z :=
  if PyStr.eqb action "like" then 1
  else if PyStr.eqb action "dislike" then -1
  else 0.

(** [if x not in l: l.append(x)] *)
Definition append_new (x : string) (l : list string) : list string :=
  if PyStr.mem x l then l else l ++ [x].

(** The body of the loop of [update_author_preference] on the entry whose
    name matches. *)
Definition touch (weight : Z) (book_name : string) (a : author) : author :=
  {| author_name := author_name a;
     preference_count := Z.max (preference_count a + weight) 0;
     books_liked :=
       if 0 <? weight then append_new book_name (books_liked a) else books_liked a;
     books_disliked :=
       if 0 <? weight then books_disliked a else append_new book_name (books_disliked a);
     total_interactions := total_interactions a + 1 |}.

(** [for i, author in enumerate(sorted_authors)]: [seen] is the part of
    the list before index [i].  The result is [author_found] and the list
    after the loop. *)
Fixpoint scan (name book_name : string) (weight : Z)
    (seen rest : list author) : bool * list author :=
  match rest with
  | [] => (false, seen)
  | a :: rest' =>
      if PyStr.eqb (author_name a) name then
        let a' := touch weight book_name a in
        if preference_count a' <=? 0
        then (true, seen ++ rest')
        else (true, sort_desc preference_count (seen ++ a' :: rest'))
      else scan name book_name weight (seen ++ [a]) rest'
  end.

Definition new_author (name book_name : string) (weight : Z) : author :=
  {| author_name := name;
     preference_count := weight;
     books_liked := [book_name];
     books_disliked := [];
     total_interactions := 1 |}.

Definition initial_author (name book_name : string) (weight : Z) : author :=
  {| author_name := name;
     preference_count := Z.max weight 0;
     books_liked := if 0 <? weight then [book_name] else [];
     books_disliked := if weight <? 0 then [book_name] else [];
     total_interactions := 1 |}.

(** The list written back for a user who has a document. *)
Definition updated_authors (name book_name : string) (weight : Z)
    (l : list author) : list author :=
  let '(author_found, l1) := scan name book_name weight [] l in
  if negb author_found && (0 <? weight)
  then sort_desc preference_count (l1 ++ [new_author name book_name weight])
  else l1.

Definition update_author_preference (db : collection)
    (user_id author_name action book_name : string) : bool * collection :=
  if negb (PyStr.truthy author_name) || negb (PyStr.truthy (PyStr.strip author_name))
  then (true, db)
  else
    let name := PyStr.strip author_name in
    match ObjectId user_id with
    | None => (false, db)
    | Some uid =>
        let weight := weights action in
        if weight =? 0 then (true, db)
        else
          match db !! uid with
          | None =>
              (true,
               <[uid := {| sorted_authors :=
                             if 0 <? weight
                             then [initial_author name book_name weight] else [];
                           total_authors := if 0 <? weight then 1 else 0 |}]> db)
          | Some doc =>
              let l := updated_authors name book_name weight (sorted_authors doc) in
              (true,
               <[uid := {| sorted_authors := l;
                           total_authors := Z.of_nat (length l) |}]> db)
          end
    end.

(** The first element of the stored list ([$slice: 1]). *)
Definition get_most_preferred_author (db : collection)
    (user_id : string) : option author :=
  match ObjectId user_id with
  | None => None
  | Some uid =>
      match db !! uid with
      | Some doc => head (sorted_authors doc)
      | None => None
      end
  end.

(** [$pull]: every occurrence goes. *)
Definition pull (x : string) (l : list string) : list string :=
  filter (λ y, y ≠ x) l.

(** The update document of [remove_author_preference] on one element
    selected by the array filter. *)
Definition untouch (action book_name : string) (a : author) : author :=
  let like := PyStr.eqb action "like" in
  {| author_name := author_name a;
     preference_count := preference_count a + (if like then -1 else 1);
     books_liked := if like then pull book_name (books_liked a) else books_liked a;
     books_disliked :=
       if like then books_disliked a else pull book_name (books_disliked a);
     total_interactions := total_interactions a - 1 |}.

(** [update_one] with [array_filters]: every element of the array whose
    name matches is updated where it stands; the result is
    [modified_count > 0]. *)
Definition remove_author_preference (db : collection)
    (user_id name action book_name : string) : bool * collection :=
  match ObjectId user_id with
  | None => (false, db)
  | Some uid =>
      match db !! uid with
      | None => (false, db)
      | Some doc =>
          let hit a := PyStr.eqb (author_name a) name in
          (existsb hit (sorted_authors doc),
           <[uid := {| sorted_authors :=
                         map (λ a, if hit a then untouch action book_name a else a)
                             (sorted_authors doc);
                       total_authors := total_authors doc |}]> db)
      end
  end.

(** *** The AuthorPreference invariant *)

Definition top_is_max (l : list author) : Prop :=
  match l with
  | [] => True
  | a :: _ => Forall (λ b, preference_count b ≤ preference_count a) l
  end.

Record invariant (l : list author) : Prop := {
  inv_positive : Forall (λ a, 1 ≤ preference_count a) l;
  inv_sorted : StronglySorted (desc preference_count) l;
  inv_top : top_is_max l
}.

Definition user_authors (db : collection) (uid : oid) : list author :=
  match db !! uid with
  | Some doc => sorted_authors doc
  | None => []
  end.

(** The two mutating operations of the store, as a caller issues them. *)
Inductive op :=
| Update (user_id author_name action book_name : string)
| Remove (user_id author_name action book_name : string).

Definition run_op (db : collection) (o : op) : collection :=
  match o with
  | Update u a act b => snd (update_author_preference db u a act b)
  | Remove u a act b => snd (remove_author_preference db u a act b)
  end.

Definition run_ops (db : collection) (ops : list op) : collection :=
  foldl run_op db ops.

(** The predicates used to state the invariant and its preservation. *)
Definition positive (a : author) : Prop := 1 ≤ preference_count a.

Definition is_update (o : op) : Prop :=
  match o with Update _ _ _ _ => True | Remove _ _ _ _ => False end.

(** The author names of a list, and the insertion step of its sort. *)
Definition names (l : list author) : list string := author_name <$> l.

Abbreviation ins := (insert_by (λ x y : author, preference_count x <? preference_count y)).

End AuthorPrefs.

(** ** interaction_counter.py *)

Module Counter.

(** The document with [counter_type = "like_dislike_interactions"]. *)
Record counter_doc := {
  current_count : Z;
  threshold : Z;
  total_retrainings : Z
}.

(** Outcome of one background run, as recorded in [training_status]. *)
Inductive training_status := success | failed | timeout | error.

#[global] Instance training_status_eq_dec : EqDecision training_status.
Proof. solve_decision. Defined.

(** The counter collection, the in-process flag and the background threads
    started so far, each with the [trigger_count] it was given. *)
Record state := {
  counters : option counter_doc;
  training_in_progress : bool;
  started : list Z
}.

Definition INTERACTION_THRESHOLD : Z := 10.

(** [__init__] on a database that may or may not hold the document. *)
Definition init (existing : option counter_doc) : state :=
  {| counters :=
       match existing with
       | Some d => Some d
       | None => Some {| current_count := 0;
                         threshold := INTERACTION_THRESHOLD;
                         total_retrainings := 0 |}
       end;
     training_in_progress := false;
     started := [] |}.

Definition set_count (c : Z) (d : counter_doc) : counter_doc :=
  {| current_count := c;
     threshold := threshold d;
     total_retrainings := total_retrainings d |}.

(** [find_one_and_update] with [$inc] and [return_document=True]: the
    document after the increment, and the collection holding it. *)
Definition find_one_and_update_inc (s : state) : option counter_doc * state :=
  match counters s with
  | None => (None, s)
  | Some d =>
      let d' := set_count (current_count d + 1) d in
      (Some d',
       {| counters := Some d';
          training_in_progress := training_in_progress s;
          started := started s |})
  end.

Definition reset_counter (s : state) : state :=
  {| counters := set_count 0 <$> counters s;
     training_in_progress := training_in_progress s;
     started := started s |}.

(** The critical section under [_training_lock]: [None] when a run is in
    progress, otherwise the state with the flag taken. *)
Definition take_flag (s : state) : option state :=
  if training_in_progress s then None
  else Some {| counters := counters s;
               training_in_progress := true;
               started := started s |}.

(** [training_thread.start()] *)
Definition start_thread (trigger_count : Z) (s : state) : state :=
  {| counters := counters s;
     training_in_progress := training_in_progress s;
     started := started s ++ [trigger_count] |}.

Definition _trigger_model_training (s : state) (trigger_count : Z) : bool * state :=
  match take_flag s with
  | None => (false, s)
  | Some s1 => (true, start_thread trigger_count (reset_counter s1))
  end.

Definition increment_counter (s : state) : bool * state :=
  match find_one_and_update_inc s with
  | (None, s1) => (false, s1)
  | (Some result, s1) =>
      if threshold result <=? current_count result
      then _trigger_model_training s1 (current_count result)
      else (false, s1)
  end.

(** The end of [_execute_training]: [total_retrainings] grows on success and
    the [finally] block releases the flag on every path. *)
Definition finish_training (st : training_status) (s : state) : state :=
  {| counters :=
       match st with
       | success =>
           (λ d, {| current_count := current_count d;
                    threshold := threshold d;
                    total_retrainings := total_retrainings d + 1 |}) <$> counters s
       | _ => counters s
       end;
     training_in_progress := false;
     started := started s |}.

Definition get_current_count (s : state) : Z :=
  match counters s with
  | Some d => current_count d
  | None => 0
  end.

(** [n] calls of [increment_counter] one after the other: the values
    returned, in order, and the final state. *)
Fixpoint increment_n (n : nat) (s : state) : list bool * state :=
  match n with
  | O => ([], s)
  | S n' =>
      let '(b, s1) := increment_counter s in
      let '(bs, s2) := increment_n n' s1 in
      (b :: bs, s2)
  end.

(** A counter document at [c] with threshold [t], and no run in progress. *)
Definition idle_at (c t : Z) : state :=
  {| counters := Some {| current_count := c; threshold := t; total_retrainings := 0 |};
     training_in_progress := false;
     started := [] |}.

End Counter.

(** ** Concurrent calls of [increment_counter]

    Each call is cut at its accesses to shared state: the atomic
    [find_one_and_update], the critical section under [_training_lock],
    [reset_counter], and the start of the thread.  A schedule picks which
    call moves next, or lets a running background thread come to its end. *)

Module CounterRace.
Import Counter.

Inductive pc :=
| Idle
| AtLock (trigger_count : Z)
| AtReset (trigger_count : Z)
| AtSpawn (trigger_count : Z)
| Returned (result : bool).

#[global] Instance pc_eq_dec : EqDecision pc.
Proof. solve_decision. Defined.

Record race := {
  shared : state;
  calls : list pc;
  finished : nat
}.

Inductive event :=
| Call (i : nat)
| ThreadEnds (st : training_status).

#[global] Instance event_eq_dec : EqDecision event.
Proof. solve_decision. Defined.

(** One atomic step of a call standing at [p]. *)
Definition step_call (p : pc) (s : state) : pc * state :=
  match p with
  | Idle =>
      match find_one_and_update_inc s with
      | (None, s1) => (Returned false, s1)
      | (Some result, s1) =>
          if threshold result <=? current_count result
          then (AtLock (current_count result), s1)
          else (Returned false, s1)
      end
  | AtLock c =>
      match take_flag s with
      | None => (Returned false, s)
      | Some s1 => (AtReset c, s1)
      end
  | AtReset c => (AtSpawn c, reset_counter s)
  | AtSpawn c => (Returned true, start_thread c s)
  | Returned b => (Returned b, s)
  end.

Definition step (r : race) (e : event) : race :=
  match e with
  | Call i =>
      match calls r !! i with
      | Some p =>
          let '(p', s') := step_call p (shared r) in
          {| shared := s'; calls := <[i := p']> (calls r); finished := finished r |}
      | None => r
      end
  | ThreadEnds st =>
      if (finished r <? length (started (shared r)))%nat
      then {| shared := finish_training st (shared r);
              calls := calls r;
              finished := S (finished r) |}
      else r
  end.

Definition run (r : race) (schedule : list event) : race := foldl step r schedule.

(** [n] calls not yet begun, on a counter at 0 with threshold [t] and no
    run in progress. *)
Definition fresh (n : nat) (t : Z) : race :=
  {| shared := idle_at 0 t; calls := replicate n Idle; finished := 0 |}.

Definition is_returned (p : pc) : bool :=
  match p with Returned _ => true | _ => false end.

Definition all_returned (r : race) : bool := forallb is_returned (calls r).

(** Number of calls that returned [True]. *)
Definition triggered (r : race) : nat :=
  length (filter (λ p, p = Returned true) (calls r)).

(** Atomic steps a call still has to take. *)
Definition remaining (p : pc) : nat :=
  match p with
  | Idle => 4
  | AtLock _ => 3
  | AtReset _ => 2
  | AtSpawn _ => 1
  | Returned _ => 0
  end.

(** How often call [i] is scheduled. *)
Definition scheduled (i : nat) (schedule : list event) : nat :=
  length (filter (λ e, e = Call i) schedule).

(** Calls that are past their [find_one_and_update]. *)
Definition count_nonidle (l : list pc) : nat := length (filter (λ p, p ≠ Idle) l).

(** Steps still to be taken by call [i]. *)
Definition rem (r : race) (i : nat) : nat :=
  match calls r !! i with
  | Some p => remaining p
  | None => 0
  end.

(** What the shared state looks like while the call that saw the threshold
    is on its way. *)
Definition winner_state (t : Z) (p : pc) (r : race) : Prop :=
  match p with
  | AtLock c => c = t ∧ training_in_progress (shared r) = false ∧ started (shared r) = []
  | AtReset c => c = t ∧ started (shared r) = []
  | AtSpawn c => c = t ∧ started (shared r) = []
  | Returned true => started (shared r) = [t]
  | _ => False
  end.

(** Fewer than [n] calls have incremented: the count is their number, all
    of them have returned [False], nothing has been triggered. *)
Record phase_a (n : nat) (r : race) : Prop := {
  a_calls : Forall (λ p, p = Idle ∨ p = Returned false) (calls r);
  a_count : get_current_count (shared r) = Z.of_nat (count_nonidle (calls r));
  a_below : (count_nonidle (calls r) < n)%nat;
  a_flag : training_in_progress (shared r) = false;
  a_started : started (shared r) = []
}.

(** All calls have incremented: the one that read [n] is the winner, the
    others have returned [False]. *)
Definition phase_b (n : nat) (r : race) : Prop :=
  ∃ w p, calls r !! w = Some p
         ∧ (∀ j q, j ≠ w → calls r !! j = Some q → q = Returned false)
         ∧ winner_state (Z.of_nat n) p r.

Definition inv (n : nat) (r : race) : Prop :=
  length (calls r) = n
  ∧ (∃ d, counters (shared r) = Some d ∧ threshold d = Z.of_nat n)
  ∧ (phase_a n r ∨ phase_b n r).

(** The calls run one after the other, each to its end. *)
Definition sequential (n : nat) : list event :=
  flat_map (λ i, replicate 4 (Call i)) (seq 0 n).

End CounterRace.

(** ** The catalog ([booksdata.book]) and the cache *)

Module Catalog.
Import Bson.

(** A key of a stored document: absent, stored with the value null, or
    stored with a value. *)
Inductive field (A : Type) : Type :=
| Absent
| Null
| Val (a : A).
Arguments Absent {A}.
Arguments Null {A}.
Arguments Val {A} a.

#[global] Instance field_eq_dec {A} `{EqDecision A} : EqDecision (field A).
Proof. solve_decision. Defined.

(** [d.get(key)]: [None] for a key that is absent and for a stored null. *)
Definition get {A} (f : field A) : option A :=
  match f with
  | Val a => Some a
  | Absent | Null => None
  end.

(** [d.get(key, default)]: the default stands in for an absent key only. *)
Definition get_or {A} (default : A) (f : field A) : option A :=
  match f with
  | Absent => Some default
  | Null => None
  | Val a => Some a
  end.

(** [d[key]]: [None] is the [KeyError] of an absent key, [Some None] the
    [None] of a stored null. *)
Definition subscript {A} (f : field A) : option (option A) :=
  match f with
  | Absent => None
  | Null => Some None
  | Val a => Some (Some a)
  end.

(** A field that holds a string or a list of strings. *)
Inductive str_or_list := Str (s : string) | Lst (l : list string).

(** A document of the book collection.  [star_rating] is only ever read
    with [get("star_rating")], which does not tell an absent key from a
    null. *)
Record book := {
  book_id : oid;
  name : field string;
  author : field str_or_list;
  genres : field str_or_list;
  summary : field string;
  language_of_book : field string;
  star_rating : option Q;
  num_ratings : field Z;
  popularity_score : field Q
}.

(** [", ".join(l)] *)
Fixpoint join (l : list string) : string :=
  match l with
  | [] => ""
  | [x] => x
  | x :: l' => x +:+ ", " +:+ join l'
  end.

(** [book.get(key, default)], joined when it is a list. *)
Definition joined (default : string) (f : field str_or_list) : option string :=
  match get_or (Str default) f with
  | None => None
  | Some (Str s) => Some s
  | Some (Lst l) => Some (join l)
  end.

(** The dictionary built by [_format_book_info]; [None] is Python's
    [None]. *)
Record book_info := {
  info_name : option string;
  info_author : option string;
  info_genres : option string;
  info_star_rating : option Q;
  info_num_ratings : option Z;
  info_language_of_book : option string;
  info_popularity_score : option Q
}.

Definition _format_book_info (b : book) : book_info :=
  {| info_name := get_or "" (name b);
     info_author := joined "Unknown Author" (author b);
     info_genres := joined "" (genres b);
     info_star_rating := star_rating b;
     info_num_ratings := get_or 0 (num_ratings b);
     info_language_of_book := get (language_of_book b);
     info_popularity_score := get_or 0%Q (popularity_score b) |}.

(** [find_one({"name": book_name})] and [_format_book_info] of it. *)
Definition _get_book_info (books : list book) (book_name : string) : option book_info :=
  match list_find (λ b, name b = Val book_name) books with
  | Some (_, b) => Some (_format_book_info b)
  | None => None
  end.

(** [Book.get_book_language]: the first book whose name equals [book_name]
    up to case. *)
Definition get_book_language (books : list book) (book_name : string) : option string :=
  match list_find (λ b, PyStr.lower <$> get (name b) = Some (PyStr.lower book_name)) books with
  | Some (_, b) => get (language_of_book b)
  | None => None
  end.

(** Values kept in Redis. *)
Inductive cached :=
| CachedRecommendations (l : list book_info)
| CachedOther (payload : string).

(** [delete_keys_by_pattern(prefix + "*")] *)
Definition delete_prefix (p : string) (redis : gmap string cached) : gmap string cached :=
  filter (λ kv, ¬ Is_true (String.prefix p kv.1)) redis.

Definition recommendations_key (user_id algorithm : string) : string :=
  "recommendations:user:" +:+ user_id +:+ ":" +:+ algorithm.

End Catalog.

(** ** user_book_interaction.py *)

Module Interactions.
Import Bson Catalog.

(** A document of [user_book_interactions]. *)
Record interaction := {
  user_id : oid;
  book_name : string;
  book_author : string;
  action : string;
  timestamp : Z;
  book_genres : list string
}.

(** Everything [like_book] and [dislike_book] read or write. *)
Record world := {
  interactions : list interaction;
  liked_genres : gmap (oid * string) Z;
  disliked_genres : gmap (oid * string) Z;
  author_prefs : AuthorPrefs.collection;
  counter : Counter.state;
  user_languages : gmap oid (list string);
  redis : gmap string cached
}.

Definition with_interactions (l : list interaction) (w : world) : world :=
  {| interactions := l; liked_genres := liked_genres w;
     disliked_genres := disliked_genres w; author_prefs := author_prefs w;
     counter := counter w; user_languages := user_languages w; redis := redis w |}.

Definition with_genres (action : string) (f : gmap (oid * string) Z → gmap (oid * string) Z)
    (w : world) : world :=
  let like := PyStr.eqb action "like" in
  {| interactions := interactions w;
     liked_genres := if like then f (liked_genres w) else liked_genres w;
     disliked_genres := if like then disliked_genres w else f (disliked_genres w);
     author_prefs := author_prefs w;
     counter := counter w; user_languages := user_languages w; redis := redis w |}.

Definition with_author_prefs (c : AuthorPrefs.collection) (w : world) : world :=
  {| interactions := interactions w; liked_genres := liked_genres w;
     disliked_genres := disliked_genres w; author_prefs := c;
     counter := counter w; user_languages := user_languages w; redis := redis w |}.

Definition with_counter (c : Counter.state) (w : world) : world :=
  {| interactions := interactions w; liked_genres := liked_genres w;
     disliked_genres := disliked_genres w; author_prefs := author_prefs w;
     counter := c; user_languages := user_languages w; redis := redis w |}.

Definition with_user_languages (u : gmap oid (list string)) (w : world) : world :=
  {| interactions := interactions w; liked_genres := liked_genres w;
     disliked_genres := disliked_genres w; author_prefs := author_prefs w;
     counter := counter w; user_languages := u; redis := redis w |}.

Definition with_redis (r : gmap string cached) (w : world) : world :=
  {| interactions := interactions w; liked_genres := liked_genres w;
     disliked_genres := disliked_genres w; author_prefs := author_prefs w;
     counter := counter w; user_languages := user_languages w; redis := r |}.

(** The [book_genres] argument as it arrives from the request. *)
Inductive genres_arg :=
| GenresStr (s : string)
| GenresList (l : list string)
| GenresOther.

(** [s.split(sep)] for a one-character separator. *)
Fixpoint split_on (sep : ascii) (s : string) : list string :=
  match s with
  | EmptyString => [EmptyString]
  | String a s' =>
      if Ascii.eqb a sep then EmptyString :: split_on sep s'
      else match split_on sep s' with
           | h :: t => String a h :: t
           | [] => [String a EmptyString]
           end
  end.

Definition strip_nonempty (l : list string) : list string :=
  PyStr.strip <$> filter (λ g, Is_true (PyStr.truthy (PyStr.strip g))) l.

Definition _parse_genres (genres : genres_arg) : list string :=
  match genres with
  | GenresList l => strip_nonempty l
  | GenresStr s => strip_nonempty (split_on "," s)
  | GenresOther => []
  end.

Definition matches (uid : oid) (name : string) (i : interaction) : bool :=
  bool_decide (user_id i = uid) && bool_decide (book_name i = name).

(** [find_one({"user_id": ..., "book_name": ...})] *)
Definition find_interaction (uid : oid) (name : string) (l : list interaction)
    : option interaction :=
  match list_find (λ i, Is_true (matches uid name i)) l with
  | Some (_, i) => Some i
  | None => None
  end.

(** [update_one] with [$set] of action, timestamp and genres on the first
    matching document. *)
Fixpoint set_interaction (uid : oid) (name new_action : string) (now : Z)
    (genres_list : list string) (l : list interaction) : list interaction :=
  match l with
  | [] => []
  | i :: l' =>
      if matches uid name i
      then {| user_id := user_id i; book_name := book_name i;
              book_author := book_author i; action := new_action;
              timestamp := now; book_genres := genres_list |} :: l'
      else i :: set_interaction uid name new_action now genres_list l'
  end.

Definition add_genre (uid : oid) (m : gmap (oid * string) Z) (genre : string)
    : gmap (oid * string) Z :=
  if PyStr.truthy genre then
    match m !! (uid, genre) with
    | Some c => <[(uid, genre) := c + 1]> m
    | None => <[(uid, genre) := 1]> m
    end
  else m.

Definition remove_genre (uid : oid) (m : gmap (oid * string) Z) (genre : string)
    : gmap (oid * string) Z :=
  if PyStr.truthy genre then
    match m !! (uid, genre) with
    | Some c => if c <=? 1 then delete (uid, genre) m else <[(uid, genre) := c - 1]> m
    | None => m
    end
  else m.

Definition _add_genre_preferences (uid : oid) (genres : list string) (action : string)
    (w : world) : world :=
  with_genres action (λ m, foldl (add_genre uid) m genres) w.

Definition _remove_genre_preferences (uid : oid) (genres : list string) (action : string)
    (w : world) : world :=
  with_genres action (λ m, foldl (remove_genre uid) m genres) w.

(** [$addToSet] *)
Definition add_to_set (x : string) (l : list string) : list string :=
  if PyStr.mem x l then l else l ++ [x].

(** [User.add_user_language] *)
Definition add_user_language (uid_str language : string) (w : world) : world :=
  if PyStr.truthy language then
    match ObjectId uid_str with
    | Some uid =>
        match user_languages w !! uid with
        | Some langs =>
            with_user_languages
              (<[uid := add_to_set (PyStr.lower language) langs]> (user_languages w)) w
        | None => w
        end
    | None => w
    end
  else w.

Definition _update_user_language (books : list book) (uid_str name : string)
    (w : world) : world :=
  match get_book_language books name with
  | Some book_language => add_user_language uid_str book_language w
  | None => w
  end.

(** The wrapper [remove_author_preferences]. *)
Definition remove_author_preferences (uid_str author_name action name : string)
    (w : world) : world :=
  with_author_prefs
    (AuthorPrefs.remove_author_preference (author_prefs w) uid_str author_name action name).2
    w.

Definition top_author_name (w : world) (uid_str : string) : option string :=
  AuthorPrefs.author_name <$> AuthorPrefs.get_most_preferred_author (author_prefs w) uid_str.

(** [_update_author_affinity]: whether the name of the top author changed. *)
Definition _update_author_affinity (uid_str author_name action name : string)
    (w : world) : bool * world :=
  let current_top_author_name := top_author_name w uid_str in
  let w1 :=
    with_author_prefs
      (AuthorPrefs.update_author_preference (author_prefs w) uid_str author_name action name).2
      w in
  let new_top_author_name := top_author_name w1 uid_str in
  (bool_decide (current_top_author_name ≠ new_top_author_name), w1).

Definition _increment_interaction_counter (w : world) : world :=
  with_counter (Counter.increment_counter (counter w)).2 w.

(** What both [like_book] and [dislike_book] do after the interaction is
    stored: author affinity, cache invalidation, interaction counter. *)
Definition after_store (uid_str author_name action name : string) (w : world) : world :=
  let '(author_ranking_changed, w1) :=
    _update_author_affinity uid_str author_name action name w in
  let w2 := with_redis (delete_prefix (recommendations_key uid_str "") (redis w1)) w1 in
  let w3 :=
    if author_ranking_changed
    then with_redis (delete_prefix ("best_from_author:user:" +:+ uid_str +:+ ":") (redis w2)) w2
    else w2 in
  _increment_interaction_counter w3.

Definition like_book (books : list book) (now : Z) (w : world)
    (uid_str name author_name : string) (genres : genres_arg) : bool * world :=
  match ObjectId uid_str with
  | None => (false, w)
  | Some uid =>
      let existing_interaction := find_interaction uid name (interactions w) in
      let genres_list := _parse_genres genres in
      let w1 := _update_user_language books uid_str name w in
      match existing_interaction with
      | Some existing =>
          let old_action := action existing in
          if PyStr.eqb old_action "like" then (true, w1)
          else
            let w2 :=
              with_interactions
                (set_interaction uid name "like" now genres_list (interactions w1)) w1 in
            let w3 :=
              if PyStr.eqb old_action "dislike"
              then remove_author_preferences uid_str author_name "dislike" name
                     (_remove_genre_preferences uid genres_list "dislike" w2)
              else w2 in
            (true, after_store uid_str author_name "like" name w3)
      | None =>
          let w2 :=
            with_interactions
              (interactions w1 ++
               [{| user_id := uid; book_name := name; book_author := author_name;
                   action := "like"; timestamp := now; book_genres := genres_list |}])
              w1 in
          let w3 := _add_genre_preferences uid genres_list "like" w2 in
          (true, after_store uid_str author_name "like" name w3)
      end
  end.

(** [dislike_book] indexes its author argument: [book_author[0]], which on
    a string is its first character and on the empty string raises. *)
Definition dislike_book (books : list book) (now : Z) (w : world)
    (uid_str name author_name : string) (genres : genres_arg) : bool * world :=
  match ObjectId uid_str with
  | None => (false, w)
  | Some uid =>
      let existing_interaction := find_interaction uid name (interactions w) in
      let genres_list := _parse_genres genres in
      let w1 := _update_user_language books uid_str name w in
      match existing_interaction with
      | Some existing =>
          let old_action := action existing in
          if PyStr.eqb old_action "dislike" then (true, w1)
          else
            let w2 :=
              with_interactions
                (set_interaction uid name "dislike" now genres_list (interactions w1)) w1 in
            let w3 :=
              if PyStr.eqb old_action "like"
              then remove_author_preferences uid_str author_name "like" name
                     (_remove_genre_preferences uid genres_list "like" w2)
              else w2 in
            match PyStr.first_char author_name with
            | None => (false, w3)
            | Some a0 => (true, after_store uid_str a0 "dislike" name w3)
            end
      | None =>
          match PyStr.first_char author_name with
          | None => (false, w1)
          | Some a0 =>
              let w2 :=
                with_interactions
                  (interactions w1 ++
                   [{| user_id := uid; book_name := name; book_author := a0;
                       action := "dislike"; timestamp := now;
                       book_genres := genres_list |}])
                  w1 in
              let w3 := _add_genre_preferences uid genres_list "dislike" w2 in
              (true, after_store uid_str a0 "dislike" name w3)
          end
      end
  end.

(** [AuthorAffinityStore.get_top] as a caller of the interaction layer sees it. *)
Definition get_top (w : world) (uid_str : string) : option AuthorPrefs.author :=
  AuthorPrefs.get_most_preferred_author (author_prefs w) uid_str.

(** Net preference count of an author for a user; 0 when there is no entry. *)
Definition net_count (w : world) (uid : oid) (author_name : string) : Z :=
  match list_find (λ a, AuthorPrefs.author_name a = author_name)
          (AuthorPrefs.user_authors (author_prefs w) uid) with
  | Some (_, a) => AuthorPrefs.preference_count a
  | None => 0
  end.

(** The interaction record of a user and a book. *)
Definition get_user_interaction (w : world) (uid : oid) (name : string) : option string :=
  action <$> find_interaction uid name (interactions w).

(** A world with nothing stored but the user's profile document. *)
Definition empty_world (uid : oid) : world :=
  {| interactions := []; liked_genres := ∅; disliked_genres := ∅;
     author_prefs := ∅; counter := Counter.init None;
     user_languages := {[ uid := [] ]}; redis := ∅ |}.

End Interactions.

(** ** recommendation_engine.py *)

Module Cascade.
Import Bson Catalog.

(** [x < y] on similarity and popularity scores. *)
Definition Qltb (x y : Q) : bool := negb (Qle_bool y x).

(** [l[:n]], also for negative [n]. *)
Definition py_slice_to {A} (l : list A) (n : Z) : list A :=
  if n <? 0 then take (Z.to_nat (Z.of_nat (length l) + n)) l
  else take (Z.to_nat n) l.

(** [len(l) >= n] *)
Definition len_ge {A} (l : list A) (n : Z) : bool := n <=? Z.of_nat (length l).

Definition language_mappings : list (string * list string) :=
  [ ("english", ["en"; "eng"; "en-us"; "en-gb"; "english"]);
    ("spanish", ["es"; "esp"; "español"; "castellano"; "es-es"; "es-mx"; "spanish"]);
    ("french", ["fr"; "français"; "francais"; "fr-fr"; "french"]);
    ("german", ["de"; "deutsch"; "german"; "de-de"]);
    ("italian", ["it"; "italiano"; "it-it"; "italian"]);
    ("portuguese", ["pt"; "português"; "portugues"; "pt-br"; "pt-pt"; "portuguese"]);
    ("chinese", ["zh"; "chinese"; "mandarin"; "zh-cn"; "zh-tw"]);
    ("japanese", ["ja"; "japanese"; "jp"; "ja-jp"]);
    ("korean", ["ko"; "korean"; "kr"; "ko-kr"]);
    ("russian", ["ru"; "russian"; "русский"; "ru-ru"]);
    ("arabic", ["ar"; "arabic"; "العربية"; "ar-sa"; "عربي"; "عربية"]);
    ("hindi", ["hi"; "hindi"; "हिन्दी"; "hi-in"]) ].

Definition _languages_match (book_language user_language : string) : bool :=
  let book_language := PyStr.strip (PyStr.lower book_language) in
  let user_language := PyStr.strip (PyStr.lower user_language) in
  if PyStr.eqb book_language user_language then true
  else if PyStr.contains book_language user_language
          || PyStr.contains user_language book_language then true
  else
    existsb
      (λ '(main_lang, alternatives),
         (PyStr.eqb user_language main_lang && PyStr.mem book_language alternatives)
         || (PyStr.eqb book_language main_lang && PyStr.mem user_language alternatives)
         || (PyStr.mem user_language alternatives && PyStr.mem book_language alternatives))
      language_mappings.

Definition _meets_language_requirement (info : book_info) (user_languages : list string)
    : bool :=
  match user_languages with
  | [] => true
  | _ =>
      match info_language_of_book info with
      | None => true
      | Some book_language =>
          if PyStr.truthy book_language then
            let book_language_lower := PyStr.strip (PyStr.lower book_language) in
            existsb (_languages_match book_language_lower) user_languages
          else true
      end
  end.

(** A document of [user_similarities]. *)
Record similarity_doc := {
  similar_users : list oid;
  similarities : list Q
}.

(** [self.model is not None] and the keys of [self.user_mapping]. *)
Record engine := {
  model_loaded : bool;
  user_mapping : list oid
}.

Record world := {
  redis : gmap string cached;
  eng : engine;
  (** the user keys pickled in [als_mappings.pkl], when both files exist *)
  disk : option (list oid);
  user_similarities : gmap oid similarity_doc;
  interactions : list Interactions.interaction;
  books : list book;
  user_languages : gmap oid (list string);
  train_script_exists : bool;
  (** how many times the external training script has been run *)
  train_runs : nat
}.

Definition with_redis (r : gmap string cached) (w : world) : world :=
  {| redis := r; eng := eng w; disk := disk w;
     user_similarities := user_similarities w; interactions := interactions w;
     books := books w; user_languages := user_languages w;
     train_script_exists := train_script_exists w; train_runs := train_runs w |}.

Definition with_eng (e : engine) (w : world) : world :=
  {| redis := redis w; eng := e; disk := disk w;
     user_similarities := user_similarities w; interactions := interactions w;
     books := books w; user_languages := user_languages w;
     train_script_exists := train_script_exists w; train_runs := train_runs w |}.

Definition with_train_runs (n : nat) (w : world) : world :=
  {| redis := redis w; eng := eng w; disk := disk w;
     user_similarities := user_similarities w; interactions := interactions w;
     books := books w; user_languages := user_languages w;
     train_script_exists := train_script_exists w; train_runs := n |}.

(** The external [train_model.py]: its exit code and what it leaves behind. *)
Definition script := world → Z * world.

(** [subprocess.run([sys.executable, train_script_path])] *)
Definition subprocess_run (train_model_py : script) (w : world) : Z * world :=
  let '(returncode, w') := train_model_py w in
  (returncode, with_train_runs (S (train_runs w)) w').

Definition _load_model (w : world) : bool * world :=
  match disk w with
  | None => (false, w)
  | Some mapping => (true, with_eng {| model_loaded := true; user_mapping := mapping |} w)
  end.

(** [UserBookInteraction.get_user_interaction_count] *)
Definition get_user_interaction_count (w : world) (uid_str : string) : Z :=
  match ObjectId uid_str with
  | Some uid =>
      Z.of_nat (length (filter (λ i, Interactions.user_id i = uid) (interactions w)))
  | None => 0
  end.

Definition _retrain_for_new_user (train_model_py : script) (w : world) (uid_str : string)
    : bool * world :=
  if get_user_interaction_count w uid_str =? 0 then (false, w)
  else if negb (train_script_exists w) then (false, w)
  else
    let '(returncode, w1) := subprocess_run train_model_py w in
    if returncode =? 0 then _load_model w1 else (false, w1).

(** [get_user_interactions(user, action="like", limit=100)]: most recent
    first. *)
Definition liked_interactions (w : world) (uid : oid) : list Interactions.interaction :=
  take 100
    (sort_desc Interactions.timestamp
       (filter (λ i, Interactions.user_id i = uid ∧ Interactions.action i = "like")
               (interactions w))).

Definition get_user_interacted_book_names (w : world) (uid_str : string) : list string :=
  match ObjectId uid_str with
  | Some uid =>
      Interactions.book_name <$> filter (λ i, Interactions.user_id i = uid) (interactions w)
  | None => []
  end.

Definition _get_user_languages (w : world) (uid_str : string) : list string :=
  match ObjectId uid_str with
  | Some uid =>
      (λ lang, PyStr.strip (PyStr.lower lang)) <$> default [] (user_languages w !! uid)
  | None => []
  end.

(** The first inner loop: the books of one similar user that the target has
    not interacted with and that the catalog knows, once each.  [known] is
    the key set of [book_info_map]. *)
Fixpoint collect (books : list book) (user_interacted_books known : list string)
    (similar_user_books : list Interactions.interaction) : list (string * book_info) :=
  match similar_user_books with
  | [] => []
  | b :: rest =>
      let book_name := Interactions.book_name b in
      if PyStr.mem book_name user_interacted_books
      then collect books user_interacted_books known rest
      else if PyStr.mem book_name known
      then collect books user_interacted_books known rest
      else
        match _get_book_info books book_name with
        | Some info =>
            (book_name, info) :: collect books user_interacted_books (book_name :: known) rest
        | None => collect books user_interacted_books known rest
        end
  end.

(** The sort key [x.get("popularity_score", 0)] of a collected book: the
    value [_format_book_info] stored, [None] for a stored null. *)
Definition sort_key (x : string * book_info) : option Q := info_popularity_score x.2.

(** Whether [liked_books.sort(...)] raises.  [list.sort] compares the key
    of every element with another one as soon as the list has two
    elements, and [<] with [None] on either side is a [TypeError]. *)
Definition sort_raises (l : list (string * book_info)) : bool :=
  (2 <=? length l)%nat && existsb (λ x, bool_decide (sort_key x = None)) l.

(** The order [sort(key=popularity_score, reverse=True)] leaves when it
    does not raise. *)
Definition popularity_order (l : list (string * book_info)) : list (string * book_info) :=
  sort_by_desc (λ x y, Qltb (default 0%Q (sort_key x)) (default 0%Q (sort_key y))) l.

(** [liked_books.sort(key=popularity_score, reverse=True)]; [None] is the
    [TypeError]. *)
Definition by_popularity (l : list (string * book_info))
    : option (list (string * book_info)) :=
  if sort_raises l then None else Some (popularity_order l).

Definition liked_books (w : world) (user_interacted_books : list string) (uid : oid)
    : option (list (string * book_info)) :=
  by_popularity (collect (books w) user_interacted_books [] (liked_interactions w uid)).

(** [any(rec["name"] == book_name for rec in recommendations)] *)
Definition already_added (book_name : string) (recommendations : list book_info) : bool :=
  existsb (λ rec, bool_decide (info_name rec = Some book_name)) recommendations.

(** The second inner loop. *)
Fixpoint add_books (n : Z) (user_languages : list string)
    (recommendations : list book_info) (liked : list (string * book_info))
    : list book_info :=
  match liked with
  | [] => recommendations
  | (book_name, info) :: rest =>
      if len_ge recommendations n then recommendations
      else if already_added book_name recommendations
      then add_books n user_languages recommendations rest
      else if negb (_meets_language_requirement info user_languages)
      then add_books n user_languages recommendations rest
      else add_books n user_languages (recommendations ++ [info]) rest
  end.

(** The loop over the similar users that were kept; [None] when the sort
    of a similar user's books raises. *)
Fixpoint cascade (w : world) (n : Z) (user_interacted_books user_languages : list string)
    (recommendations : list book_info) (sorted_user_ids : list oid)
    : option (list book_info) :=
  match sorted_user_ids with
  | [] => Some recommendations
  | similar_user_id :: rest =>
      if len_ge recommendations n then Some recommendations
      else
        match liked_books w user_interacted_books similar_user_id with
        | None => None
        | Some liked =>
            let recommendations' := add_books n user_languages recommendations liked in
            if len_ge recommendations' n then Some recommendations'
            else cascade w n user_interacted_books user_languages recommendations' rest
        end
  end.

(** The similar users whose score is not below 0.5, with their scores, in
    stored order. *)
Definition kept_pairs (doc : similarity_doc) : list (oid * Q) :=
  filter (λ p, ¬ Is_true (Qltb p.2 (1 # 2))) (zip (similar_users doc) (similarities doc)).

(** [sorted_user_ids] *)
Definition kept_users (doc : similarity_doc) : list oid := (kept_pairs doc).*1.

Definition cache_key (uid_str : string) : string := recommendations_key uid_str "enhanced_ubcf".

Definition get_enhanced_ubcf_recommendations (train_model_py : script) (w : world)
    (uid_str : string) (num_recommendations : Z) : list book_info * world :=
  match redis w !! cache_key uid_str with
  | Some (CachedRecommendations (r :: rs)) =>
      (py_slice_to (r :: rs) num_recommendations, w)
  | _ =>
      match ObjectId uid_str with
      | None => ([], w)
      | Some user_object_id =>
          let w1 := if model_loaded (eng w) then w else (_load_model w).2 in
          let '(known, w2) :=
            if bool_decide (user_object_id ∈ user_mapping (eng w1)) then (true, w1)
            else _retrain_for_new_user train_model_py w1 uid_str in
          if negb known then ([], w2)
          else
            match user_similarities w2 !! user_object_id with
            | None => ([], w2)
            | Some doc =>
                let user_interacted_books := get_user_interacted_book_names w2 uid_str in
                let user_languages := _get_user_languages w2 uid_str in
                match cascade w2 num_recommendations user_interacted_books user_languages
                              [] (kept_users doc) with
                | None => ([], w2)
                | Some recommendations =>
                    let final_recommendations :=
                      py_slice_to recommendations num_recommendations in
                    match final_recommendations with
                    | [] => ([], w2)
                    | _ =>
                        (final_recommendations,
                         with_redis
                           (<[cache_key uid_str :=
                                CachedRecommendations final_recommendations]>
                              (redis w2)) w2)
                    end
                end
            end
      end
  end.

(** *** The cascade as the specification words it

    Walk the kept similar users in order, take each one's liked books (those
    the target has not interacted with, by popularity), skip the books that
    fail the language check, and stop at the desired count.  A title is
    recommended once. *)

(** One candidate added to an unbounded answer. *)
Definition add_one (user_languages : list string) (recommendations : list book_info)
    (candidate : string * book_info) : list book_info :=
  if already_added candidate.1 recommendations then recommendations
  else if _meets_language_requirement candidate.2 user_languages
  then recommendations ++ [candidate.2]
  else recommendations.

Definition add_all (user_languages : list string) (recommendations : list book_info)
    (candidates : list (string * book_info)) : list book_info :=
  foldl (add_one user_languages) recommendations candidates.

(** The books of one similar user in the order the sort leaves. *)
Definition liked_sorted (w : world) (user_interacted_books : list string) (uid : oid)
    : list (string * book_info) :=
  popularity_order (collect (books w) user_interacted_books [] (liked_interactions w uid)).

(** All candidates, similar user after similar user. *)
Definition candidates (w : world) (user_interacted_books : list string) (doc : similarity_doc)
    : list (string * book_info) :=
  concat (liked_sorted w user_interacted_books <$> kept_users doc).

Definition cascade_spec (w : world) (uid_str : string) (doc : similarity_doc) (n : Z)
    : list book_info :=
  take (Z.to_nat n)
    (add_all (_get_user_languages w uid_str) []
       (candidates w (get_user_interacted_book_names w uid_str) doc)).

(** *** The cascade as claim C1 words it

    For every target user: the kept similar users in descending similarity,
    and for each one all the books that user likes. *)
Definition by_similarity (doc : similarity_doc) : list oid :=
  (sort_by_desc (λ p q : oid * Q, Qltb p.2 q.2) (kept_pairs doc)).*1.

Definition all_liked (w : world) (user_interacted_books : list string) (uid : oid)
    : list (string * book_info) :=
  popularity_order
    (collect (books w) user_interacted_books []
       (filter (λ i, Interactions.user_id i = uid ∧ Interactions.action i = "like")
               (interactions w))).

Definition cascade_as_claimed (w : world) (uid_str : string) (n : Z) : list book_info :=
  match ObjectId uid_str with
  | None => []
  | Some uid =>
      match user_similarities w !! uid with
      | None => []
      | Some doc =>
          take (Z.to_nat n)
            (add_all (_get_user_languages w uid_str) []
               (concat (all_liked w (get_user_interacted_book_names w uid_str)
                          <$> by_similarity doc)))
      end
  end.

(** The similarity document of a user; a user without one has no similar
    users. *)
Definition similarity_entry (w : world) (uid : oid) : similarity_doc :=
  default {| similar_users := []; similarities := [] |} (user_similarities w !! uid).

(** No book of the catalog has its popularity stored as null, so that no
    sort by popularity raises. *)
Definition popularity_known (w : world) : Prop :=
  ∀ b, b ∈ books w → popularity_score b ≠ Null.

(** The world in which the membership of the user in the model is tested:
    the model is loaded first when none is resident. *)
Definition after_load (w : world) : world :=
  if model_loaded (eng w) then w else (_load_model w).2.

(** The answer once it is settled whether the model knows the user. *)
Definition answer (w : world) (uid_str : string) (uid : oid) (n : Z) (known : bool)
    : list book_info * world :=
  if negb known then ([], w)
  else
    match user_similarities w !! uid with
    | None => ([], w)
    | Some doc =>
        match cascade w n (get_user_interacted_book_names w uid_str)
                (_get_user_languages w uid_str) [] (kept_users doc) with
        | None => ([], w)
        | Some recommendations =>
            match py_slice_to recommendations n with
            | [] => ([], w)
            | x :: l =>
                (x :: l,
                 with_redis
                   (<[cache_key uid_str := CachedRecommendations (x :: l)]> (redis w)) w)
            end
        end
    end.

(** Whether a query makes the engine run the external training script. *)
Definition retrain_attempted (w : world) (uid_str : string) : bool :=
  match redis w !! cache_key uid_str with
  | Some (CachedRecommendations (_ :: _)) => false
  | _ =>
      match ObjectId uid_str with
      | None => false
      | Some uid =>
          negb (bool_decide (uid ∈ user_mapping (eng (after_load w))))
          && negb (get_user_interaction_count w uid_str =? 0)
          && train_script_exists w
      end
  end.

End Cascade.

(** ** ContentBasedRecommender.py: the single-anchor query *)

Module ContentQuery.
Import Bson Catalog.

(** A 256-dimension feature vector. *)
Definition vector := list Q.

(** One entry of [self.faiss_indices].  [search v k] stands for
    [index.search(v.reshape(1, -1), k)]: the pairs of [zip(I[0], D[0])], or
    [None] when FAISS raises.  FAISS fills the places for which it has no
    neighbour with the label [-1]. *)
Record faiss_entry := {
  search : vector → Z → option (list (Z * Q));
  ids : list oid
}.

(** The resident model. *)
Record engine := {
  book_name_to_id : gmap string oid;
  book_index : gmap oid nat;
  book_language_map : gmap oid string;
  faiss_indices : gmap string faiss_entry
}.

(** One element of the answer; the fields of the catalog record are copied
    from [rec_book].  The two scores derived from [similarity_score] by
    floating-point arithmetic are not kept. *)
Record recommendation := {
  rec_book : book;
  similarity_score : Q;
  based_on_book : string
}.

(** [l[i]] for a Python integer: negative indices count from the end,
    [None] is [IndexError]. *)
Definition py_index {A} (l : list A) (i : Z) : option A :=
  if 0 <=? i then l !! Z.to_nat i
  else if - Z.of_nat (length l) <=? i then l !! Z.to_nat (Z.of_nat (length l) + i)
  else None.

Definition len {A} (l : list A) : Z := Z.of_nat (length l).

(** The set comprehension [candidate_book_ids]. *)
Fixpoint candidate_book_ids (all_ids : list oid) (base_book_id : oid) (labels : list Z)
    : option (list oid) :=
  match labels with
  | [] => Some []
  | i :: rest =>
      if i <? len all_ids then
        match py_index all_ids i with
        | None => None
        | Some book_id =>
            match candidate_book_ids all_ids base_book_id rest with
            | None => None
            | Some c => Some (if bool_decide (book_id = base_book_id) then c else book_id :: c)
            end
        end
      else candidate_book_ids all_ids base_book_id rest
  end.

(** [find_one({"_id": book_id})] *)
Definition book_by_id (books : list book) (id : oid) : option book :=
  match list_find (λ b, book_id b = id) books with
  | Some (_, b) => Some b
  | None => None
  end.

(** [_get_books_info_by_ids(candidates).get(id)] *)
Definition retrieved_books (books : list book) (candidates : list oid) (id : oid)
    : option book :=
  if bool_decide (id ∈ candidates) then book_by_id books id else None.

(** [book["name"] in user_interacted_books]; a name stored as null is in no
    set of titles. *)
Definition seen (title : option string) (user_interacted_books : list string) : bool :=
  match title with
  | Some s => PyStr.mem s user_interacted_books
  | None => false
  end.

(** The loop over [zip(I[0], D[0])]; [None] is an exception raised in it. *)
Fixpoint build (limit : Z) (all_ids : list oid) (base_book_id : oid)
    (retrieved : oid → option book) (user_interacted_books : list string)
    (base_book_name : string) (recommendations : list recommendation)
    (hits : list (Z * Q)) : option (list recommendation) :=
  match hits with
  | [] => Some recommendations
  | (i, score) :: rest =>
      if len all_ids <=? i
      then build limit all_ids base_book_id retrieved user_interacted_books
                 base_book_name recommendations rest
      else
        match py_index all_ids i with
        | None => None
        | Some id =>
            if bool_decide (id = base_book_id)
            then build limit all_ids base_book_id retrieved user_interacted_books
                       base_book_name recommendations rest
            else
              match retrieved id with
              | None => None
              | Some b =>
                  match subscript (name b) with
                  | None => None
                  | Some title =>
                      if seen title user_interacted_books
                      then build limit all_ids base_book_id retrieved
                                 user_interacted_books base_book_name recommendations rest
                      else
                        let recommendations' :=
                          recommendations ++
                          [{| rec_book := b; similarity_score := score;
                              based_on_book := base_book_name |}] in
                        if limit <=? len recommendations' then Some recommendations'
                        else build limit all_ids base_book_id retrieved
                                   user_interacted_books base_book_name recommendations'
                                   rest
                  end
              end
        end
  end.

(** The language whose index is searched. *)
Definition base_language (e : engine) (base_book_id : oid) : option string :=
  let fallback :=
    if bool_decide (is_Some (faiss_indices e !! "english")) then Some "english" else None in
  match book_language_map e !! base_book_id with
  | Some base_lang =>
      if PyStr.truthy base_lang && bool_decide (is_Some (faiss_indices e !! base_lang))
      then Some base_lang else fallback
  | None => fallback
  end.

(** The language of the anchor is known, not empty, and has an index in
    memory. *)
Definition resident (e : engine) (base_book_id : oid) (lang : string) : Prop :=
  book_language_map e !! base_book_id = Some lang
  ∧ lang ≠ ""
  ∧ is_Some (faiss_indices e !! lang).

(** The call of [index.search] a query issues: language and [k]. *)
Definition issued := option (string * Z).

(** [get_similar_books_for_user] once the model is resident.
    [anchor] is the title chosen by [_get_most_recent_liked_book] or
    [_get_alternative_liked_book], [transform] is
    [_transform_single_book_to_vector], [interacted] the result of
    [get_user_interacted_book_names]. *)
Definition get_similar_books_for_user (e : engine) (books : list book)
    (transform : book → option vector) (interacted : list string)
    (anchor : option string) (limit : Z) : list recommendation * issued :=
  match anchor with
  | None => ([], None)
  | Some base_book_name =>
      if negb (PyStr.truthy base_book_name) then ([], None) else
      match book_name_to_id e !! base_book_name with
      | None => ([], None)
      | Some base_book_id =>
          if negb (bool_decide (is_Some (book_index e !! base_book_id))) then ([], None) else
          match base_language e base_book_id with
          | None => ([], None)
          | Some base_lang =>
              match book_by_id books base_book_id with
              | None => ([], None)
              | Some base_book =>
                  match transform base_book with
                  | None => ([], None)
                  | Some base_vector =>
                      let user_interacted_books := remove_dups interacted in
                      match faiss_indices e !! base_lang with
                      | None => ([], None)
                      | Some entry =>
                          let k := limit + len user_interacted_books in
                          let q := Some (base_lang, k) in
                          match search entry base_vector k with
                          | None => ([], q)
                          | Some hits =>
                              match candidate_book_ids (ids entry) base_book_id hits.*1 with
                              | None => ([], q)
                              | Some candidates =>
                                  (default []
                                     (build limit (ids entry) base_book_id
                                        (retrieved_books books candidates)
                                        user_interacted_books base_book_name [] hits),
                                   q)
                              end
                          end
                      end
                  end
              end
          end
      end
  end.

(** Where an element of the answer comes from. *)
Definition from_hit (all_ids : list oid) (base_book_id : oid)
    (user_interacted_books : list string) (base_book_name : string)
    (hits : list (Z * Q)) (r : recommendation) : Prop :=
  ∃ i, (i, similarity_score r) ∈ hits
       ∧ i < len all_ids
       ∧ py_index all_ids i = Some (book_id (rec_book r))
       ∧ book_id (rec_book r) ≠ base_book_id
       ∧ name (rec_book r) ≠ Absent
       ∧ (∀ title, name (rec_book r) = Val title → title ∉ user_interacted_books)
       ∧ based_on_book r = base_book_name.

End ContentQuery.

(** ** ContentBasedRecommender.py: the streaming training run *)

Module ContentTraining.
Import Bson Catalog.

Definition vector := ContentQuery.vector.

Inductive index_kind := IndexFlatIP | IndexIVFFlat (nlist : Z).

(** What a persisted file holds. *)
Inductive blob :=
| Joblib (fitted : nat)
| NpyIds (l : list oid)
| NpyStrings (l : list (option string))
| FaissIndex (kind : index_kind) (rows : list vector).

(** The working directory: path to content. *)
Abbreviation files := (gmap string blob).

Definition model_files : list string :=
  [ "models/tfidf_vectorizer.joblib"; "models/genre_binarizer.joblib";
    "models/author_encoder.joblib"; "models/year_scaler.joblib";
    "models/svd_reducer.joblib" ].

Definition required_files : list string :=
  [ "book_ids.npy"; "book_names.npy"; "book_langs.npy" ].

Definition index_file (lang : string) : string := "FAISS/faiss_index_" +:+ lang +:+ ".index".
Definition ids_file (lang : string) : string := "book_ids_" +:+ lang +:+ ".npy".

(** [f"{lang}"] for a language read from a document: a stored null is
    formatted as ["None"]. *)
Definition py_str (lang : option string) : string := default "None" lang.

Definition exists_all (fs : files) (paths : list string) : bool :=
  forallb (λ p, bool_decide (is_Some (fs !! p))) paths.

Definition is_index_file (path : string) : bool :=
  String.prefix "FAISS/faiss_index_" path
  && String.prefix (String.rev ".index") (String.rev path).

Definition _should_retrain (fs : files) : bool :=
  if negb (exists_all fs required_files) then true
  else if negb (exists_all fs model_files) then true
  else negb (existsb (λ kv, is_index_file kv.1) (map_to_list fs)).

(** [load_model()] with no user: the core components are loaded unless the
    model is resident already. *)
Definition load_model (model_loaded : bool) (fs : files) : bool :=
  model_loaded
  || (exists_all fs required_files && exists_all fs model_files
      && exists_all fs [index_file "english"; ids_file "english"]).

(** What the environment of one run decides: the sample drawn, and which of
    the library calls raise. *)
Record run := {
  sample : list book;
  (** fitting the extractors and the reducer on the sample: the fitted
      state, or [None] when it raises *)
  fit : option nat;
  (** [joblib.dump] to this path succeeds *)
  dump_ok : string → bool;
  (** the batch transform of chunk number [n] succeeds *)
  chunk_ok : nat → bool;
  (** the vector of a book under the fitted pipeline *)
  vector_of : book → vector;
  (** stacking the vectors of this language and building its index succeeds *)
  build_ok : option string → bool;
  (** [np.save] or [faiss.write_index] to this path succeeds *)
  save_ok : string → bool
}.

(** One key of the filter of the catalog queries of the training run,
    [{"$exists": True, "$ne": None, "$ne": ""}]: the second ["$ne"] of the
    dictionary literal replaces the first, so the test that reaches the
    database is that the key exists and its value is not the empty string.
    A stored null passes it. *)
Definition exists_and_not_empty (f : field string) : bool :=
  match f with
  | Absent => false
  | Null => true
  | Val s => bool_decide (s ≠ "")
  end.

(** The filter of the catalog queries of the training run. *)
Definition eligible (b : book) : bool :=
  exists_and_not_empty (summary b) && exists_and_not_empty (language_of_book b).

(** [lang_faiss_builders]: a dictionary in insertion order; the key [None]
    is the language of a book whose language is stored as null. *)
Definition builders := list (option string * (list vector * list oid)).

Fixpoint builder_add (lang : option string) (v : vector) (id : oid) (bs : builders)
    : builders :=
  match bs with
  | [] => [(lang, ([v], [id]))]
  | (l, (vs, bids)) :: bs' =>
      if bool_decide (l = lang) then (l, (vs ++ [v], bids ++ [id])) :: bs'
      else (l, (vs, bids)) :: builder_add lang v id bs'
  end.

Record acc := {
  all_book_ids : list oid;
  all_book_names : list (option string);
  all_book_languages : list (option string);
  lang_faiss_builders : builders
}.

Definition empty_acc : acc :=
  {| all_book_ids := []; all_book_names := []; all_book_languages := [];
     lang_faiss_builders := [] |}.

(** What the loop over a chunk keeps of one book: id, name and language. *)
Definition row := (oid * option string * option string)%type.

(** The loop over the books of a chunk.  [book["name"]] and
    [book["language_of_book"]] raise [KeyError] for an absent key.  The
    builders are changed in place, so after an exception they still hold
    the books before the one that raised; the lists of the chunk are only
    handed on when the loop comes to its end: [None] otherwise. *)
Fixpoint file_books (r : run) (chunk : list book) (bs : builders)
    : builders * option (list row) :=
  match chunk with
  | [] => (bs, Some [])
  | b :: rest =>
      match subscript (name b), subscript (language_of_book b) with
      | Some book_name, Some book_lang =>
          let '(bs', rows) :=
            file_books r rest (builder_add book_lang (vector_of r b) (book_id b) bs) in
          (bs', cons (book_id b, book_name, book_lang) <$> rows)
      | _, _ => (bs, None)
      end
  end.

Definition _process_chunk_optimized (r : run) (chunk_num : nat) (chunk : list book)
    (a : acc) : bool * acc :=
  if chunk_ok r chunk_num then
    match file_books r chunk (lang_faiss_builders a) with
    | (bs, Some rows) =>
        (true,
         {| all_book_ids := all_book_ids a ++ ((λ x : row, x.1.1) <$> rows);
            all_book_names := all_book_names a ++ ((λ x : row, x.1.2) <$> rows);
            all_book_languages := all_book_languages a ++ ((λ x : row, x.2) <$> rows);
            lang_faiss_builders := bs |})
    | (bs, None) =>
        (false,
         {| all_book_ids := all_book_ids a;
            all_book_names := all_book_names a;
            all_book_languages := all_book_languages a;
            lang_faiss_builders := bs |})
    end
  else (false, a).

(** The loop over the cursor: [None] when a full chunk fails, otherwise the
    chunk counter, the books not yet processed and the accumulators. *)
Fixpoint stream (r : run) (chunk_size chunk_num : nat) (current_chunk : list book)
    (a : acc) (cursor : list book) : option (nat * list book * acc) :=
  match cursor with
  | [] => Some (chunk_num, current_chunk, a)
  | b :: rest =>
      let current_chunk' := current_chunk ++ [b] in
      if (chunk_size <=? length current_chunk')%nat then
        match _process_chunk_optimized r (S chunk_num) current_chunk' a with
        | (true, a') => stream r chunk_size (S chunk_num) [] a' rest
        | (false, _) => None
        end
      else stream r chunk_size chunk_num current_chunk' a rest
  end.

(** A write that may raise: [None] leaves the file as it was. *)
Definition write (ok : string → bool) (path : string) (content : blob) (fs : files)
    : option files :=
  if ok path then Some (<[path := content]> fs) else None.

(** [_save_fitted_transformers]: five dumps in a row; on an exception the
    files dumped before it stay. *)
Fixpoint dump_all (r : run) (fitted : nat) (paths : list string) (fs : files)
    : bool * files :=
  match paths with
  | [] => (true, fs)
  | p :: rest =>
      match write (dump_ok r) p (Joblib fitted) fs with
      | Some fs' => dump_all r fitted rest fs'
      | None => (false, fs)
      end
  end.

Definition _save_fitted_transformers (r : run) (fitted : nat) (fs : files) : bool * files :=
  dump_all r fitted model_files fs.

Definition _fit_transformers_on_sample (r : run) (fs : files) : bool * files :=
  match sample r with
  | [] => (false, fs)
  | _ =>
      match fit r with
      | None => (false, fs)
      | Some fitted => _save_fitted_transformers r fitted fs
      end
  end.

Definition choose_index (num_vectors : Z) : index_kind :=
  if num_vectors <? 1000 then IndexFlatIP
  else IndexIVFFlat (Z.max (Z.sqrt num_vectors) 10).

(** The loop over the languages in [_finalize_faiss_indices]. *)
Fixpoint write_indices (r : run) (bs : builders) (fs : files) : bool * files :=
  match bs with
  | [] => (true, fs)
  | (lang, (vectors, lang_ids)) :: rest =>
      match vectors with
      | [] => write_indices r rest fs
      | _ =>
          if negb (build_ok r lang) then (false, fs)
          else
            let index := FaissIndex (choose_index (Z.of_nat (length vectors))) vectors in
            match write (save_ok r) (index_file (py_str lang)) index fs with
            | None => (false, fs)
            | Some fs1 =>
                match write (save_ok r) (ids_file (py_str lang)) (NpyIds lang_ids) fs1 with
                | None => (false, fs1)
                | Some fs2 => write_indices r rest fs2
                end
            end
      end
  end.

Definition _finalize_faiss_indices (r : run) (model_loaded : bool) (a : acc) (fs : files)
    : bool * files :=
  match write (save_ok r) "book_ids.npy" (NpyIds (all_book_ids a)) fs with
  | None => (false, fs)
  | Some fs1 =>
      match write (save_ok r) "book_names.npy" (NpyStrings (all_book_names a)) fs1 with
      | None => (false, fs1)
      | Some fs2 =>
          match write (save_ok r) "book_langs.npy" (NpyStrings (all_book_languages a)) fs2 with
          | None => (false, fs2)
          | Some fs3 =>
              match write_indices r (lang_faiss_builders a) fs3 with
              | (false, fs4) => (false, fs4)
              | (true, fs4) => (load_model model_loaded fs4, fs4)
              end
          end
      end
  end.

Definition _stream_process_all_books (r : run) (model_loaded : bool) (chunk_size : nat)
    (catalog : list book) (fs : files) : bool * files :=
  match stream r chunk_size 0 [] empty_acc (filter (λ b, Is_true (eligible b)) catalog) with
  | None => (false, fs)
  | Some (chunk_num, current_chunk, a) =>
      let a' :=
        match current_chunk with
        | [] => a
        | _ => (_process_chunk_optimized r (S chunk_num) current_chunk a).2
        end in
      _finalize_faiss_indices r model_loaded a' fs
  end.

(** [train_model].  After the count of the eligible books it computes
    [total_chunks = (total_books + chunk_size - 1) // chunk_size], which
    raises [ZeroDivisionError] for a chunk size of 0: the run then returns
    [False] before the fit phase. *)
Definition train_model (r : run) (model_loaded : bool) (chunk_size : nat)
    (catalog : list book) (fs : files) : bool * files :=
  if negb (_should_retrain fs) then (load_model model_loaded fs, fs)
  else
    match filter (λ b, Is_true (eligible b)) catalog with
    | [] => (false, fs)
    | _ =>
        if (chunk_size =? 0)%nat then (false, fs)
        else
          match _fit_transformers_on_sample r fs with
          | (false, fs1) => (false, fs1)
          | (true, fs1) => _stream_process_all_books r model_loaded chunk_size catalog fs1
          end
    end.

(** The five extractor files holding the state of one fit. *)
Definition with_transformers (fitted : nat) (fs : files) : files :=
  foldl (λ fs p, <[p := Joblib fitted]> fs) fs model_files.

(** Every path a training run may write. *)
Definition artifact (path : string) : Prop :=
  path ∈ model_files ∨ path ∈ required_files
  ∨ ∃ lang, path = index_file lang ∨ path = ids_file lang.

End ContentTraining.

(** ** Concrete inputs used by the examples below *)

Module Scenarios.
Import Bson.

Definition alice : string := "aaaaaaaaaaaaaaaaaaaaaaaa".
Definition u1 : string := "111111111111111111111111".
Definition u2 : string := "222222222222222222222222".

(** Two likes for two authors, then the first like is withdrawn. *)
Definition withdraw_first_like : list AuthorPrefs.op :=
  [ AuthorPrefs.Update alice "X" "like" "A";
    AuthorPrefs.Update alice "Y" "like" "B";
    AuthorPrefs.Remove alice "X" "like" "A" ].

Definition author_x0 : AuthorPrefs.author :=
  {| AuthorPrefs.author_name := "X"; AuthorPrefs.preference_count := 0;
     AuthorPrefs.books_liked := []; AuthorPrefs.books_disliked := [];
     AuthorPrefs.total_interactions := 0 |}.

Definition author_y1 : AuthorPrefs.author :=
  {| AuthorPrefs.author_name := "Y"; AuthorPrefs.preference_count := 1;
     AuthorPrefs.books_liked := ["B"]; AuthorPrefs.books_disliked := [];
     AuthorPrefs.total_interactions := 1 |}.

(** Three concurrent calls: call 1 increments first, call 0 and call 2
    follow, call 2 crosses the threshold, and the background run ends
    before the calls are through. *)
Definition overtaking : list CounterRace.event :=
  [ CounterRace.Call 1; CounterRace.Call 0; CounterRace.Call 2;
    CounterRace.Call 0; CounterRace.Call 2; CounterRace.Call 1;
    CounterRace.Call 2; CounterRace.Call 2;
    CounterRace.ThreadEnds Counter.failed; CounterRace.Call 2 ].

(** A one-book catalog. *)
Definition shelf : list Catalog.book :=
  [ {| Catalog.book_id := "b00000000000000000000001"; Catalog.name := Catalog.Val "A";
       Catalog.author := Catalog.Val (Catalog.Str "X");
       Catalog.genres := Catalog.Val (Catalog.Str "Fantasy");
       Catalog.summary := Catalog.Val "A summary.";
       Catalog.language_of_book := Catalog.Val "English";
       Catalog.star_rating := None; Catalog.num_ratings := Catalog.Absent;
       Catalog.popularity_score := Catalog.Absent |} ].

Definition fantasy : Interactions.genres_arg := Interactions.GenresStr "Fantasy".

(** Scenario 2: a new user likes book A of author X, then dislikes it. *)
Definition liked_a : Interactions.world :=
  (Interactions.like_book shelf 1 (Interactions.empty_world alice) alice "A" "X" fantasy).2.

Definition disliked_a : Interactions.world :=
  (Interactions.dislike_book shelf 2 liked_a alice "A" "X" fantasy).2.

(** The same with an earlier like of book B of the same author. *)
Definition liked_b : Interactions.world :=
  (Interactions.like_book shelf 1 (Interactions.empty_world alice) alice "B" "X" fantasy).2.

Definition liked_b_a : Interactions.world :=
  (Interactions.like_book shelf 2 liked_b alice "A" "X" fantasy).2.

Definition liked_b_disliked_a : Interactions.world :=
  (Interactions.dislike_book shelf 3 liked_b_a alice "A" "X" fantasy).2.

(** Scenario 4: similar users U1 (0.9, likes B and C) and U2 (0.6, likes
    D); the target has already seen C. *)
Definition plain_book (id title : string) : Catalog.book :=
  {| Catalog.book_id := id; Catalog.name := Catalog.Val title;
     Catalog.author := Catalog.Val (Catalog.Lst ["An Author"]);
     Catalog.genres := Catalog.Val (Catalog.Lst ["Fantasy"]);
     Catalog.summary := Catalog.Val "A summary.";
     Catalog.language_of_book := Catalog.Val "English";
     Catalog.star_rating := None; Catalog.num_ratings := Catalog.Val 7;
     Catalog.popularity_score := Catalog.Val (1 # 1)%Q |}.

Definition library : list Catalog.book :=
  [ plain_book "b0000000000000000000000b" "B";
    plain_book "b0000000000000000000000c" "C";
    plain_book "b0000000000000000000000d" "D" ].

Definition liked (user title : string) (at_time : Z) : Interactions.interaction :=
  {| Interactions.user_id := user; Interactions.book_name := title;
     Interactions.book_author := "An Author"; Interactions.action := "like";
     Interactions.timestamp := at_time; Interactions.book_genres := ["Fantasy"] |}.

Definition cascade_world : Cascade.world :=
  {| Cascade.redis := ∅;
     Cascade.eng := {| Cascade.model_loaded := true;
                       Cascade.user_mapping := [alice; u1; u2] |};
     Cascade.disk := Some [alice; u1; u2];
     Cascade.user_similarities :=
       {[ alice := {| Cascade.similar_users := [u1; u2];
                      Cascade.similarities := [(9 # 10)%Q; (6 # 10)%Q] |} ]};
     Cascade.interactions :=
       [ liked u1 "B" 1; liked u1 "C" 2; liked u2 "D" 3; liked alice "C" 4 ];
     Cascade.books := library;
     Cascade.user_languages := {[ alice := ["english"] ]};
     Cascade.train_script_exists := true;
     Cascade.train_runs := 0 |}.

(** Variations of scenario 4. *)
Definition cascade_case (cache : gmap string Catalog.cached) (mapping : list string)
    (similar : list string) (scores : list Q) (likes : list Interactions.interaction)
    (catalog : list Catalog.book) (languages : list string) : Cascade.world :=
  {| Cascade.redis := cache;
     Cascade.eng := {| Cascade.model_loaded := true; Cascade.user_mapping := mapping |};
     Cascade.disk := Some mapping;
     Cascade.user_similarities :=
       {[ alice := {| Cascade.similar_users := similar; Cascade.similarities := scores |} ]};
     Cascade.interactions := likes;
     Cascade.books := catalog;
     Cascade.user_languages := {[ alice := languages ]};
     Cascade.train_script_exists := true;
     Cascade.train_runs := 0 |}.

(** The similarity document lists U2 (0.6) before U1 (0.9). *)
Definition swapped_world : Cascade.world :=
  cascade_case ∅ [alice; u1; u2] [u2; u1] [(6 # 10)%Q; (9 # 10)%Q]
    (Cascade.interactions cascade_world) library ["english"].

(** A list with the one book Z is cached for the target. *)
Definition cached_world : Cascade.world :=
  cascade_case
    {[ Cascade.cache_key alice :=
         Catalog.CachedRecommendations
           [Catalog._format_book_info (plain_book "b0000000000000000000000e" "Z")] ]}
    [alice; u1; u2] [u1; u2] [(9 # 10)%Q; (6 # 10)%Q]
    (Cascade.interactions cascade_world) library ["english"].

(** A target without interactions whom the model does not know. *)
Definition unmapped_world : Cascade.world :=
  cascade_case ∅ [u1; u2] [u1; u2] [(9 # 10)%Q; (6 # 10)%Q]
    [ liked u1 "B" 1; liked u1 "C" 2; liked u2 "D" 3 ] library ["english"].

(** U1 likes 101 books of the catalog. *)
Definition title_of (i : nat) : string :=
  String (ascii_of_nat (65 + i / 26)) (String (ascii_of_nat (65 + i mod 26)) "").

Definition prolific_world : Cascade.world :=
  cascade_case ∅ [alice; u1; u2] [u1] [(9 # 10)%Q]
    ((λ i, liked u1 (title_of i) (Z.of_nat i)) <$> seq 0 101)
    ((λ i, plain_book (title_of i) (title_of i)) <$> seq 0 101) ["english"].

(** U1 also likes a French book; the target reads English. *)
Definition french_world : Cascade.world :=
  cascade_case ∅ [alice; u1; u2] [u1; u2] [(9 # 10)%Q; (6 # 10)%Q]
    [ liked u1 "Le Livre" 5; liked u1 "B" 1; liked u1 "C" 2; liked u2 "D" 3;
      liked alice "C" 4 ]
    (library ++
     [ {| Catalog.book_id := "b0000000000000000000000f"; Catalog.name := Catalog.Val "Le Livre";
          Catalog.author := Catalog.Absent; Catalog.genres := Catalog.Absent;
          Catalog.summary := Catalog.Val "Un resume.";
          Catalog.language_of_book := Catalog.Val "Francais";
          Catalog.star_rating := None; Catalog.num_ratings := Catalog.Absent;
          Catalog.popularity_score := Catalog.Val (5 # 1)%Q |} ])
    [" English "].

(** A training script that succeeds and leaves everything as it is. *)
Definition idle_script : Cascade.script := λ w, (0, w).

(** A user the model has never seen and who has no interaction. *)
Definition newcomer : string := "cccccccccccccccccccccccc".

(** The model knows the user, the similarity table does not. *)
Definition no_similarity_world : Cascade.world :=
  {| Cascade.redis := ∅;
     Cascade.eng := {| Cascade.model_loaded := true;
                       Cascade.user_mapping := [alice; u1; u2] |};
     Cascade.disk := Some [alice; u1; u2];
     Cascade.user_similarities := ∅;
     Cascade.interactions :=
       [ liked u1 "B" 1; liked u1 "C" 2; liked u2 "D" 3; liked alice "C" 4 ];
     Cascade.books := library;
     Cascade.user_languages := {[ alice := ["english"] ]};
     Cascade.train_script_exists := true;
     Cascade.train_runs := 0 |}.

(** The resident model predates alice, who has an interaction. *)
Definition stale_world : Cascade.world :=
  {| Cascade.redis := ∅;
     Cascade.eng := {| Cascade.model_loaded := true; Cascade.user_mapping := [u1; u2] |};
     Cascade.disk := Some [u1; u2];
     Cascade.user_similarities := Cascade.user_similarities cascade_world;
     Cascade.interactions := Cascade.interactions cascade_world;
     Cascade.books := library;
     Cascade.user_languages := {[ alice := ["english"] ]};
     Cascade.train_script_exists := true;
     Cascade.train_runs := 0 |}.

(** A training script that exits with code 1. *)
Definition failing_script : Cascade.script := λ w, (1, w).

(** A two-book English index and a French anchor whose language is not
    resident. *)
Definition id_a : string := "b0000000000000000000000a".
Definition id_b : string := "b0000000000000000000000b".
Definition id_f : string := "b0000000000000000000000f".

Definition content_books : list Catalog.book :=
  [ plain_book id_a "A"; plain_book id_b "B";
    {| Catalog.book_id := id_f; Catalog.name := Catalog.Val "Le Livre";
       Catalog.author := Catalog.Absent; Catalog.genres := Catalog.Absent;
       Catalog.summary := Catalog.Val "Un resume.";
       Catalog.language_of_book := Catalog.Val "french";
       Catalog.star_rating := None; Catalog.num_ratings := Catalog.Absent;
       Catalog.popularity_score := Catalog.Absent |} ].

(** A flat index over [A; B]: the nearest neighbours of any vector are A
    then B, and places beyond the two rows carry the label -1. *)
Definition two_rows : ContentQuery.faiss_entry :=
  {| ContentQuery.search := λ _ k,
       if 0 <? k
       then Some (take (Z.to_nat k)
                    ([(0, 1%Q); (1, (8 # 10)%Q)]
                     ++ replicate (Z.to_nat k) (-1, (-1000 # 1)%Q)))
       else None;
     ContentQuery.ids := [id_a; id_b] |}.

Definition content_engine : ContentQuery.engine :=
  {| ContentQuery.book_name_to_id := {[ "A" := id_a; "B" := id_b; "Le Livre" := id_f ]};
     ContentQuery.book_index := {[ id_a := 0%nat; id_b := 1%nat; id_f := 2%nat ]};
     ContentQuery.book_language_map :=
       {[ id_a := "english"; id_b := "english"; id_f := "french" ]};
     ContentQuery.faiss_indices := {[ "english" := two_rows ]} |}.

Definition any_vector : Catalog.book → option ContentQuery.vector := λ _, Some [1%Q].

(** A training run on a one-book catalog with chunks of one book: the
    extractors of an earlier fit are on disk, the global arrays are not;
    fitting and saving succeed, the transform of the first chunk raises. *)
Definition old_files : ContentTraining.files :=
  ContentTraining.with_transformers 0 ∅.

Definition chunk_fails : ContentTraining.run :=
  {| ContentTraining.sample := shelf;
     ContentTraining.fit := Some 1%nat;
     ContentTraining.dump_ok := λ _, true;
     ContentTraining.chunk_ok := λ _, false;
     ContentTraining.vector_of := λ _, [1%Q];
     ContentTraining.build_ok := λ _, true;
     ContentTraining.save_ok := λ _, true |}.

(** The same catalog, with a run in which fitting raises. *)
Definition fit_fails : ContentTraining.run :=
  {| ContentTraining.sample := shelf;
     ContentTraining.fit := None;
     ContentTraining.dump_ok := λ _, true;
     ContentTraining.chunk_ok := λ _, true;
     ContentTraining.vector_of := λ _, [1%Q];
     ContentTraining.build_ok := λ _, true;
     ContentTraining.save_ok := λ _, true |}.

(** A run in which everything goes through until the index of the only
    language is to be built. *)
Definition build_fails : ContentTraining.run :=
  {| ContentTraining.sample := shelf;
     ContentTraining.fit := Some 1%nat;
     ContentTraining.dump_ok := λ _, true;
     ContentTraining.chunk_ok := λ _, true;
     ContentTraining.vector_of := λ _, [1%Q];
     ContentTraining.build_ok := λ _, false;
     ContentTraining.save_ok := λ _, true |}.

End Scenarios.

(** ** interaction_counter.py: the training flag as a lock *)

Module Exclusion.
Import Counter CounterRace.

(** A call that has taken the flag and not yet started its thread. *)
Definition holds_flag (p : pc) : bool :=
  match p with AtReset _ | AtSpawn _ => true | _ => false end.

Definition holders (l : list pc) : nat := length (filter (λ p, Is_true (holds_flag p)) l).

(** Background runs that have been started and have not come to their end. *)
Definition running (r : race) : nat := (length (started (shared r)) - finished r)%nat.

(** [n] calls not yet begun on any counter collection, with no run in
    progress. *)
Definition at_rest (n : nat) (doc : option counter_doc) : race :=
  {| shared := {| counters := doc; training_in_progress := false; started := [] |};
     calls := replicate n Idle;
     finished := 0 |}.

(** The flag accounts for every holder and every running thread. *)
Definition balanced (r : race) : Prop :=
  (finished r ≤ length (started (shared r)))%nat
  ∧ (running r + holders (calls r))%nat
    = if training_in_progress (shared r) then 1%nat else 0%nat.

End Exclusion.

(** ** user_sorted_author_preferences.py: the count of one author *)

Module AuthorCounts.
Import Bson AuthorPrefs.

(** [preference_count] of the first entry with this name, 0 without one. *)
Definition count_of (l : list author) (name : string) : Z :=
  match list_find (λ a, author_name a = name) l with
  | Some (_, a) => preference_count a
  | None => 0
  end.

Definition count_in (db : collection) (uid : oid) (name : string) : Z :=
  count_of (user_authors db uid) name.

(** An author appears once, with a count of at least 1. *)
Definition well_formed (l : list author) : Prop :=
  NoDup (names l) ∧ Forall positive l.

End AuthorCounts.

Module PyStrShape.

(** The first character is not white space. *)
Definition no_lead (s : string) : Prop :=
  match s with
  | String a _ => PyStr.is_space a = false
  | EmptyString => True
  end.

(** [s] is what [strip] returns for it: no white space at either end. *)
Definition stripped (s : string) : Prop := PyStr.strip s = s.

(** [c not in s] for a character. *)
Fixpoint lacks (c : ascii) (s : string) : Prop :=
  match s with
  | String a s' => a ≠ c ∧ lacks c s'
  | EmptyString => True
  end.

(** Every character is in the ASCII range, on which [PyStr] follows
    Python. *)
Fixpoint ascii_only (s : string) : Prop :=
  match s with
  | String a s' => (nat_of_ascii a < 128)%nat ∧ ascii_only s'
  | EmptyString => True
  end.

(** A genre as the catalog stores it: non-empty ASCII text, stripped, no
    comma. *)
Definition clean (s : string) : Prop :=
  s ≠ "" ∧ ascii_only s ∧ stripped s ∧ lacks "," s.

End PyStrShape.

(** ** user_book_interaction.py: the queries and [remove_interaction] *)

Module InteractionQueries.
Import Bson Catalog Interactions.

(** [count_documents({"book_name": ..., "action": ...})] *)
Definition count_documents (book act : string) (l : list interaction) : Z :=
  Z.of_nat (length (filter (λ i, book_name i = book ∧ action i = act) l)).

(** The dictionary with the keys ["likes"] and ["dislikes"]. *)
Abbreviation stats := (gmap string Z).

Definition get_book_stats (w : world) (book : string) : stats :=
  <["dislikes" := count_documents book "dislike" (interactions w)]>
    (<["likes" := count_documents book "like" (interactions w)]> ∅).

(** The [$match] stage of [get_book_stats_batch]. *)
Definition in_pipeline (book_names : list string) (i : interaction) : Prop :=
  book_name i ∈ book_names ∧ action i ∈ ["like"; "dislike"].

Definition group_id (i : interaction) : string * string := (book_name i, action i).

(** [$match] then [$group] with [$sum: 1]: one result for every pair of a
    book name and an action that occurs among the matched documents. *)
Definition aggregate (book_names : list string) (l : list interaction)
    : list ((string * string) * Z) :=
  let matched := filter (in_pipeline book_names) l in
  (λ k, (k, Z.of_nat (length (filter (λ i, group_id i = k) matched))))
    <$> remove_dups (group_id <$> matched).

Definition zero_stats : stats := <["dislikes" := 0]> (<["likes" := 0]> ∅).

(** [if book_name in stats: stats[book_name][f"{action}s"] = count] *)
Definition fill (st : gmap string stats) (result : (string * string) * Z)
    : gmap string stats :=
  let '((book, act), count) := result in
  match st !! book with
  | Some s => <[book := <[act +:+ "s" := count]> s]> st
  | None => st
  end.

Definition get_book_stats_batch (w : world) (book_names : list string)
    : gmap string stats :=
  let st := foldl (λ st book, <[book := zero_stats]> st) ∅ book_names in
  foldl fill st (aggregate book_names (interactions w)).

(** [get_user_interactions_batch]: the dictionary comprehension over the
    documents found, a later document overwriting an earlier one. *)
Definition get_user_interactions_batch (w : world) (uid_str : string)
    (book_names : list string) : gmap string string :=
  match ObjectId uid_str with
  | None => ∅
  | Some uid =>
      foldl (λ m i, <[book_name i := action i]> m) ∅
        (filter (λ i, user_id i = uid ∧ book_name i ∈ book_names) (interactions w))
  end.

(** [delete_one]: the first matching document goes; the result is
    [deleted_count > 0]. *)
Fixpoint delete_one (uid : oid) (name : string) (l : list interaction)
    : bool * list interaction :=
  match l with
  | [] => (false, [])
  | i :: l' =>
      if matches uid name i then (true, l')
      else let '(deleted, l'') := delete_one uid name l' in (deleted, i :: l'')
  end.

(** The [book_genres] value of a request body as [remove_interaction]
    receives it: it is iterated as it is, without [_parse_genres]. *)
Inductive json_genres :=
| JStr (s : string)
| JList (l : list string)
| JObject (keys : list string)
| JScalar.

(** The one-character strings a [for] loop over a string yields. *)
Fixpoint chars (s : string) : list string :=
  match s with
  | String a s' => String a EmptyString :: chars s'
  | EmptyString => []
  end.

(** [for genre in genres]: [None] is the [TypeError] of a value that
    cannot be iterated (null, a number, a boolean). *)
Definition iterate (genres : json_genres) : option (list string) :=
  match genres with
  | JStr s => Some (chars s)
  | JList l => Some l
  | JObject keys => Some keys
  | JScalar => None
  end.

Definition remove_interaction (w : world) (uid_str name author_name : string)
    (genres : json_genres) (act : string) : bool * world :=
  match ObjectId uid_str with
  | None => (false, w)
  | Some uid =>
      let '(deleted, l) := delete_one uid name (interactions w) in
      let w1 := with_interactions l w in
      let w2 := remove_author_preferences uid_str author_name act name w1 in
      match iterate genres with
      | None => (false, w2)
      | Some genres_list => (deleted, _remove_genre_preferences uid genres_list act w2)
      end
  end.

(** The document [set_interaction] leaves in the place of [i]. *)
Definition retouched (new_action : string) (now : Z) (genres_list : list string)
    (i : interaction) : interaction :=
  {| user_id := user_id i; book_name := book_name i; book_author := book_author i;
     action := new_action; timestamp := now; book_genres := genres_list |}.

(** The document [like_book] and [dislike_book] insert. *)
Definition inserted (uid : oid) (name author_name new_action : string) (now : Z)
    (genres_list : list string) : interaction :=
  {| user_id := uid; book_name := name; book_author := author_name;
     action := new_action; timestamp := now; book_genres := genres_list |}.

(** The compound index of the collection read as a key. *)
Definition key (i : interaction) : oid * string := (user_id i, book_name i).

(** At most one document for a user and a book. *)
Definition unique (l : list interaction) : Prop := NoDup (key <$> l).

(** Every stored genre count is at least 1. *)
Definition counted (m : gmap (oid * string) Z) : Prop :=
  ∀ k c, m !! k = Some c → 1 ≤ c.

(** The count stored for a user and a genre, 0 without a document. *)
Definition genre_count (m : gmap (oid * string) Z) (k : oid * string) : Z :=
  default 0 (m !! k).

(** How often the loops of [_add_genre_preferences] and
    [_remove_genre_preferences] over [genres] reach the document [k] of
    user [uid]. *)
Definition occurrences (uid : oid) (k : oid * string) (genres : list string) : Z :=
  Z.of_nat (length (filter (λ g, g ≠ "" ∧ (uid, g) = k) genres)).

(** The genre collection an action addresses. *)
Definition genres_of (act : string) (w : world) : gmap (oid * string) Z :=
  if PyStr.eqb act "like" then liked_genres w else disliked_genres w.

End InteractionQueries.

(** ** ContentBasedRecommender.py: the books of a run, language by language *)

Module ContentShelves.
Import Bson Catalog ContentTraining.

(** The loop of [_process_chunk_optimized] gets through a book that has
    the keys [name] and [language_of_book]. *)
Definition readable (b : book) : bool :=
  bool_decide (name b ≠ Absent) && bool_decide (language_of_book b ≠ Absent).

(** The books of a chunk that the loop files before it raises: all of
    them when every book is readable. *)
Fixpoint filed_part (chunk : list book) : list book :=
  match chunk with
  | [] => []
  | b :: rest => if readable b then b :: filed_part rest else []
  end.

(** The key under which the loop files a readable book: its language,
    [None] when the language is stored as null. *)
Definition lang_key (b : book) : option string := get (language_of_book b).

(** What the loop adds to the builders for the books of [chunk]. *)
Definition shelve (r : run) (chunk : list book) (bs : builders) : builders :=
  foldl (λ bs b, builder_add (lang_key b) (vector_of r b) (book_id b) bs) bs chunk.

(** The accumulators after the books of [chunk], all of them readable,
    have gone through one [_process_chunk_optimized] whose transform
    succeeds. *)
Definition absorb (r : run) (chunk : list book) (a : acc) : acc :=
  {| all_book_ids := all_book_ids a ++ (book_id <$> chunk);
     all_book_names := all_book_names a ++ ((λ b, get (name b)) <$> chunk);
     all_book_languages := all_book_languages a ++ (lang_key <$> chunk);
     lang_faiss_builders := shelve r chunk (lang_faiss_builders a) |}.

(** The books filed under one key, in the order of the cursor. *)
Definition of_language (lang : option string) (books : list book) : list book :=
  filter (λ b, lang_key b = lang) books.

(** The builder of a language holds the vectors and the ids of the books
    of that language, in the order of the cursor. *)
Definition filed (r : run) (books : list book) (bs : builders) : Prop :=
  NoDup bs.*1
  ∧ ∀ lang vectors lang_ids,
      (lang, (vectors, lang_ids)) ∈ bs ↔
      of_language lang books ≠ []
      ∧ vectors = vector_of r <$> of_language lang books
      ∧ lang_ids = book_id <$> of_language lang books.

(** Every book the training queries select has a name, and none has its
    language stored as null. *)
Definition well_formed (catalog : list book) : Prop :=
  ∀ b, b ∈ catalog → Is_true (eligible b) →
       name b ≠ Absent ∧ language_of_book b ≠ Null.

(** A run in which no library call raises. *)
Definition smooth (fitted : nat) (sample_drawn : list book) : run :=
  {| sample := sample_drawn;
     fit := Some fitted;
     dump_ok := λ _, true;
     chunk_ok := λ _, true;
     vector_of := λ _, [1%Q];
     build_ok := λ _, true;
     save_ok := λ _, true |}.

(** A catalog of two books in the language "english" and one in
    "french". *)
Definition written_in (id title language : string) : book :=
  {| book_id := id; name := Val title;
     author := Val (Lst ["An Author"]); genres := Val (Lst ["Fantasy"]);
     summary := Val "A summary."; language_of_book := Val language;
     star_rating := None; num_ratings := Val 7; popularity_score := Val (1 # 1)%Q |}.

(** A selected document that has no key [name]. *)
Definition nameless (id : string) : book :=
  {| book_id := id; name := Absent;
     author := Absent; genres := Absent;
     summary := Val "A summary."; language_of_book := Val "english";
     star_rating := None; num_ratings := Absent; popularity_score := Absent |}.

Definition three_books : list book :=
  [ written_in Scenarios.id_a "A" "english";
    written_in Scenarios.id_f "Le Livre" "french";
    written_in Scenarios.id_b "B" "english" ].

End ContentShelves.

(** ** ContentBasedRecommender.py: the cache of book vectors *)

Module VectorCache.
Import Bson Catalog ContentQuery.

(** [self.vector_cache]: a dictionary in insertion order. *)
Abbreviation cache := (list (oid * vector)).

(** [d[k]], [None] for a key that is not there. *)
Fixpoint dict_get (k : oid) (d : cache) : option vector :=
  match d with
  | [] => None
  | (k', v) :: d' => if decide (k' = k) then Some v else dict_get k d'
  end.

(** [d[k] = v]: a key that is there keeps its place. *)
Fixpoint dict_set (k : oid) (v : vector) (d : cache) : cache :=
  match d with
  | [] => [(k, v)]
  | (k', v') :: d' => if decide (k' = k) then (k', v) :: d' else (k', v') :: dict_set k v d'
  end.

(** [del d[k]] *)
Definition dict_del (k : oid) (d : cache) : cache := filter (λ kv, kv.1 ≠ k) d.

(** [_transform_single_book_to_vector].  [pipeline] stands for the fitted
    extractors, the reducer and the normalisation, [None] when one of them
    raises.  The [_id] of a catalog document is an [ObjectId], which is
    truthy. *)
Definition _transform_single_book_to_vector (pipeline : book → option vector) (b : book)
    (vector_cache : cache) : option vector * cache :=
  match dict_get (book_id b) vector_cache with
  | Some v => (Some v, vector_cache)
  | None =>
      match pipeline b with
      | None => (None, vector_cache)
      | Some normalized_vector =>
          let c := dict_set (book_id b) normalized_vector vector_cache in
          (Some normalized_vector,
           if (1000 <? length c)%nat then
             let oldest_keys := take 100 c.*1 in
             foldl (λ c key, dict_del key c) c oldest_keys
           else c)
      end
  end.

(** A cache of [n] entries with [n] keys of two characters, for [n] up to
    1024. *)
Definition numbered (n : nat) : cache :=
  (λ i : nat,
     (String (ascii_of_nat (i / 32 + 48)) (String (ascii_of_nat (i mod 32 + 48)) ""),
      [] : vector)) <$> seq 0 n.

Definition book_with_id (id : oid) : book :=
  {| book_id := id; name := Val "T"; author := Absent; genres := Absent;
     summary := Absent; language_of_book := Absent; star_rating := None;
     num_ratings := Absent; popularity_score := Absent |}.

End VectorCache.

(** * Properties *)

(** ** The stable sort *)

Section StableSortFacts.
Context {A : Type}.

Lemma insert_by_perm (ltb : A → A → bool) x l : insert_by ltb x l ≡ₚ x :: l.
Proof.
  induction l as [|y l IH]; simpl; [done|].
  destruct (ltb x y); [|done].
  rewrite IH. apply Permutation_swap.
Qed.

Lemma sort_by_desc_perm (ltb : A → A → bool) l : sort_by_desc ltb l ≡ₚ l.
Proof.
  induction l as [|x l IH]; simpl; [done|].
  rewrite insert_by_perm. by rewrite IH.
Qed.

Lemma sort_by_desc_elem_of (ltb : A → A → bool) l x : x ∈ sort_by_desc ltb l ↔ x ∈ l.
Proof. by rewrite sort_by_desc_perm. Qed.

Context (key : A → Z).

Lemma sort_desc_perm l : sort_desc key l ≡ₚ l.
Proof. apply sort_by_desc_perm. Qed.

Lemma insert_desc_sorted x l :
  StronglySorted (desc key) l →
  StronglySorted (desc key) (insert_by (λ x y, key x <? key y) x l).
Proof.
  induction 1 as [|y l Hs IH Hy]; simpl.
  - repeat constructor.
  - destruct (Z.ltb_spec (key x) (key y)) as [Hlt|Hge].
    + constructor; [done|].
      rewrite insert_by_perm. constructor; [unfold desc; lia | done].
    + constructor; [by constructor|].
      constructor; [done|].
      eapply Forall_impl; [exact Hy|]. unfold desc. intros; lia.
Qed.

Lemma sort_desc_sorted l : StronglySorted (desc key) (sort_desc key l).
Proof.
  induction l; simpl; [constructor | by apply insert_desc_sorted].
Qed.

Lemma sort_desc_Forall (P : A → Prop) l : Forall P l → Forall P (sort_desc key l).
Proof. intros H. by rewrite sort_desc_perm. Qed.

(** The head of a list in descending order carries the largest key. *)
Lemma sorted_head_max x l :
  StronglySorted (desc key) (x :: l) → Forall (λ y, key y ≤ key x) (x :: l).
Proof.
  intros [Hx _]%StronglySorted_cons. constructor; [lia|done].
Qed.

End StableSortFacts.

(** ** The author preference list *)

Module AuthorPrefsFacts.
Import Bson AuthorPrefs.

Lemma invariant_intro l :
  Forall positive l → StronglySorted (desc preference_count) l → invariant l.
Proof.
  intros Hp Hs. split; [done|done|].
  destruct l as [|a l]; [done|]. simpl. by apply sorted_head_max.
Qed.

Lemma sorted_remove_middle {A} (R : relation A) l1 x l2 :
  StronglySorted R (l1 ++ x :: l2) → StronglySorted R (l1 ++ l2).
Proof.
  rewrite !StronglySorted_app, StronglySorted_cons.
  intros (H12 & H1 & _ & H2). split_and!; [|done|done].
  intros x1 x2 Hx1 Hx2. apply H12; [done|]. by apply elem_of_cons; right.
Qed.

Lemma touch_positive weight book_name a :
  ¬ (preference_count (touch weight book_name a) ≤ 0) →
  positive (touch weight book_name a).
Proof. unfold positive. lia. Qed.

(** The loop keeps positivity and order, and changes nothing when the
    author is not in the list. *)
Lemma scan_keeps name book_name weight rest : ∀ seen found l',
  scan name book_name weight seen rest = (found, l') →
  Forall positive (seen ++ rest) →
  StronglySorted (desc preference_count) (seen ++ rest) →
  Forall positive l' ∧ StronglySorted (desc preference_count) l'
  ∧ (found = false → l' = seen ++ rest).
Proof.
  induction rest as [|a rest IH]; intros seen found l'; simpl.
  - intros [= <- <-]. rewrite app_nil_r. done.
  - destruct (PyStr.eqb (author_name a) name).
    + destruct (Z.leb_spec (Z.max (preference_count a + weight) 0) 0) as [Hle|Hgt].
      * intros [= <- <-] Hp Hs. split_and!; [|by eapply sorted_remove_middle|done].
        apply Forall_app in Hp as [Hp1 Hp2]. apply Forall_app; split; [done|].
        by eapply Forall_cons_1.
      * intros [= <- <-] Hp Hs. split_and!; [|apply sort_desc_sorted|done].
        apply sort_desc_Forall.
        apply Forall_app in Hp as [Hp1 Hp2]. apply Forall_app; split; [done|].
        apply Forall_cons in Hp2 as [_ Hp2]. constructor; [|done].
        apply touch_positive. simpl. lia.
    + intros Hscan Hp Hs.
      replace (seen ++ a :: rest) with ((seen ++ [a]) ++ rest) in *
        by (by rewrite <- app_assoc).
      by apply IH.
Qed.

Lemma updated_authors_invariant name book_name weight l :
  weight = 1 ∨ weight = -1 →
  invariant l → invariant (updated_authors name book_name weight l).
Proof.
  intros Hw [Hp Hs Ht]. unfold updated_authors.
  destruct (scan name book_name weight [] l) as [found l1] eqn:Hscan.
  apply scan_keeps in Hscan as (Hp1 & Hs1 & Hnf); [|done|done].
  destruct (negb found && (0 <? weight)) eqn:Hnew.
  - apply invariant_intro; [|apply sort_desc_sorted].
    apply sort_desc_Forall, Forall_app; split; [done|].
    constructor; [|done]. unfold positive; simpl.
    apply andb_true_iff in Hnew as [_ ?%Z.ltb_lt]. lia.
  - by apply invariant_intro.
Qed.

Lemma weights_cases action :
  weights action = 0 ∨ weights action = 1 ∨ weights action = -1.
Proof.
  unfold weights. destruct (PyStr.eqb action "like"); [tauto|].
  destruct (PyStr.eqb action "dislike"); tauto.
Qed.

(** [update_author_preference] keeps the invariant of every user's list. *)
Lemma update_keeps_invariant db user_id name action book_name uid :
  invariant (user_authors db uid) →
  invariant (user_authors (update_author_preference db user_id name action book_name).2 uid).
Proof.
  intros Hinv. unfold update_author_preference.
  destruct (negb _ || negb _); [done|].
  destruct (ObjectId user_id) as [uid'|]; [|done].
  pose proof (weights_cases action) as Hw.
  destruct (Z.eqb_spec (weights action) 0) as [|Hnz]; [done|].
  assert (weights action = 1 ∨ weights action = -1) as Hw' by lia.
  unfold user_authors in *.
  destruct (decide (uid' = uid)) as [->|Hne].
  - destruct (db !! uid) as [doc|] eqn:Hdoc; simpl; rewrite lookup_insert_eq; simpl.
    + by apply updated_authors_invariant.
    + destruct (Z.ltb_spec 0 (weights action)); apply invariant_intro;
        repeat constructor.
      unfold positive; simpl. lia.
  - destruct (db !! uid') as [doc|]; simpl; by rewrite lookup_insert_ne.
Qed.

(** Sequences made of updates only keep the invariant. *)
Lemma updates_keep_invariant ops : ∀ db uid,
  Forall is_update ops →
  invariant (user_authors db uid) →
  invariant (user_authors (run_ops db ops) uid).
Proof.
  induction ops as [|o ops IH]; intros db uid Hops Hinv; [done|].
  apply Forall_cons in Hops as [Ho Hops]. simpl.
  apply IH; [done|].
  destruct o as [u a act b|]; [|done]. by apply update_keeps_invariant.
Qed.

(** C3, at the failing input: a user likes book A of author X and book B
    of author Y, then the like of A is withdrawn through
    [remove_author_preference].  The stored list is then [X:0; Y:1]: an
    entry with count 0 is kept, the list is not in descending order, and
    its first element, which [get_most_preferred_author] returns, is not
    the most preferred author. *)
Theorem remove_breaks_invariant :
  let l := user_authors (run_ops ∅ Scenarios.withdraw_first_like) Scenarios.alice in
  l = [Scenarios.author_x0; Scenarios.author_y1]
  ∧ ¬ Forall positive l
  ∧ ¬ StronglySorted (desc preference_count) l
  ∧ ¬ top_is_max l
  ∧ ¬ invariant l
  ∧ get_most_preferred_author (run_ops ∅ Scenarios.withdraw_first_like) Scenarios.alice
    = Some Scenarios.author_x0.
Proof.
  assert (user_authors (run_ops ∅ Scenarios.withdraw_first_like) Scenarios.alice
          = [Scenarios.author_x0; Scenarios.author_y1]) as Hl
    by (vm_compute; reflexivity).
  intros l. subst l. rewrite Hl.
  assert (¬ Forall positive [Scenarios.author_x0; Scenarios.author_y1]) as Hpos.
  { intros [H _]%Forall_cons. unfold positive in H. simpl in H. lia. }
  split_and!; [done|done| | | |by vm_compute].
  - intros [H _]%StronglySorted_cons. apply Forall_cons in H as [H _].
    unfold desc in H. simpl in H. lia.
  - simpl. intros [_ [H _]%Forall_cons]%Forall_cons. simpl in H. lia.
  - intros [H _ _]. by apply Hpos.
Qed.

End AuthorPrefsFacts.

(** ** The interaction counter, one call after the other *)

Module CounterFacts.
Import Counter.

(** What one call does to the counter, the flag and the threads. *)
Lemma increment_counter_cases s :
  match counters s with
  | None => increment_counter s = (false, s)
  | Some d =>
      let c := current_count d + 1 in
      if (threshold d <=? c) && negb (training_in_progress s)
      then increment_counter s =
             (true, {| counters := Some (set_count 0 d);
                       training_in_progress := true;
                       started := started s ++ [c] |})
      else increment_counter s =
             (false, {| counters := Some (set_count c d);
                        training_in_progress := training_in_progress s;
                        started := started s |})
  end.
Proof.
  destruct s as [[d|] flag st]; [|done]. simpl.
  unfold increment_counter; simpl.
  destruct (threshold d <=? current_count d + 1); [|done].
  unfold _trigger_model_training, take_flag; simpl.
  destruct flag; done.
Qed.

(** A call starts at most one thread; it starts one exactly when it returns
    [True], and then it has reset the count and holds the flag. *)
Lemma increment_counter_single s :
  let '(b, s') := increment_counter s in
  (b = true →
     (∃ c, started s' = started s ++ [c]) ∧ get_current_count s' = 0
     ∧ training_in_progress s = false ∧ training_in_progress s' = true)
  ∧ (b = false →
     started s' = started s ∧ training_in_progress s' = training_in_progress s).
Proof.
  pose proof (increment_counter_cases s) as H.
  destruct (counters s) as [d|] eqn:Hd; [|by rewrite H].
  cbv zeta in H.
  destruct (threshold d <=? current_count d + 1); simpl in H;
    [destruct (training_in_progress s) eqn:Hflag; simpl in H|]; rewrite H;
    (split; [|done]); try done.
  intros _. split_and!; eauto.
Qed.

(** After a call that triggered, the next call does not, whether or not the
    background run has come to its end in between. *)
Lemma no_second_trigger s s' :
  increment_counter s = (true, s') →
  (∀ d, counters s = Some d → 1 < threshold d) →
  (increment_counter s').1 = false
  ∧ ∀ st, (increment_counter (finish_training st s')).1 = false.
Proof.
  intros Hinc Hthr.
  pose proof (increment_counter_cases s) as H.
  destruct (counters s) as [d|] eqn:Hd; [|congruence].
  specialize (Hthr d eq_refl). cbv zeta in H.
  destruct (_ && _); [|congruence].
  rewrite H in Hinc. injection Hinc as <-.
  split; [|intros st].
  - pose proof (increment_counter_cases
      {| counters := Some (set_count 0 d); training_in_progress := true;
         started := started s ++ [current_count d + 1] |}) as H'.
    simpl in H'. rewrite andb_false_r in H'. by rewrite H'.
  - destruct st; unfold increment_counter; simpl; change (0 + 1) with 1;
      destruct (Z.leb_spec (threshold d) 1); (done || lia).
Qed.

(** C2: from a counter at 0 with threshold 10 and no run in progress, nine
    calls of [increment_counter] in a row all return [False], start no
    thread and leave [current_count] at 9; the tenth returns [True], starts
    exactly one thread (with trigger count 10) and leaves [current_count] at
    0.  No crossing triggers twice: a call starts at most one thread, a
    triggering call resets the count in the same call, and the call that
    follows a triggering call never triggers. *)
Theorem ten_increments_trigger_once (s : state) (d : counter_doc)
    (Hdoc : counters s = Some d)
    (Hzero : current_count d = 0)
    (Hthreshold : threshold d = 10)
    (Hidle : training_in_progress s = false) :
  let '(bs, s9) := increment_n 9 s in
  let '(b10, s10) := increment_counter s9 in
  (bs = replicate 9 false ∧ started s9 = started s ∧ get_current_count s9 = 9)
  ∧ (b10 = true ∧ started s10 = started s ++ [10] ∧ get_current_count s10 = 0)
  ∧ (∀ s0, let '(b, s1) := increment_counter s0 in
       (length (started s1) ≤ S (length (started s0)))%nat
       ∧ (b = true ↔ length (started s1) = S (length (started s0)))
       ∧ (b = true → get_current_count s1 = 0))
  ∧ (increment_counter s10).1 = false
  ∧ (∀ st, (increment_counter (finish_training st s10)).1 = false).
Proof.
  destruct s as [doc flag st], d as [c t n]. simpl in *. subst.
  cbn. split_and!; try done.
  - intros s0. pose proof (increment_counter_single s0) as H.
    destruct (increment_counter s0) as [b s1]. destruct H as [Ht Hf].
    destruct b.
    + destruct Ht as ([c Hc] & H0 & _); [done|].
      rewrite Hc, length_app. simpl. split_and!; [lia| |done].
      split; [lia|done].
    + destruct Hf as [Hs _]; [done|]. rewrite Hs. split_and!; [lia| |done].
      split; [done|lia].
  - intros []; done.
Qed.

(** The scenario on the counter that [__init__] creates. *)
Lemma ten_increments_trigger_once_witness :
  let d := {| current_count := 0; threshold := 10; total_retrainings := 0 |} in
  counters (init None) = Some d
  ∧ current_count d = 0 ∧ threshold d = 10
  ∧ training_in_progress (init None) = false
  ∧ (increment_n 9 (init None)).1 = replicate 9 false
  ∧ started (increment_counter (increment_n 9 (init None)).2).2 = [10].
Proof.
  split_and!; [reflexivity|reflexivity|reflexivity|reflexivity| |];
    pose proof (ten_increments_trigger_once (init None)
                  {| current_count := 0; threshold := 10; total_retrainings := 0 |}
                  eq_refl eq_refl eq_refl eq_refl) as H;
    destruct (increment_n 9 (init None)) as [bs s9]; simpl;
    destruct (increment_counter s9) as [b10 s10]; simpl;
    destruct H as ((Hbs & _) & (_ & Hst & _) & _); [exact Hbs | exact Hst].
Defined.

End CounterFacts.

(** ** The interaction counter under arbitrary interleavings *)

Module CounterRaceFacts.
Import Counter CounterRace.

(** *** Every call returns when it is scheduled often enough *)

Lemma step_call_remaining p s : (remaining (step_call p s).1 ≤ remaining p - 1)%nat.
Proof.
  destruct p as [|c|c|c|b]; simpl; try lia.
  - unfold find_one_and_update_inc. destruct (counters s) as [d|]; simpl; [|lia].
    destruct (threshold _ <=? _); simpl; lia.
  - unfold take_flag. destruct (training_in_progress s); simpl; lia.
Qed.

Lemma step_length r e : length (calls (step r e)) = length (calls r).
Proof.
  destruct e as [i|st]; simpl.
  - destruct (calls r !! i) as [p|]; [|done].
    destruct (step_call p (shared r)). simpl. by rewrite length_insert.
  - by destruct (_ <? _)%nat.
Qed.

Lemma run_length schedule : ∀ r, length (calls (run r schedule)) = length (calls r).
Proof.
  induction schedule as [|e schedule IH]; intros r; [done|].
  simpl. by rewrite IH, step_length.
Qed.

Lemma step_rem r e i :
  (rem (step r e) i ≤ rem r i - (if decide (e = Call i) then 1 else 0))%nat.
Proof.
  unfold rem. destruct e as [j|st]; simpl.
  - destruct (calls r !! j) as [p|] eqn:Hj.
    + pose proof (step_call_remaining p (shared r)) as Hrem.
      destruct (step_call p (shared r)) as [p' s']. simpl in *.
      destruct (decide (j = i)) as [->|Hne].
      * rewrite list_lookup_insert_eq by (by eapply lookup_lt_Some).
        rewrite Hj. rewrite decide_True by done. done.
      * rewrite list_lookup_insert_ne by done.
        rewrite decide_False by congruence. lia.
    + destruct (decide (Call j = Call i)) as [[= ->]|]; [rewrite Hj|]; lia.
  - destruct (_ <? _)%nat; simpl; lia.
Qed.

Lemma run_rem schedule : ∀ r i,
  (rem (run r schedule) i ≤ rem r i - scheduled i schedule)%nat.
Proof.
  unfold scheduled, run.
  induction schedule as [|e schedule IH]; intros r i; simpl; [lia|].
  specialize (IH (step r e) i). pose proof (step_rem r e i) as Hstep.
  rewrite filter_cons.
  destruct (decide (e = Call i)); simpl; lia.
Qed.

Lemma remaining_0 p : remaining p = 0%nat → is_returned p = true.
Proof. by destruct p. Qed.

(** A schedule that gives four steps to every call lets every call return. *)
Lemma enough_steps_all_returned n t schedule :
  (∀ i, (i < n)%nat → (4 ≤ scheduled i schedule)%nat) →
  all_returned (run (fresh n t) schedule) = true.
Proof.
  intros Hsched. unfold all_returned.
  apply Is_true_true, forallb_True, Forall_lookup.
  intros i p Hp. apply Is_true_true, remaining_0.
  pose proof (run_rem schedule (fresh n t) i) as Hrem.
  assert (i < n)%nat as Hi.
  { apply lookup_lt_Some in Hp. rewrite run_length in Hp.
    simpl in Hp. by rewrite length_replicate in Hp. }
  specialize (Hsched i Hi).
  unfold rem in Hrem. rewrite Hp in Hrem. simpl in Hrem.
  rewrite lookup_replicate_2 in Hrem by done. simpl in Hrem. lia.
Qed.

Lemma scheduled_flat_map i len : ∀ a,
  scheduled i (flat_map (λ j, replicate 4 (Call j)) (seq a len))
  = if decide (a ≤ i < a + len)%nat then 4%nat else 0%nat.
Proof.
  unfold scheduled.
  induction len as [|len IH]; intros a; simpl in *.
  - by rewrite decide_False by lia.
  - rewrite !filter_cons.
    destruct (decide (Call a = Call i)) as [[= ->]|Hne]; simpl; rewrite IH.
    + repeat case_decide; (done || lia).
    + assert (a ≠ i) by congruence.
      repeat case_decide; (done || lia).
Qed.

Lemma sequential_all_returned n t : all_returned (run (fresh n t) (sequential n)) = true.
Proof.
  apply enough_steps_all_returned. intros i Hi.
  unfold sequential. rewrite scheduled_flat_map. rewrite decide_True by lia. done.
Qed.

(** *** The invariant of the race *)

Lemma filter_full {A} (P : A → Prop) `{∀ x, Decision (P x)} (l : list A) :
  length (filter P l) = length l → Forall P l.
Proof.
  induction l as [|x l IH]; [constructor|].
  rewrite filter_cons. pose proof (length_filter P l).
  destruct (decide (P x)); simpl; intros Hlen; [|lia].
  constructor; [done|]. apply IH. lia.
Qed.

Lemma count_nonidle_split l1 p l2 :
  count_nonidle (l1 ++ p :: l2)
  = (count_nonidle l1 + (if decide (p ≠ Idle) then 1 else 0) + count_nonidle l2)%nat.
Proof.
  unfold count_nonidle. rewrite filter_app, filter_cons, length_app.
  destruct (decide (p ≠ Idle)); simpl; lia.
Qed.

Lemma count_nonidle_insert l i p :
  l !! i = Some Idle → p ≠ Idle →
  count_nonidle (<[i:=p]> l) = S (count_nonidle l).
Proof.
  intros Hi Hp.
  rewrite <- (take_drop_middle l i Idle Hi) at 2.
  rewrite insert_take_drop by (by eapply lookup_lt_Some).
  rewrite !count_nonidle_split.
  rewrite decide_True by done. rewrite decide_False by (intros ?; done). lia.
Qed.

Lemma others_returned l i :
  Forall (λ p, p = Idle ∨ p = Returned false) l →
  l !! i = Some Idle →
  S (count_nonidle l) = length l →
  ∀ j q, j ≠ i → l !! j = Some q → q = Returned false.
Proof.
  intros Hall Hi Hcount j q Hne Hj.
  assert (q ≠ Idle) as Hq.
  { pose proof (take_drop_middle l i Idle Hi) as Hsplit.
    pose proof (lookup_lt_Some _ _ _ Hi) as Hlt.
    rewrite <- Hsplit in Hcount, Hj.
    rewrite count_nonidle_split, length_app in Hcount. simpl in Hcount.
    pose proof (length_filter (λ p, p ≠ Idle) (take i l)) as H1.
    pose proof (length_filter (λ p, p ≠ Idle) (drop (S i) l)) as H2.
    unfold count_nonidle in Hcount.
    assert (Forall (λ p, p ≠ Idle) (take i l)) as F1
      by (apply (filter_full (λ p, p ≠ Idle)); lia).
    assert (Forall (λ p, p ≠ Idle) (drop (S i) l)) as F2
      by (apply (filter_full (λ p, p ≠ Idle)); lia).
    assert (length (take i l) = i) as Hlen by (rewrite length_take; lia).
    apply lookup_app_Some in Hj as [Hj|[Hge Hj]].
    - eapply Forall_lookup_1 in F1; [exact F1|exact Hj].
    - rewrite Hlen in Hge, Hj.
      destruct (j - i)%nat as [|m] eqn:Hm; [lia|]. simpl in Hj.
      eapply Forall_lookup_1 in F2; [exact F2|exact Hj]. }
  eapply Forall_lookup_1 in Hall; [|exact Hj]. by destruct Hall.
Qed.

Lemma inv_fresh n : (1 ≤ n)%nat → inv n (fresh n (Z.of_nat n)).
Proof.
  intros Hn. split_and!; simpl.
  - by rewrite length_replicate.
  - eauto.
  - left. assert (count_nonidle (replicate n Idle) = 0%nat) as H0.
    { unfold count_nonidle. clear Hn. induction n as [|n IH]; [done|].
      simpl. rewrite filter_cons. by rewrite decide_False by (intros ?; done). }
    split; simpl; rewrite ?H0; try done; try lia.
    apply Forall_replicate. by left.
Qed.

Lemma inv_step_call n r i : inv n r → inv n (step r (Call i)).
Proof.
  intros (Hlen & (d & Hd & Ht) & Hphase). simpl.
  destruct (calls r !! i) as [p|] eqn:Hi; [|by split_and!; eauto].
  destruct Hphase as [[Hcalls Hcount Hbelow Hflag Hst]|(w & pw & Hw & Hothers & Hwin)].
  - (* no call has seen the threshold yet *)
    pose proof (Forall_lookup_1 _ _ _ _ Hcalls Hi) as [->| ->]; simpl.
    + unfold find_one_and_update_inc. rewrite Hd. simpl.
      unfold get_current_count in Hcount. rewrite Hd in Hcount.
      rewrite Ht, Hcount.
      destruct (Z.leb_spec (Z.of_nat n) (Z.of_nat (count_nonidle (calls r)) + 1)) as [Hle|Hgt].
      * (* this call reads the threshold *)
        split_and!; simpl; [by rewrite length_insert|eauto|].
        right. exists i, (AtLock (Z.of_nat (count_nonidle (calls r)) + 1)).
        split_and!; simpl.
        -- apply list_lookup_insert_eq. by eapply lookup_lt_Some.
        -- intros j q Hne. rewrite list_lookup_insert_ne by done.
           apply (others_returned (calls r) i); [done|done|lia|done].
        -- split_and!; [lia|done|done].
      * split_and!; simpl; [by rewrite length_insert|eauto|].
        left. split; simpl; try done.
        -- apply Forall_insert; [done|by right].
        -- rewrite count_nonidle_insert by done. unfold get_current_count. simpl. lia.
        -- rewrite count_nonidle_insert by done. lia.
    + rewrite list_insert_id by done.
      split_and!; [done|eauto|]. left. destruct r; simpl in *. by split.
  - (* the winner is on its way *)
    destruct (decide (i = w)) as [->|Hne].
    + rewrite Hw in Hi. injection Hi as <-.
      assert (∀ p' s', (∃ d', counters s' = Some d' ∧ threshold d' = Z.of_nat n) →
                winner_state (Z.of_nat n) p'
                  {| shared := s'; calls := <[w:=p']> (calls r); finished := finished r |} →
                inv n {| shared := s'; calls := <[w:=p']> (calls r); finished := finished r |})
        as Hgo.
      { intros p' s' Hd' Hwin'. split_and!; simpl; [by rewrite length_insert|done|].
        right. exists w, p'. split_and!; simpl; [|
          intros j q Hne; rewrite list_lookup_insert_ne by done; by apply Hothers |done].
        apply list_lookup_insert_eq. by eapply lookup_lt_Some. }
      destruct pw as [|c|c|c|[]]; simpl in Hwin; try done.
      * destruct Hwin as (-> & Hflag & Hst). simpl. unfold take_flag. rewrite Hflag.
        apply Hgo; simpl; eauto.
      * destruct Hwin as (-> & Hst). simpl.
        apply Hgo; simpl; [|done]. rewrite Hd. simpl. eauto.
      * destruct Hwin as (-> & Hst). simpl.
        apply Hgo; simpl; [eauto|]. by rewrite Hst.
      * simpl. apply Hgo; simpl; eauto.
    + pose proof (Hothers i p Hne Hi) as ->. simpl.
      rewrite list_insert_id by done.
      split_and!; [done|eauto|]. right. exists w, pw.
      split_and!; [done|done|]. by destruct pw as [| | | |[]].
Qed.

Lemma inv_step_thread n r st : inv n r → inv n (step r (ThreadEnds st)).
Proof.
  intros (Hlen & (d & Hd & Ht) & Hphase). simpl.
  destruct (finished r <? length (started (shared r)))%nat eqn:Hen;
    [|by split_and!; eauto].
  apply Nat.ltb_lt in Hen.
  split_and!; simpl; [done| |].
  - rewrite Hd. destruct st; simpl; eauto.
  - destruct Hphase as [[Hcalls Hcount Hbelow Hflag Hst]|(w & pw & Hw & Hothers & Hwin)].
    + rewrite Hst in Hen. simpl in Hen. lia.
    + right. exists w, pw. split_and!; [done|done|].
      destruct pw as [|c|c|c|[]]; simpl in *; try done;
        try (first [destruct Hwin as (_ & _ & Hst) | destruct Hwin as (_ & Hst)];
             rewrite Hst in Hen; simpl in Hen; lia).
Qed.

Lemma inv_run n schedule : ∀ r, inv n r → inv n (run r schedule).
Proof.
  induction schedule as [|e schedule IH]; intros r Hinv; [done|].
  simpl. apply IH. destruct e; [by apply inv_step_call | by apply inv_step_thread].
Qed.

(** With a single call out of line, the calls that returned [True] are
    counted on that call. *)
Lemma triggered_single l w p :
  l !! w = Some p →
  (∀ j q, j ≠ w → l !! j = Some q → q = Returned false) →
  length (filter (λ q, q = Returned true) l) = if decide (p = Returned true) then 1%nat else 0%nat.
Proof.
  intros Hw Hothers.
  assert (∀ l', (∀ q, q ∈ l' → q = Returned false) →
            filter (λ q, q = Returned true) l' = []) as Hnone.
  { induction l' as [|x l' IH]; intros Hl'; [done|].
    rewrite filter_cons. rewrite decide_False.
    - apply IH. intros q Hq. apply Hl'. by right.
    - rewrite (Hl' x) by by left. done. }
  pose proof (lookup_lt_Some _ _ _ Hw) as Hlt.
  assert (length (take w l) = w) as Hlen by (rewrite length_take; lia).
  rewrite <- (take_drop_middle l w p Hw) in Hothers |- *.
  rewrite filter_app, filter_cons, !Hnone.
  - destruct (decide (p = Returned true)); done.
  - intros q [m Hm]%list_elem_of_lookup.
    apply (Hothers (w + S m)%nat); [lia|].
    rewrite lookup_app_r by lia. rewrite Hlen.
    replace (w + S m - w)%nat with (S m) by lia. done.
  - intros q [m Hm]%list_elem_of_lookup.
    pose proof (lookup_lt_Some _ _ _ Hm) as Hm'. rewrite Hlen in Hm'.
    apply (Hothers m); [lia|]. by rewrite lookup_app_l by lia.
Qed.

Lemma inv_outcome n r :
  inv n r →
  (length (started (shared r)) ≤ 1)%nat
  ∧ (triggered r ≤ 1)%nat
  ∧ (all_returned r = true →
     started (shared r) = [Z.of_nat n] ∧ triggered r = 1%nat).
Proof.
  intros (Hlen & _ & [[Hcalls Hcount Hbelow Hflag Hst]|(w & pw & Hw & Hothers & Hwin)]).
  - rewrite Hst. unfold triggered.
    assert (filter (λ p, p = Returned true) (calls r) = []) as ->.
    { clear -Hcalls. induction Hcalls as [|p l Hp _ IH]; [done|].
      rewrite filter_cons, IH. rewrite decide_False; [done|]. by destruct Hp as [->| ->]. }
    simpl. split_and!; [lia|lia|].
    intros Hall. exfalso.
    apply Is_true_true, forallb_True in Hall.
    assert (Forall (λ p, p ≠ Idle) (calls r)) as Hni.
    { eapply Forall_impl; [exact Hall|]. intros [] ?; done. }
    unfold count_nonidle in Hbelow.
    assert (filter (λ p, p ≠ Idle) (calls r) = calls r) as Heq.
    { clear -Hni. induction Hni as [|p l Hp _ IH]; [done|].
      rewrite filter_cons, IH. by rewrite decide_True. }
    rewrite Heq in Hbelow. lia.
  - unfold triggered. rewrite (triggered_single _ w pw Hw Hothers).
    split_and!.
    + destruct pw as [|c|c|c|[]]; simpl in Hwin; try done;
        first [ destruct Hwin as (_ & _ & ->) | destruct Hwin as (_ & ->) | rewrite Hwin ];
        simpl; lia.
    + case_decide; lia.
    + intros Hall. apply Is_true_true, forallb_True in Hall.
      pose proof (Forall_lookup_1 _ _ _ _ Hall Hw) as Hret.
      destruct pw as [| | | |[]]; simpl in *; try done.
Qed.

(** C5: [n] calls of [increment_counter], interleaved in any order at their
    accesses to shared state, on a counter at 0 whose threshold is [n] and
    with no run in progress: at no point of any schedule has more than one
    thread been started or more than one call returned [True]; once all
    calls have returned, exactly one thread has been started (with trigger
    count [n]) and exactly one call has returned [True]; and every schedule
    that gives each call its four steps, such as the sequential one, makes
    all calls return. *)
Theorem concurrent_increments_trigger_once (n : nat) (Hn : (1 ≤ n)%nat) :
  (∀ schedule,
     let r := run (fresh n (Z.of_nat n)) schedule in
     (length (started (shared r)) ≤ 1)%nat
     ∧ (triggered r ≤ 1)%nat
     ∧ (all_returned r = true →
        started (shared r) = [Z.of_nat n] ∧ triggered r = 1%nat))
  ∧ (∀ schedule,
       (∀ i, (i < n)%nat → (4 ≤ scheduled i schedule)%nat) →
       all_returned (run (fresh n (Z.of_nat n)) schedule) = true)
  ∧ all_returned (run (fresh n (Z.of_nat n)) (sequential n)) = true.
Proof.
  split_and!.
  - intros schedule. apply inv_outcome, inv_run, inv_fresh, Hn.
  - intros schedule. apply enough_steps_all_returned.
  - apply sequential_all_returned.
Qed.

(** Three calls against threshold 3, the second call overtaking the first
    and the background run ending before the last call returns. *)
Lemma concurrent_increments_trigger_once_witness :
  (1 ≤ 3)%nat
  ∧ let r := run (fresh 3 3) Scenarios.overtaking in
    all_returned r = true ∧ started (shared r) = [3] ∧ triggered r = 1%nat.
Proof.
  split; [lia|].
  pose proof (concurrent_increments_trigger_once 3 (le_S _ _ (le_S _ _ (le_n 1))))
    as (H & _ & _).
  specialize (H Scenarios.overtaking). cbv zeta in *.
  destruct H as (_ & _ & H).
  assert (all_returned (run (fresh 3 3) Scenarios.overtaking) = true) as Hall
    by reflexivity.
  split; [exact Hall|]. exact (H Hall).
Defined.

End CounterRaceFacts.

(** ** Likes and dislikes *)

Module InteractionsFacts.
Import Bson Catalog Interactions.

(** [_update_user_language] writes the user's profile and nothing else. *)
Lemma update_user_language_only books uid_str name w :
  let w' := _update_user_language books uid_str name w in
  interactions w' = interactions w
  ∧ liked_genres w' = liked_genres w
  ∧ disliked_genres w' = disliked_genres w
  ∧ author_prefs w' = author_prefs w
  ∧ counter w' = counter w
  ∧ redis w' = redis w.
Proof.
  unfold _update_user_language, add_user_language.
  destruct (get_book_language books name) as [lang|]; [|done].
  destruct (PyStr.truthy lang); [|done].
  destruct (ObjectId uid_str) as [uid|]; [|done].
  destruct (user_languages w !! uid); done.
Qed.

Lemma update_user_language_only_fields books uid_str name w :
  interactions (_update_user_language books uid_str name w) = interactions w
  ∧ author_prefs (_update_user_language books uid_str name w) = author_prefs w.
Proof.
  pose proof (update_user_language_only books uid_str name w) as (Hi & _ & _ & Ha & _).
  done.
Qed.

(** C10: when the stored interaction of the user with the book is already
    "like", [like_book] returns [True] and leaves the interaction
    records, both genre preference collections, the author preference lists
    and the interaction counter as they were; the same holds for
    [dislike_book] on a stored "dislike". *)
Theorem same_action_twice_is_noop (books : list book) (now : Z) (w : world)
    (uid_str : string) (uid : oid) (name author_name : string)
    (genres : genres_arg) (existing : interaction) (act : string)
    (Huser : ObjectId uid_str = Some uid)
    (Hexisting : find_interaction uid name (interactions w) = Some existing)
    (Haction : action existing = act) :
  let unchanged (r : bool * world) :=
    r.1 = true
    ∧ interactions r.2 = interactions w
    ∧ liked_genres r.2 = liked_genres w
    ∧ disliked_genres r.2 = disliked_genres w
    ∧ author_prefs r.2 = author_prefs w
    ∧ counter r.2 = counter w in
  (act = "like" → unchanged (like_book books now w uid_str name author_name genres))
  ∧ (act = "dislike" → unchanged (dislike_book books now w uid_str name author_name genres)).
Proof.
  pose proof (update_user_language_only books uid_str name w) as (Hi & Hl & Hd & Ha & Hc & _).
  split; intros ->.
  - unfold like_book. rewrite Huser, Hexisting, Haction. simpl. by split_and!.
  - unfold dislike_book. rewrite Huser, Hexisting, Haction. simpl. by split_and!.
Qed.

End InteractionsFacts.

(** ** A like overwritten by a dislike, on the author list *)

Module AffinityFacts.
Import Bson AuthorPrefs.

Lemma eqb_true s t : PyStr.eqb s t = true ↔ s = t.
Proof. unfold PyStr.eqb. by rewrite bool_decide_eq_true. Qed.

Lemma eqb_false s t : PyStr.eqb s t = false ↔ s ≠ t.
Proof. unfold PyStr.eqb. by rewrite bool_decide_eq_false. Qed.

Lemma eqb_refl s : PyStr.eqb s s = true.
Proof. by apply eqb_true. Qed.

(** The loop passes over entries of other authors. *)
Lemma scan_skip a b weight l1 : ∀ seen rest,
  a ∉ names l1 →
  scan a b weight seen (l1 ++ rest) = scan a b weight (seen ++ l1) rest.
Proof.
  induction l1 as [|x l1 IH]; intros seen rest Hn; simpl.
  - by rewrite app_nil_r.
  - apply not_elem_of_cons in Hn as [Hx Hn].
    replace (PyStr.eqb (author_name x) a) with false
      by (symmetry; apply eqb_false; congruence).
    rewrite IH by done. by rewrite <- app_assoc.
Qed.

Lemma scan_absent a b weight l :
  a ∉ names l → scan a b weight [] l = (false, l).
Proof.
  intros Hn. rewrite <- (app_nil_r l) at 1. by rewrite scan_skip.
Qed.

Lemma ins_head y l :
  Forall (λ z, preference_count z ≤ preference_count y) l → ins y l = y :: l.
Proof.
  destruct l as [|z l]; [done|]. intros [Hz _]%Forall_cons. simpl.
  destruct (Z.ltb_spec (preference_count y) (preference_count z)); [lia|done].
Qed.

(** Inserting next to an entry [x], and inserting with [x] taken out. *)
Lemma ins_around y x l2 : ∀ l1,
  StronglySorted (desc preference_count) (l1 ++ x :: l2) →
  ∃ l1' l2', ins y (l1 ++ x :: l2) = l1' ++ x :: l2' ∧ ins y (l1 ++ l2) = l1' ++ l2'.
Proof.
  induction l1 as [|z l1 IH]; simpl; intros Hs.
  - destruct (Z.ltb_spec (preference_count y) (preference_count x)) as [Hlt|Hge].
    + by exists [], (ins y l2).
    + exists [y], l2. split; [done|]. simpl. apply ins_head.
      apply StronglySorted_cons in Hs as [Hx _].
      eapply Forall_impl; [exact Hx|]. unfold desc. intros; lia.
  - destruct (Z.ltb_spec (preference_count y) (preference_count z)) as [Hlt|Hge].
    + apply StronglySorted_cons in Hs as [_ Hs].
      destruct (IH Hs) as (l1' & l2' & -> & ->). by exists (z :: l1'), l2'.
    + by exists (y :: z :: l1), l2.
Qed.

(** Sorting a list with one more entry, and sorting the list itself. *)
Lemma sort_around x l :
  ∃ l1 l2, sort_desc preference_count (l ++ [x]) = l1 ++ x :: l2
           ∧ sort_desc preference_count l = l1 ++ l2.
Proof.
  unfold sort_desc, sort_by_desc. rewrite foldr_app. simpl.
  induction l as [|y l (l1 & l2 & H1 & H2)]; simpl.
  - by exists [], [].
  - rewrite H1, H2. apply ins_around. rewrite <- H1.
    change (foldr ins [x] l) with (foldr ins (foldr ins [] [x]) l).
    rewrite <- foldr_app. apply (sort_desc_sorted preference_count).
Qed.

Lemma untouch_others a action b l :
  a ∉ names l →
  map (λ e, if PyStr.eqb (author_name e) a then untouch action b e else e) l = l.
Proof.
  induction l as [|x l IH]; [done|]. intros [Hx Hn]%not_elem_of_cons. simpl.
  rewrite IH by done.
  by replace (PyStr.eqb (author_name x) a) with false
    by (symmetry; apply eqb_false; congruence).
Qed.

Lemma existsb_here a l1 x l2 :
  author_name x = a →
  existsb (λ e, PyStr.eqb (author_name e) a) (l1 ++ x :: l2) = true.
Proof.
  intros <-. rewrite existsb_app. simpl. rewrite eqb_refl. by rewrite orb_true_r.
Qed.

Lemma pull_single b : pull b [b] = [].
Proof. unfold pull. rewrite filter_cons. by rewrite decide_False by (intros ?; done). Qed.

Lemma not_in_app a l1 l2 :
  (a ∉ names (l1 ++ l2)) ↔ (a ∉ names l1) ∧ (a ∉ names l2).
Proof. unfold names. rewrite fmap_app. apply not_elem_of_app. Qed.

(** On the list of one user: a like for an author who has no entry, then
    the removal of that like and a dislike for the same author. *)
Lemma list_like_then_dislike a b l :
  a ∉ names l →
  ∃ l1 l2,
    updated_authors a b 1 l = l1 ++ new_author a b 1 :: l2
    ∧ (a ∉ names l1) ∧ (a ∉ names l2)
    ∧ sort_desc preference_count l = l1 ++ l2
    ∧ updated_authors a b (-1)
        (map (λ e, if PyStr.eqb (author_name e) a then untouch "like" b e else e)
             (l1 ++ new_author a b 1 :: l2))
      = l1 ++ l2.
Proof.
  intros Hn.
  destruct (sort_around (new_author a b 1) l) as (l1 & l2 & H1 & H2).
  assert ((a ∉ names l1) ∧ (a ∉ names l2)) as [Hn1 Hn2].
  { apply not_in_app. rewrite <- H2. unfold names.
    by rewrite (sort_desc_perm preference_count l). }
  exists l1, l2. split_and!; try done.
  - unfold updated_authors. rewrite scan_absent by done. simpl. exact H1.
  - rewrite map_app. simpl. rewrite eqb_refl, !untouch_others by done.
    unfold updated_authors. rewrite scan_skip by done. simpl.
    by rewrite eqb_refl.
Qed.

Lemma weights_like : weights "like" = 1.
Proof. reflexivity. Qed.

Lemma weights_dislike : weights "dislike" = -1.
Proof. reflexivity. Qed.

Lemma user_authors_insert (db : collection) uid doc :
  user_authors (<[uid := doc]> db) uid = sorted_authors doc.
Proof. unfold user_authors. by rewrite lookup_insert_eq. Qed.

(** The same on the collection, through the three calls that a like
    followed by an overwriting dislike makes for one author name. *)
Lemma store_like_then_dislike (db : collection) u uid a b :
  ObjectId u = Some uid →
  PyStr.truthy a = true → PyStr.strip a = a →
  a ∉ names (user_authors db uid) →
  let db1 := (update_author_preference db u a "like" b).2 in
  let db2 := (remove_author_preference db1 u a "like" b).2 in
  let db3 := (update_author_preference db2 u a "dislike" b).2 in
  (∃ l1 l2, user_authors db1 uid = l1 ++ new_author a b 1 :: l2
            ∧ (a ∉ names l1)
            ∧ sort_desc preference_count (user_authors db uid) = l1 ++ l2)
  ∧ user_authors db3 uid = sort_desc preference_count (user_authors db uid).
Proof.
  intros Hu Ht Hs Hn.
  destruct (list_like_then_dislike a b (user_authors db uid) Hn)
    as (l1 & l2 & H1 & Hn1 & Hn2 & H2 & H3).
  assert (user_authors (update_author_preference db u a "like" b).2 uid
          = l1 ++ new_author a b 1 :: l2) as Hdb1.
  { unfold update_author_preference. rewrite Ht, Hs, Ht, Hu, weights_like. simpl.
    unfold user_authors in H1 |- *.
    destruct (db !! uid) as [doc|] eqn:Hdoc; simpl; rewrite lookup_insert_eq; simpl.
    - exact H1.
    - exact H1. }
  cbv zeta. split; [by exists l1, l2|].
  rewrite H2.
  set (db1 := (update_author_preference db u a "like" b).2) in *.
  assert (∃ doc1, db1 !! uid = Some doc1 ∧ sorted_authors doc1 = l1 ++ new_author a b 1 :: l2)
    as (doc1 & Hdoc1 & Hl1).
  { unfold user_authors in Hdb1. destruct (db1 !! uid) as [doc1|]; [by eexists|].
    by destruct l1. }
  unfold remove_author_preference. rewrite Hu, Hdoc1. simpl.
  unfold update_author_preference. rewrite Ht, Hs, Ht, Hu, weights_dislike. simpl.
  rewrite lookup_insert_eq. simpl. rewrite user_authors_insert. simpl.
  rewrite Hl1. exact H3.
Qed.

Lemma get_most_preferred_author_head (db : collection) u uid :
  ObjectId u = Some uid →
  get_most_preferred_author db u = head (user_authors db uid).
Proof.
  intros Hu. unfold get_most_preferred_author, user_authors. rewrite Hu.
  by destruct (db !! uid).
Qed.

Lemma find_absent a (l : list author) :
  a ∉ names l → list_find (λ e, author_name e = a) l = None.
Proof.
  intros Hn. apply list_find_None, Forall_forall. intros e He <-.
  apply Hn. unfold names. by apply list_elem_of_fmap_2.
Qed.

Lemma find_here a l1 x l2 :
  a ∉ names l1 → author_name x = a →
  list_find (λ e, author_name e = a) (l1 ++ x :: l2) = Some (length l1, x).
Proof.
  intros Hn Hx. apply list_find_Some. split_and!.
  - by rewrite list_lookup_middle.
  - done.
  - intros j y Hj Hlt. rewrite lookup_app_l in Hj by done.
    intros Hy. apply Hn. rewrite <- Hy. unfold names.
    apply list_elem_of_fmap_2. by eapply list_elem_of_lookup_2.
Qed.

End AffinityFacts.

(** ** A like overwritten by a dislike, through the interaction layer *)

Module LikeDislikeFacts.
Import Bson Catalog Interactions InteractionsFacts AffinityFacts.

Lemma after_store_fields uid_str a act name w :
  author_prefs (after_store uid_str a act name w)
  = (AuthorPrefs.update_author_preference (author_prefs w) uid_str a act name).2
  ∧ interactions (after_store uid_str a act name w) = interactions w.
Proof.
  unfold after_store, _update_author_affinity. simpl.
  by destruct (bool_decide _).
Qed.

Lemma find_interaction_new uid name l r :
  find_interaction uid name l = None →
  matches uid name r = true →
  find_interaction uid name (l ++ [r]) = Some r.
Proof.
  unfold find_interaction. intros Hnone Hr.
  induction l as [|i l IH]; simpl in *.
  - rewrite decide_True by by rewrite Hr. done.
  - destruct (decide (Is_true (matches uid name i))); [done|].
    destruct (list_find _ l) as [[? ?]|] eqn:Hl; simpl in *; [done|].
    specialize (IH eq_refl).
    by destruct (list_find _ (l ++ [r])) as [[? ?]|].
Qed.

(** A first like of a book. *)
Lemma like_book_new books now w uid_str uid name a genres :
  ObjectId uid_str = Some uid →
  find_interaction uid name (interactions w) = None →
  let r := like_book books now w uid_str name a genres in
  r.1 = true
  ∧ author_prefs r.2
    = (AuthorPrefs.update_author_preference (author_prefs w) uid_str a "like" name).2
  ∧ ∃ i, find_interaction uid name (interactions r.2) = Some i ∧ action i = "like".
Proof.
  intros Hu Hnone.
  pose proof (update_user_language_only_fields books uid_str name w) as (Hi & Ha).
  unfold like_book. rewrite Hu, Hnone. cbv zeta. cbn [fst snd].
  match goal with |- context [after_store ?u ?x ?act ?n ?w'] =>
    destruct (after_store_fields u x act n w') as (Hap & Hint) end.
  split_and!; [done| |].
  - rewrite Hap. simpl. by rewrite Ha.
  - rewrite Hint. simpl. rewrite Hi. eexists.
    split; [apply find_interaction_new; [done|] | reflexivity].
    unfold matches. simpl. by rewrite !bool_decide_eq_true_2.
Qed.

(** A dislike that overwrites a like. *)
Lemma dislike_book_overwrite books now w uid_str uid name a a0 genres i :
  ObjectId uid_str = Some uid →
  find_interaction uid name (interactions w) = Some i →
  action i = "like" →
  PyStr.first_char a = Some a0 →
  let r := dislike_book books now w uid_str name a genres in
  r.1 = true
  ∧ author_prefs r.2
    = (AuthorPrefs.update_author_preference
         (AuthorPrefs.remove_author_preference (author_prefs w) uid_str a "like" name).2
         uid_str a0 "dislike" name).2.
Proof.
  intros Hu Hfind Hact Hfirst.
  pose proof (update_user_language_only_fields books uid_str name w) as (Hi & Ha).
  unfold dislike_book. rewrite Hu, Hfind, Hact, Hfirst. cbv zeta.
  change (PyStr.eqb "like" "dislike") with false.
  change (PyStr.eqb "like" "like") with true. cbn [fst snd].
  split; [done|].
  match goal with |- author_prefs (after_store ?u ?x ?act ?n ?w') = _ =>
    destruct (after_store_fields u x act n w') as (-> & _) end.
  simpl. by rewrite Ha.
Qed.

Lemma strip_single c :
  PyStr.is_space c = false → PyStr.strip (String c "") = String c "".
Proof.
  intros Hc. unfold PyStr.strip, PyStr.rstrip. simpl. rewrite Hc. simpl. by rewrite Hc.
Qed.

(** C8, as amended: a user likes a book of an author for whom the user has
    no preference entry, then dislikes the same book, the author name being
    one character as in the scenario's "X".  Both calls succeed; the
    author's net count is 0 before, 1 after the like and back at its
    pre-like value 0 after the dislike, with the entry removed.  For a user
    whose author list was empty, [get_top] returns author X with count 1
    after the like and [None] after the dislike. *)
Theorem like_then_dislike_new_author (books : list book) (now1 now2 : Z) (w : world)
    (uid_str : string) (uid : oid) (book : string) (c : ascii) (g1 g2 : genres_arg)
    (Huser : ObjectId uid_str = Some uid)
    (Hchar : PyStr.is_space c = false)
    (Hbook : find_interaction uid book (interactions w) = None)
    (Hnew : String c "" ∉ AuthorPrefs.names (AuthorPrefs.user_authors (author_prefs w) uid)) :
  let a := String c "" in
  let r1 := like_book books now1 w uid_str book a g1 in
  let r2 := dislike_book books now2 r1.2 uid_str book a g2 in
  r1.1 = true ∧ r2.1 = true
  ∧ net_count w uid a = 0
  ∧ net_count r1.2 uid a = 1
  ∧ net_count r2.2 uid a = net_count w uid a
  ∧ (a ∉ AuthorPrefs.names (AuthorPrefs.user_authors (author_prefs r2.2) uid))
  ∧ (AuthorPrefs.user_authors (author_prefs w) uid = [] →
     get_top r1.2 uid_str
     = Some {| AuthorPrefs.author_name := a; AuthorPrefs.preference_count := 1;
               AuthorPrefs.books_liked := [book]; AuthorPrefs.books_disliked := [];
               AuthorPrefs.total_interactions := 1 |}
     ∧ get_top r2.2 uid_str = None).
Proof.
  intros a r1 r2.
  destruct (like_book_new books now1 w uid_str uid book a g1 Huser Hbook)
    as (Hok1 & Hap1 & i & Hfind & Hact).
  fold r1 in Hok1, Hap1, Hfind.
  destruct (dislike_book_overwrite books now2 r1.2 uid_str uid book a a g2 i
              Huser Hfind Hact eq_refl) as (Hok2 & Hap2).
  fold r2 in Hok2, Hap2. rewrite Hap1 in Hap2.
  destruct (store_like_then_dislike (author_prefs w) uid_str uid a book Huser eq_refl
              (strip_single c Hchar) Hnew) as ((l1 & l2 & Hl & Hn1 & Hsort) & Hback).
  cbv zeta in Hback. rewrite <- Hap1 in Hl. rewrite <- Hap2 in Hback.
  assert (a ∉ AuthorPrefs.names (AuthorPrefs.user_authors (author_prefs r2.2) uid)) as Hgone.
  { rewrite Hback. unfold AuthorPrefs.names.
    by rewrite (sort_desc_perm AuthorPrefs.preference_count). }
  assert (net_count w uid a = 0) as H0.
  { unfold net_count. by rewrite find_absent. }
  split_and!; try done.
  - unfold net_count. rewrite Hl. by rewrite find_here.
  - rewrite H0. unfold net_count. by rewrite find_absent.
  - intros Hempty. unfold get_top.
    rewrite !(get_most_preferred_author_head _ uid_str uid) by done.
    rewrite Hback, Hl, Hempty. rewrite Hempty in Hsort.
    symmetry in Hsort. apply app_eq_nil in Hsort as [-> ->]. done.
Qed.

(** Scenario 2 itself. *)
Lemma like_then_dislike_new_author_witness :
  ObjectId Scenarios.alice = Some Scenarios.alice
  ∧ PyStr.is_space "X"%char = false
  ∧ find_interaction Scenarios.alice "A"
      (interactions (empty_world Scenarios.alice)) = None
  ∧ ("X" ∉ AuthorPrefs.names (AuthorPrefs.user_authors
                    (author_prefs (empty_world Scenarios.alice)) Scenarios.alice))
  ∧ get_top Scenarios.liked_a Scenarios.alice
    = Some {| AuthorPrefs.author_name := "X"; AuthorPrefs.preference_count := 1;
              AuthorPrefs.books_liked := ["A"]; AuthorPrefs.books_disliked := [];
              AuthorPrefs.total_interactions := 1 |}
  ∧ get_top Scenarios.disliked_a Scenarios.alice = None.
Proof.
  assert ("X" ∉ AuthorPrefs.names (AuthorPrefs.user_authors
                         (author_prefs (empty_world Scenarios.alice)) Scenarios.alice))
    as Hnew by (vm_compute; apply not_elem_of_nil).
  split_and!; [reflexivity|reflexivity|reflexivity|exact Hnew| |];
    apply (like_then_dislike_new_author Scenarios.shelf 1 2
             (empty_world Scenarios.alice) Scenarios.alice Scenarios.alice "A" "X"%char
             Scenarios.fantasy Scenarios.fantasy eq_refl eq_refl eq_refl Hnew);
    reflexivity.
Defined.

(** C8, against the claim as stated: with an earlier like of another book of
    the same author, the author's count is 1 before the like of A, 2 after
    it and 0 after the dislike of A, not the pre-like value 1; the entry is
    gone although the earlier like still stands. *)
Lemma like_then_dislike_count_not_restored :
  net_count Scenarios.liked_b Scenarios.alice "X" = 1
  ∧ net_count Scenarios.liked_b_a Scenarios.alice "X" = 2
  ∧ net_count Scenarios.liked_b_disliked_a Scenarios.alice "X" = 0
  ∧ net_count Scenarios.liked_b_disliked_a Scenarios.alice "X"
    ≠ net_count Scenarios.liked_b Scenarios.alice "X"
  ∧ get_top Scenarios.liked_b_disliked_a Scenarios.alice = None
  ∧ get_user_interaction Scenarios.liked_b_disliked_a Scenarios.alice "B" = Some "like".
Proof. by vm_compute. Qed.

(** A like of book A is stored; liking A again changes nothing. *)
Lemma same_action_twice_is_noop_witness :
  let i := {| user_id := Scenarios.alice; book_name := "A"; book_author := "X";
              action := "like"; timestamp := 1; book_genres := ["Fantasy"] |} in
  ObjectId Scenarios.alice = Some Scenarios.alice
  ∧ find_interaction Scenarios.alice "A" (interactions Scenarios.liked_a) = Some i
  ∧ action i = "like"
  ∧ (like_book Scenarios.shelf 2 Scenarios.liked_a Scenarios.alice "A" "X"
       Scenarios.fantasy).1 = true
  ∧ counter (like_book Scenarios.shelf 2 Scenarios.liked_a Scenarios.alice "A" "X"
               Scenarios.fantasy).2 = counter Scenarios.liked_a.
Proof.
  intros i.
  assert (find_interaction Scenarios.alice "A" (interactions Scenarios.liked_a) = Some i)
    as Hfind by reflexivity.
  pose proof (same_action_twice_is_noop Scenarios.shelf 2 Scenarios.liked_a
                Scenarios.alice Scenarios.alice "A" "X" Scenarios.fantasy i "like"
                eq_refl Hfind eq_refl) as [H _].
  destruct (H eq_refl) as (Hok & _ & _ & _ & _ & Hc).
  split_and!; [reflexivity|exact Hfind|reflexivity|exact Hok|exact Hc].
Defined.

End LikeDislikeFacts.

(** ** The cascade recommender *)

Module CascadeFacts.
Import Bson Catalog Cascade.

(** *** The loops and the specification's wording agree *)

Lemma add_all_app langs recs c1 c2 :
  add_all langs recs (c1 ++ c2) = add_all langs (add_all langs recs c1) c2.
Proof. unfold add_all. apply foldl_app. Qed.

Lemma add_all_prefix langs cands : ∀ recs, ∃ more, add_all langs recs cands = recs ++ more.
Proof.
  induction cands as [|c cands IH]; intros recs; simpl.
  - exists []. by rewrite app_nil_r.
  - destruct (IH (add_one langs recs c)) as [more Hmore].
    unfold add_all in *. rewrite Hmore. unfold add_one.
    destruct (already_added c.1 recs); [by eexists|].
    destruct (_meets_language_requirement c.2 langs); [|by eexists].
    rewrite <- app_assoc. by eexists.
Qed.

Lemma take_prefix_full {A} (l more : list A) n : length l = n → take n (l ++ more) = l.
Proof. intros <-. by rewrite take_app_length. Qed.

Lemma len_ge_nat {A} (l : list A) (n : nat) :
  len_ge l (Z.of_nat n) = bool_decide (n ≤ length l)%nat.
Proof.
  unfold len_ge. destruct (Z.leb_spec (Z.of_nat n) (Z.of_nat (length l)));
    [rewrite bool_decide_eq_true_2 | rewrite bool_decide_eq_false_2]; (done || lia).
Qed.

(** The inner loop is the unbounded loop cut at [n]. *)
Lemma add_books_take (n : nat) langs liked : ∀ recs,
  (length recs ≤ n)%nat →
  add_books (Z.of_nat n) langs recs liked = take n (add_all langs recs liked).
Proof.
  induction liked as [|[name info] liked IH]; intros recs Hlen; simpl.
  - by rewrite take_ge.
  - rewrite len_ge_nat. case_bool_decide as Hfull.
    + destruct (add_all_prefix langs liked (add_one langs recs (name, info))) as [more Hmore].
      unfold add_all in *. rewrite Hmore.
      assert (∃ more', add_one langs recs (name, info) = recs ++ more') as [more' ->].
      { unfold add_one. simpl. destruct (already_added name recs); [exists []; by rewrite app_nil_r|].
        destruct (_meets_language_requirement info langs); [by eexists|].
        exists []. by rewrite app_nil_r. }
      rewrite <- app_assoc. symmetry. apply take_prefix_full. lia.
    + unfold add_all, add_one in *. simpl.
      destruct (already_added name recs); [by apply IH|].
      destruct (_meets_language_requirement info langs); simpl; [|by apply IH].
      apply IH. rewrite length_app. simpl. lia.
Qed.

Lemma liked_books_some w interacted u l :
  liked_books w interacted u = Some l → l = liked_sorted w interacted u.
Proof.
  unfold liked_books, by_popularity, liked_sorted.
  destruct (sort_raises _); [done|]. by intros [= <-].
Qed.

Lemma liked_books_sorted w interacted u :
  sort_raises (collect (books w) interacted [] (liked_interactions w u)) = false →
  liked_books w interacted u = Some (liked_sorted w interacted u).
Proof. unfold liked_books, by_popularity, liked_sorted. by intros ->. Qed.

(** The loop over the similar users, when it comes to its end, is the
    unbounded loop over the candidates of the users it has visited, cut at
    [n]. *)
Lemma cascade_visited w (n : nat) interacted langs users : ∀ recs out,
  (length recs ≤ n)%nat →
  cascade w (Z.of_nat n) interacted langs recs users = Some out →
  ∃ visited,
    visited `prefix_of` users
    ∧ out = take n (add_all langs recs (concat (liked_sorted w interacted <$> visited))).
Proof.
  induction users as [|u users IH]; intros recs out Hlen.
  - simpl. intros [= <-]. exists []. split; [done|]. simpl. by rewrite take_ge.
  - cbn [cascade]. rewrite len_ge_nat. case_bool_decide as Hfull.
    { intros [= <-]. exists []. split; [apply prefix_nil|]. simpl. by rewrite take_ge by lia. }
    destruct (liked_books w interacted u) as [liked|] eqn:Hliked; [|done].
    apply liked_books_some in Hliked as ->.
    rewrite add_books_take by lia. rewrite len_ge_nat.
    case_bool_decide as Hfull'.
    + intros [= <-]. exists [u]. split; [apply prefix_cons, prefix_nil|].
      simpl. by rewrite app_nil_r.
    + rewrite length_take in Hfull'. rewrite take_ge by lia.
      intros (visited & Hpre & ->)%IH; [|lia].
      exists (u :: visited). split; [by apply prefix_cons|].
      rewrite fmap_cons. cbn [concat]. by rewrite add_all_app.
Qed.

(** When no sort raises, the loop over the similar users is the unbounded
    loop over all their candidates cut at [n]. *)
Lemma cascade_take w (n : nat) interacted langs users : ∀ recs,
  (∀ u, u ∈ users →
        sort_raises (collect (books w) interacted [] (liked_interactions w u)) = false) →
  (length recs ≤ n)%nat →
  cascade w (Z.of_nat n) interacted langs recs users
  = Some (take n (add_all langs recs (concat (liked_sorted w interacted <$> users)))).
Proof.
  induction users as [|u users IH]; intros recs Hsort Hlen.
  - simpl. by rewrite take_ge.
  - rewrite fmap_cons. cbn [cascade concat]. rewrite add_all_app.
    destruct (add_all_prefix langs (concat (liked_sorted w interacted <$> users))
                (add_all langs recs (liked_sorted w interacted u))) as [more Hmore].
    destruct (add_all_prefix langs (liked_sorted w interacted u) recs) as [more1 Hmore1].
    rewrite len_ge_nat. case_bool_decide as Hfull.
    + rewrite Hmore, Hmore1, <- app_assoc. f_equal. symmetry. apply take_prefix_full. lia.
    + rewrite liked_books_sorted by (apply Hsort; by left).
      rewrite add_books_take by lia. rewrite len_ge_nat.
      case_bool_decide as Hfull'.
      * rewrite Hmore. rewrite length_take in Hfull'.
        rewrite take_app_le by lia. done.
      * rewrite length_take in Hfull'.
        rewrite take_ge by lia. apply IH; [|lia].
        intros u' Hu'. apply Hsort. by right.
Qed.

Lemma cascade_negative w n interacted langs users :
  n < 0 → cascade w n interacted langs [] users = Some [].
Proof.
  intros Hn. destruct users; simpl; [done|].
  unfold len_ge. simpl. change (Z.of_nat 0) with 0.
  destruct (Z.leb_spec n 0); [done|lia].
Qed.

(** A record built from a catalog in which no popularity is stored as null
    has a number as its sort key. *)
Lemma get_book_info_popularity books name info :
  (∀ b, b ∈ books → popularity_score b ≠ Null) →
  _get_book_info books name = Some info → info_popularity_score info ≠ None.
Proof.
  intros Hpop. unfold _get_book_info.
  destruct (list_find _ books) as [[k b]|] eqn:Hfind; [|done].
  intros [= <-]. apply list_find_Some in Hfind as (Hb%list_elem_of_lookup_2 & _ & _).
  specialize (Hpop b Hb). simpl. by destruct (popularity_score b).
Qed.

Lemma collect_info books interacted l : ∀ known name info,
  (name, info) ∈ collect books interacted known l → _get_book_info books name = Some info.
Proof.
  induction l as [|b l IH]; intros known name info; simpl; [by intros ?%elem_of_nil|].
  destruct (PyStr.mem _ interacted); [apply IH|].
  destruct (PyStr.mem _ known); [apply IH|].
  destruct (_get_book_info books (Interactions.book_name b)) as [info'|] eqn:Hinfo;
    [|apply IH].
  intros [[= -> ->]|Hin]%elem_of_cons; [done|by eapply IH].
Qed.

Lemma popularity_known_sorts w interacted u :
  popularity_known w →
  sort_raises (collect (books w) interacted [] (liked_interactions w u)) = false.
Proof.
  intros Hpop. unfold sort_raises. apply andb_false_intro2.
  apply not_true_is_false. intros ([name info] & Hin%list_elem_of_In & Hkey)%existsb_exists.
  apply bool_decide_eq_true in Hkey. apply collect_info in Hin.
  by apply (get_book_info_popularity _ _ _ Hpop) in Hin.
Qed.

(** The answer of the loops, for every desired count, when no sort
    raises. *)
Lemma cascade_is_spec w uid_str doc n :
  popularity_known w →
  (λ recommendations, py_slice_to recommendations n) <$>
    cascade w n (get_user_interacted_book_names w uid_str) (_get_user_languages w uid_str)
            [] (kept_users doc)
  = Some (cascade_spec w uid_str doc n).
Proof.
  intros Hpop. unfold cascade_spec, candidates, py_slice_to.
  destruct (Z.ltb_spec n 0) as [Hneg|Hpos].
  - rewrite cascade_negative by done. simpl.
    replace (Z.to_nat n) with 0%nat by lia. by rewrite take_nil.
  - remember (Z.to_nat n) as k eqn:Hk.
    assert (n = Z.of_nat k) as -> by lia.
    rewrite cascade_take; [|intros u _; by apply popularity_known_sorts|simpl; lia].
    simpl. by rewrite take_take, Nat.min_id.
Qed.

(** The answer of the loops is empty when a sort raises, and otherwise the
    unbounded loop over the candidates of the users visited, cut at the
    desired count. *)
Lemma cascade_shape w uid_str doc n out :
  cascade w n (get_user_interacted_book_names w uid_str) (_get_user_languages w uid_str)
          [] (kept_users doc) = Some out →
  ∃ visited,
    visited `prefix_of` kept_users doc
    ∧ py_slice_to out n
      = take (Z.to_nat n)
          (add_all (_get_user_languages w uid_str) []
             (concat (liked_sorted w (get_user_interacted_book_names w uid_str)
                        <$> visited))).
Proof.
  unfold py_slice_to. destruct (Z.ltb_spec n 0) as [Hneg|Hpos].
  - rewrite cascade_negative by done. intros [= <-]. exists []. split; [apply prefix_nil|].
    simpl. by rewrite !take_nil.
  - remember (Z.to_nat n) as k eqn:Hk.
    assert (n = Z.of_nat k) as -> by lia.
    intros (visited & Hpre & ->)%cascade_visited; [|simpl; lia].
    exists visited. split; [done|]. by rewrite take_take, Nat.min_id.
Qed.

(** *** What is recommended, and from whom *)

Lemma Qltb_lt x y : Is_true (Qltb x y) ↔ (x < y)%Q.
Proof.
  unfold Qltb. rewrite negb_True, Is_true_true, Qle_bool_iff.
  split; [apply Qnot_le_lt | apply Qlt_not_le].
Qed.

Lemma kept_pairs_elem doc u s :
  (u, s) ∈ kept_pairs doc
  ↔ (u, s) ∈ zip (similar_users doc) (similarities doc) ∧ ¬ (s < 1 # 2)%Q.
Proof.
  unfold kept_pairs. rewrite list_elem_of_filter. simpl. rewrite Qltb_lt. tauto.
Qed.

Lemma kept_users_elem doc u :
  u ∈ kept_users doc
  ↔ ∃ s, (u, s) ∈ zip (similar_users doc) (similarities doc) ∧ ¬ (s < 1 # 2)%Q.
Proof.
  unfold kept_users. rewrite list_elem_of_fmap. split.
  - intros ([u' s] & -> & H%kept_pairs_elem). by exists s.
  - intros (s & H). exists (u, s). split; [done|]. by apply kept_pairs_elem.
Qed.

Lemma fst_zip_take {A B} (l : list A) (k : list B) : (zip l k).*1 = take (length k) l.
Proof.
  revert k. induction l as [|x l IH]; intros [|y k]; simpl; try done.
  by rewrite IH.
Qed.

Lemma kept_users_sublist doc : kept_users doc `sublist_of` similar_users doc.
Proof.
  unfold kept_users, kept_pairs.
  transitivity ((zip (similar_users doc) (similarities doc)).*1).
  - apply fmap_sublist, sublist_filter.
  - rewrite fst_zip_take. apply sublist_take.
Qed.

Lemma StronglySorted_sublist {A} (R : relation A) l k :
  k `sublist_of` l → StronglySorted R l → StronglySorted R k.
Proof.
  induction 1 as [|x k l Hsub IH|x k l Hsub IH]; intros Hs; [done| |].
  - apply StronglySorted_cons in Hs as [Hx Hs].
    apply StronglySorted_cons. split; [|by apply IH].
    apply Forall_forall. intros y Hy. eapply Forall_forall; [exact Hx|].
    by eapply sublist_subseteq.
  - apply StronglySorted_cons in Hs as [_ Hs]. by apply IH.
Qed.

Lemma zip_sorted {A} (l : list A) (k : list Q) :
  StronglySorted (λ x y, (y <= x)%Q) k →
  StronglySorted (λ p q : A * Q, (q.2 <= p.2)%Q) (zip l k).
Proof.
  intros Hs. revert l. induction Hs as [|s k Hs IH Hall]; intros [|x l]; simpl;
    try constructor.
  - apply IH.
  - apply Forall_forall. intros [y t] Hy%elem_of_zip_r. simpl.
    eapply Forall_forall in Hall; [exact Hall|done].
Qed.

(** When the stored scores are descending, the kept users are walked in
    descending score. *)
Lemma kept_pairs_descending doc :
  StronglySorted (λ x y, (y <= x)%Q) (similarities doc) →
  StronglySorted (λ p q : oid * Q, (q.2 <= p.2)%Q) (kept_pairs doc).
Proof.
  intros Hs. eapply StronglySorted_sublist; [apply sublist_filter|].
  by apply zip_sorted.
Qed.

Lemma get_book_info_name books name info :
  _get_book_info books name = Some info → info_name info = Some name.
Proof.
  unfold _get_book_info.
  destruct (list_find _ books) as [[k b]|] eqn:Hfind; [|done].
  intros [= <-]. apply list_find_Some in Hfind as (_ & Hname & _). simpl.
  by rewrite Hname.
Qed.

Lemma mem_true x l : PyStr.mem x l = true ↔ x ∈ l.
Proof. unfold PyStr.mem. by rewrite bool_decide_eq_true. Qed.

Lemma mem_false x l : PyStr.mem x l = false ↔ x ∉ l.
Proof. unfold PyStr.mem. by rewrite bool_decide_eq_false. Qed.

(** The first inner loop keeps exactly the titles that are new to the
    target, known to the catalog and not met before. *)
Lemma collect_elem books interacted l : ∀ known name info,
  (name, info) ∈ collect books interacted known l
  ↔ (name ∉ interacted) ∧ (name ∉ known)
    ∧ _get_book_info books name = Some info
    ∧ ∃ i, i ∈ l ∧ Interactions.book_name i = name.
Proof.
  induction l as [|b l IH]; intros known name info; simpl.
  - split; [by intros ?%elem_of_nil|]. intros (_ & _ & _ & i & []%elem_of_nil & _).
  - destruct (PyStr.mem (Interactions.book_name b) interacted) eqn:Hint.
    { apply mem_true in Hint. rewrite IH. split.
      - intros (? & ? & ? & i & ? & ?). split_and!; try done. exists i. split; [by right|done].
      - intros (? & ? & ? & i & [->|?]%elem_of_cons & Hi); [congruence|].
        split_and!; try done. by exists i. }
    apply mem_false in Hint.
    destruct (PyStr.mem (Interactions.book_name b) known) eqn:Hknown.
    { apply mem_true in Hknown. rewrite IH. split.
      - intros (? & ? & ? & i & ? & ?). split_and!; try done. exists i. split; [by right|done].
      - intros (? & ? & ? & i & [->|?]%elem_of_cons & Hi); [congruence|].
        split_and!; try done. by exists i. }
    apply mem_false in Hknown.
    destruct (_get_book_info books (Interactions.book_name b)) as [info'|] eqn:Hinfo.
    + rewrite elem_of_cons, IH, not_elem_of_cons. split.
      * intros [[= -> ->]|(? & [? ?] & ? & i & ? & ?)].
        -- split_and!; try done. exists b. split; [by left|done].
        -- split_and!; try done. exists i. split; [by right|done].
      * intros (? & ? & Hi' & i & [->|?]%elem_of_cons & Hi).
        -- left. rewrite Hi in Hinfo. congruence.
        -- destruct (decide (name = Interactions.book_name b)) as [->|Hne].
           ++ left. congruence.
           ++ right. split_and!; try done. by exists i.
    + rewrite IH. split.
      * intros (? & ? & ? & i & ? & ?). split_and!; try done. exists i. split; [by right|done].
      * intros (? & ? & Hi' & i & [->|?]%elem_of_cons & Hi); [congruence|].
        split_and!; try done. by exists i.
Qed.

Lemma liked_interactions_elem w u i :
  i ∈ liked_interactions w u →
  i ∈ interactions w ∧ Interactions.user_id i = u ∧ Interactions.action i = "like".
Proof.
  unfold liked_interactions. intros Hi%subseteq_take.
  rewrite (sort_desc_perm Interactions.timestamp) in Hi.
  apply list_elem_of_filter in Hi. tauto.
Qed.

Lemma liked_interactions_length w u : (length (liked_interactions w u) ≤ 100)%nat.
Proof. unfold liked_interactions. rewrite length_take. lia. Qed.

(** With at most 100 likes, all of them are looked at. *)
Lemma liked_interactions_all w u i :
  (length (filter (λ i, Interactions.user_id i = u ∧ Interactions.action i = "like")
             (interactions w)) ≤ 100)%nat →
  i ∈ interactions w → Interactions.user_id i = u → Interactions.action i = "like" →
  i ∈ liked_interactions w u.
Proof.
  intros Hfew Hi Hu Ha. unfold liked_interactions. rewrite take_ge.
  - rewrite (sort_desc_perm Interactions.timestamp). by apply list_elem_of_filter.
  - by rewrite (sort_desc_perm Interactions.timestamp).
Qed.

(** The candidates a similar user contributes: the titles of the likes
    looked at that are new to the target and known to the catalog, each
    with the record of the first catalog book of that title. *)
Lemma liked_sorted_elem w interacted u name info :
  (name, info) ∈ liked_sorted w interacted u
  ↔ (name ∉ interacted) ∧ _get_book_info (books w) name = Some info
    ∧ ∃ i, i ∈ liked_interactions w u ∧ Interactions.book_name i = name.
Proof.
  unfold liked_sorted, popularity_order. rewrite sort_by_desc_elem_of, collect_elem.
  split; [tauto|]. intros (? & ? & ?). split_and!; try done. apply not_elem_of_nil.
Qed.

Lemma already_added_true name recs :
  already_added name recs = true ↔ ∃ r, r ∈ recs ∧ info_name r = Some name.
Proof.
  unfold already_added. rewrite existsb_exists. split.
  - intros (r & Hr%list_elem_of_In & Heq). exists r. split; [done|].
    by apply bool_decide_eq_true in Heq.
  - intros (r & Hr & Heq). exists r. split; [by apply list_elem_of_In|].
    by apply bool_decide_eq_true.
Qed.

(** Everything in the unbounded answer was there before or is a candidate
    that passes the language check. *)
Lemma add_all_elem langs cands : ∀ recs r,
  r ∈ add_all langs recs cands →
  r ∈ recs ∨ ∃ name, (name, r) ∈ cands ∧ _meets_language_requirement r langs = true.
Proof.
  induction cands as [|[name info] cands IH]; intros recs r; simpl; [by left|].
  intros [Hr|(name' & Hin & Hok)]%IH.
  - unfold add_one in Hr. simpl in Hr.
    destruct (already_added name recs); [by left|].
    destruct (_meets_language_requirement info langs) eqn:Hok; [|by left].
    apply elem_of_app in Hr as [Hr|Hr%list_elem_of_singleton]; [by left|].
    subst r. right. exists name. split; [by left|done].
  - right. exists name'. split; [by right|done].
Qed.

Lemma add_all_mono langs cands recs r : r ∈ recs → r ∈ add_all langs recs cands.
Proof.
  intros Hr. destruct (add_all_prefix langs cands recs) as [more ->].
  apply elem_of_app. by left.
Qed.

(** Every candidate that passes the language check has its title in the
    unbounded answer. *)
Lemma add_all_complete langs cands : ∀ recs name info,
  (name, info) ∈ cands →
  info_name info = Some name →
  _meets_language_requirement info langs = true →
  ∃ r, r ∈ add_all langs recs cands ∧ info_name r = Some name.
Proof.
  induction cands as [|[name' info'] cands IH]; intros recs name info Hin Hname Hok.
  - by apply elem_of_nil in Hin.
  - apply elem_of_cons in Hin as [[= <- <-]|Hin]; [|by eapply IH].
    simpl. unfold add_one. simpl.
    destruct (already_added name recs) eqn:Hadded.
    + apply already_added_true in Hadded as (r & Hr & Hrn).
      exists r. split; [by apply add_all_mono|done].
    + rewrite Hok. exists info. split; [|done].
      apply add_all_mono, elem_of_app. right. by apply list_elem_of_singleton.
Qed.

(** The unbounded answer holds a title once. *)
Lemma add_all_titles langs cands :
  (∀ name info, (name, info) ∈ cands → info_name info = Some name) →
  ∀ recs, NoDup (info_name <$> recs) → NoDup (info_name <$> add_all langs recs cands).
Proof.
  induction cands as [|[name info] cands IH]; intros Hc recs Hnd; [done|]. simpl.
  apply IH; [intros n i Hin; apply Hc; by apply elem_of_cons; right|].
  unfold add_one. simpl.
  destruct (already_added name recs) eqn:Hadded; [done|].
  destruct (_meets_language_requirement info langs); [|done].
  rewrite fmap_app. simpl. apply NoDup_app. split_and!; [done| |apply NoDup_singleton].
  intros t (r & -> & Hr)%list_elem_of_fmap Ht%list_elem_of_singleton.
  assert (already_added name recs = true) as Habs; [|congruence].
  apply already_added_true. exists r. split; [done|].
  rewrite Ht. apply Hc. by apply elem_of_cons; left.
Qed.

Lemma candidates_elem w interacted doc name info :
  (name, info) ∈ candidates w interacted doc
  ↔ ∃ u, u ∈ kept_users doc ∧ (name, info) ∈ liked_sorted w interacted u.
Proof.
  unfold candidates. rewrite list_elem_of_In, in_concat. split.
  - intros (l & Hl%list_elem_of_In%list_elem_of_fmap & Hin%list_elem_of_In).
    destruct Hl as (u & -> & Hu). by exists u.
  - intros (u & Hu & Hin). exists (liked_sorted w interacted u).
    split; [|by apply list_elem_of_In].
    apply list_elem_of_In, list_elem_of_fmap. by exists u.
Qed.

(** On a cache miss, for a user the resident model knows and who has a
    similarity entry, the answer is the result of the loops. *)
Lemma main_path_loops train_model_py w uid_str uid doc n :
  redis w !! cache_key uid_str = None →
  ObjectId uid_str = Some uid →
  model_loaded (eng w) = true →
  uid ∈ user_mapping (eng w) →
  user_similarities w !! uid = Some doc →
  (get_enhanced_ubcf_recommendations train_model_py w uid_str n).1
  = default []
      ((λ recommendations, py_slice_to recommendations n) <$>
         cascade w n (get_user_interacted_book_names w uid_str)
                 (_get_user_languages w uid_str) [] (kept_users doc)).
Proof.
  intros Hcache Huser Hloaded Hknown Hdoc.
  unfold get_enhanced_ubcf_recommendations.
  rewrite Hcache, Huser, Hloaded. rewrite bool_decide_eq_true_2 by done.
  simpl. rewrite Hdoc.
  destruct (cascade _ _ _ _ _ _) as [recommendations|]; [|done].
  simpl. by destruct (py_slice_to recommendations n).
Qed.

(** Without the proviso on the popularity scores: the answer is empty, or
    built from the candidates of the similar users visited. *)
Lemma main_path_shape train_model_py w uid_str uid doc n :
  redis w !! cache_key uid_str = None →
  ObjectId uid_str = Some uid →
  model_loaded (eng w) = true →
  uid ∈ user_mapping (eng w) →
  user_similarities w !! uid = Some doc →
  ∃ visited,
    visited `prefix_of` kept_users doc
    ∧ (get_enhanced_ubcf_recommendations train_model_py w uid_str n).1
      `prefix_of` add_all (_get_user_languages w uid_str) []
                    (concat (liked_sorted w (get_user_interacted_book_names w uid_str)
                               <$> visited)).
Proof.
  intros Hcache Huser Hloaded Hknown Hdoc.
  rewrite (main_path_loops train_model_py w uid_str uid doc n) by done.
  destruct (cascade _ _ _ _ _ _) as [out|] eqn:Hout.
  - apply cascade_shape in Hout as (visited & Hpre & Hslice).
    exists visited. split; [done|]. simpl. rewrite Hslice. apply prefix_take.
  - exists []. split; [apply prefix_nil|]. simpl. apply prefix_nil.
Qed.

(** Loading the model changes the engine only. *)
Lemma after_load_cases w : after_load w = w ∨ ∃ e, after_load w = with_eng e w.
Proof.
  unfold after_load, _load_model. destruct (model_loaded (eng w)); [by left|].
  destruct (disk w); [right; by eexists|by left].
Qed.

Lemma cascade_with_eng e w n interacted langs users : ∀ recs,
  cascade (with_eng e w) n interacted langs recs users
  = cascade w n interacted langs recs users.
Proof.
  induction users as [|u users IH]; intros recs; cbn [cascade]; [done|].
  destruct (len_ge recs n); [done|].
  change (liked_books (with_eng e w) interacted u) with (liked_books w interacted u).
  destruct (liked_books w interacted u) as [liked|]; [|done].
  destruct (len_ge _ n); [done|]. apply IH.
Qed.

Lemma cascade_after_load w uid_str n users :
  cascade (after_load w) n (get_user_interacted_book_names (after_load w) uid_str)
          (_get_user_languages (after_load w) uid_str) [] users
  = cascade w n (get_user_interacted_book_names w uid_str) (_get_user_languages w uid_str)
            [] users.
Proof.
  destruct (after_load_cases w) as [->|[e ->]]; [done|].
  change (get_user_interacted_book_names (with_eng e w) uid_str)
    with (get_user_interacted_book_names w uid_str).
  change (_get_user_languages (with_eng e w) uid_str) with (_get_user_languages w uid_str).
  apply cascade_with_eng.
Qed.

Lemma similarities_after_load w : user_similarities (after_load w) = user_similarities w.
Proof. by destruct (after_load_cases w) as [->|[e ->]]. Qed.

(** When no non-empty list is cached, for a user the model knows, once it
    is loaded, the answer is the result of the loops. *)
Lemma known_path train_model_py w uid_str uid n :
  (∀ x l, redis w !! cache_key uid_str ≠ Some (CachedRecommendations (x :: l))) →
  ObjectId uid_str = Some uid →
  uid ∈ user_mapping (eng (after_load w)) →
  (get_enhanced_ubcf_recommendations train_model_py w uid_str n).1
  = default []
      ((λ recommendations, py_slice_to recommendations n) <$>
         cascade w n (get_user_interacted_book_names w uid_str)
                 (_get_user_languages w uid_str) [] (kept_users (similarity_entry w uid))).
Proof.
  intros Hcache Huser Hknown.
  assert ((get_enhanced_ubcf_recommendations train_model_py w uid_str n).1
          = (answer (after_load w) uid_str uid n true).1) as ->.
  { unfold get_enhanced_ubcf_recommendations, answer.
    rewrite Huser. fold (after_load w).
    destruct (redis w !! cache_key uid_str) as [[[|x l]|payload]|] eqn:Hc;
      try (by destruct (Hcache x l));
      rewrite bool_decide_eq_true_2 by done; cbn [negb];
      (destruct (user_similarities _ !! uid); [|done]);
      (destruct (cascade _ _ _ _ _ _) as [recommendations|]; [|done]);
      by destruct (py_slice_to recommendations n). }
  unfold answer, similarity_entry. cbn [negb].
  rewrite similarities_after_load.
  destruct (user_similarities w !! uid) as [doc|]; cbn [default from_option id].
  - rewrite cascade_after_load.
    destruct (cascade _ _ _ _ _ _) as [recommendations|]; [|done].
    simpl. by destruct (py_slice_to recommendations n).
  - change (kept_users _) with (@nil oid). cbn [cascade fmap option_fmap option_map].
    unfold py_slice_to. simpl. destruct (n <? 0); by rewrite take_nil.
Qed.

(** The target's languages are the stored ones, lower-cased and stripped. *)
Lemma get_user_languages_stored w uid_str uid :
  ObjectId uid_str = Some uid →
  _get_user_languages w uid_str
  = (λ lang, PyStr.strip (PyStr.lower lang)) <$> default [] (user_languages w !! uid).
Proof. unfold _get_user_languages. by intros ->. Qed.

Lemma get_user_interacted_book_names_stored w uid_str uid :
  ObjectId uid_str = Some uid →
  get_user_interacted_book_names w uid_str
  = Interactions.book_name <$> filter (λ i, Interactions.user_id i = uid) (interactions w).
Proof. unfold get_user_interacted_book_names. by intros ->. Qed.




End CascadeFacts.

(** ** The cold-start retrain of the cascade recommender *)

Module RetrainFacts.
Import Bson Catalog Cascade CascadeFacts.

Lemma load_model_fields w :
  train_runs (_load_model w).2 = train_runs w
  ∧ interactions (_load_model w).2 = interactions w
  ∧ train_script_exists (_load_model w).2 = train_script_exists w
  ∧ user_similarities (_load_model w).2 = user_similarities w.
Proof. unfold _load_model. by destruct (disk w). Qed.

Lemma after_load_fields w :
  train_runs (after_load w) = train_runs w
  ∧ interactions (after_load w) = interactions w
  ∧ train_script_exists (after_load w) = train_script_exists w
  ∧ user_similarities (after_load w) = user_similarities w.
Proof.
  unfold after_load. destruct (model_loaded (eng w)); [done|apply load_model_fields].
Qed.

Lemma interaction_count_after_load w uid_str :
  get_user_interaction_count (after_load w) uid_str = get_user_interaction_count w uid_str.
Proof.
  unfold get_user_interaction_count.
  destruct (after_load_fields w) as (_ & -> & _). done.
Qed.

(** [_retrain_for_new_user] runs the script once when the user has an
    interaction and the script is there, and not at all otherwise; a
    non-zero exit code makes it fail. *)
Lemma retrain_for_new_user_runs train_model_py w uid_str :
  let r := _retrain_for_new_user train_model_py w uid_str in
  let attempted :=
    negb (get_user_interaction_count w uid_str =? 0) && train_script_exists w in
  train_runs r.2 = (train_runs w + (if attempted then 1 else 0))%nat
  ∧ (attempted = false → r = (false, w))
  ∧ ((train_model_py w).1 ≠ 0 → r.1 = false).
Proof.
  unfold _retrain_for_new_user, subprocess_run.
  destruct (get_user_interaction_count w uid_str =? 0); simpl; [split_and!; (done || lia)|].
  destruct (train_script_exists w); simpl; [|split_and!; (done || lia)].
  destruct (train_model_py w) as [returncode w'] eqn:Hrun. simpl.
  destruct (Z.eqb_spec returncode 0) as [->|Hne]; simpl.
  - destruct (load_model_fields (with_train_runs (S (train_runs w)) w')) as (-> & _).
    simpl. split_and!; (done || lia).
  - split_and!; (done || lia).
Qed.

(** C9, as amended: a query makes the engine run the external training
    script once exactly when nothing is cached for the user, the user id is
    valid, the user is absent from the user mapping of the resident (or just
    loaded) model, the user has at least one interaction and the script is
    there; in every other case no run is attempted.  When the attempted run
    exits with a non-zero code the answer is empty.  A user with zero
    interactions who is absent from the mapping gets an empty answer without
    any run, and so does a user the model knows but for whom no similarity
    entry exists. *)
Theorem retrain_only_for_unmapped_user_with_interactions
    (train_model_py : script) (w : world) (uid_str : string) (n : Z) :
  let r := get_enhanced_ubcf_recommendations train_model_py w uid_str n in
  (train_runs r.2
   = (train_runs w + (if retrain_attempted w uid_str then 1 else 0))%nat)
  ∧ (retrain_attempted w uid_str = true →
     (train_model_py (after_load w)).1 ≠ 0 → r.1 = [])
  ∧ (∀ uid, redis w !! cache_key uid_str = None →
       ObjectId uid_str = Some uid →
       uid ∉ user_mapping (eng (after_load w)) →
       get_user_interaction_count w uid_str = 0 →
       r.1 = [] ∧ train_runs r.2 = train_runs w)
  ∧ (∀ uid, redis w !! cache_key uid_str = None →
       ObjectId uid_str = Some uid →
       uid ∈ user_mapping (eng (after_load w)) →
       user_similarities w !! uid = None →
       r.1 = [] ∧ train_runs r.2 = train_runs w).
Proof.
  intros r.
  assert (∀ uid, ObjectId uid_str = Some uid →
            (∀ x l, redis w !! cache_key uid_str ≠ Some (CachedRecommendations (x :: l))) →
            r = (let '(known, w2) :=
                   if bool_decide (uid ∈ user_mapping (eng (after_load w)))
                   then (true, after_load w)
                   else _retrain_for_new_user train_model_py (after_load w) uid_str in
                 answer w2 uid_str uid n known)) as Hmiss.
  { intros uid Huid Hcache. subst r. unfold get_enhanced_ubcf_recommendations, answer.
    rewrite Huid. fold (after_load w).
    destruct (redis w !! cache_key uid_str) as [[[|x l]|payload]|] eqn:Hc;
      try (by destruct (Hcache x l));
      cbv zeta; destruct (bool_decide _);
      try destruct (_retrain_for_new_user _ _ _) as [[] w2]; cbn [negb]; try done;
      (destruct (user_similarities _ !! uid); [|done]);
      (destruct (cascade _ _ _ _ _ _) as [recommendations|]; [|done]);
      by destruct (py_slice_to recommendations n). }
  pose proof (after_load_fields w) as (Hruns & Hint & Hscript & Hsim).
  pose proof (retrain_for_new_user_runs train_model_py (after_load w) uid_str)
    as (Hr1 & Hr2 & Hr3).
  cbv zeta in Hr1, Hr2, Hr3.
  rewrite interaction_count_after_load, Hscript, Hruns in Hr1.
  rewrite interaction_count_after_load, Hscript in Hr2.
  assert (∀ w2 uid known, train_runs (answer w2 uid_str uid n known).2 = train_runs w2)
    as Htail.
  { intros w2 uid []; unfold answer; simpl; [|done].
    destruct (user_similarities w2 !! uid); [|done].
    destruct (cascade _ _ _ _ _ _) as [recommendations|]; [|done].
    by destruct (py_slice_to recommendations n). }
  assert (∀ x l, redis w !! cache_key uid_str = Some (CachedRecommendations (x :: l)) →
            r = (py_slice_to (x :: l) n, w)) as Hhit.
  { intros x l Hc. subst r. unfold get_enhanced_ubcf_recommendations. by rewrite Hc. }
  assert ((∃ x l, redis w !! cache_key uid_str = Some (CachedRecommendations (x :: l)))
          ∨ (∀ x l, redis w !! cache_key uid_str ≠ Some (CachedRecommendations (x :: l))))
    as Hcases.
  { destruct (redis w !! cache_key uid_str) as [[[|x l]|payload]|]; eauto. }
  split_and!.
  - unfold retrain_attempted.
    destruct Hcases as [(x & l & Hc)|Hc].
    { rewrite (Hhit x l Hc), Hc. simpl. lia. }
    destruct (ObjectId uid_str) as [uid|] eqn:Huid.
    + rewrite (Hmiss uid eq_refl Hc).
      replace (match redis w !! cache_key uid_str with
               | Some (CachedRecommendations (_ :: _)) => false
               | _ => negb (bool_decide (uid ∈ user_mapping (eng (after_load w))))
                      && negb (get_user_interaction_count w uid_str =? 0)
                      && train_script_exists w
               end)
        with (negb (bool_decide (uid ∈ user_mapping (eng (after_load w))))
              && negb (get_user_interaction_count w uid_str =? 0)
              && train_script_exists w)
        by (destruct (redis w !! cache_key uid_str) as [[[|x l]|payload]|];
            try done; by destruct (Hc x l)).
      destruct (bool_decide _); cbn [negb andb].
      * rewrite Htail. lia.
      * destruct (_retrain_for_new_user _ _ _) as [known w2]. rewrite Htail.
        simpl in Hr1. exact Hr1.
    + subst r. unfold get_enhanced_ubcf_recommendations. rewrite Huid.
      destruct (redis w !! cache_key uid_str) as [[[|x l]|payload]|]; simpl; lia.
  - unfold retrain_attempted. intros Hatt Hcode.
    destruct Hcases as [(x & l & Hc)|Hc]; [by rewrite Hc in Hatt|].
    destruct (ObjectId uid_str) as [uid|] eqn:Huid;
      [|by destruct (redis w !! cache_key uid_str) as [[[|]|]|]].
    rewrite (Hmiss uid eq_refl Hc).
    destruct (bool_decide _);
      [by destruct (redis w !! cache_key uid_str) as [[[|]|]|]|].
    specialize (Hr3 Hcode).
    destruct (_retrain_for_new_user _ _ _) as [known w2]. simpl in Hr3. by subst known.
  - intros uid Hc Huid Hunknown Hzero.
    rewrite (Hmiss uid Huid) by (intros x l; by rewrite Hc).
    rewrite bool_decide_eq_false_2 by done.
    rewrite Hr2 by (by rewrite Hzero). simpl. by rewrite Hruns.
  - intros uid Hc Huid Hknown Hnone.
    rewrite (Hmiss uid Huid) by (intros x l; by rewrite Hc).
    rewrite bool_decide_eq_true_2 by done. unfold answer. simpl.
    rewrite Hsim, Hnone. simpl. by rewrite Hruns.
Qed.

(** A user with an interaction whom the resident model does not know, and a
    training script that exits with code 1. *)
Lemma retrain_only_for_unmapped_user_with_interactions_witness :
  let r := get_enhanced_ubcf_recommendations Scenarios.failing_script
             Scenarios.stale_world Scenarios.alice 3 in
  retrain_attempted Scenarios.stale_world Scenarios.alice = true
  ∧ (Scenarios.failing_script (after_load Scenarios.stale_world)).1 ≠ 0
  ∧ r.1 = []
  ∧ train_runs r.2 = 1%nat.
Proof.
  pose proof (retrain_only_for_unmapped_user_with_interactions Scenarios.failing_script
                Scenarios.stale_world Scenarios.alice 3) as (Hruns & Hfail & _).
  assert (retrain_attempted Scenarios.stale_world Scenarios.alice = true) as Hatt
    by reflexivity.
  assert ((Scenarios.failing_script (after_load Scenarios.stale_world)).1 ≠ 0) as Hcode
    by (simpl; lia).
  cbv zeta. split_and!; [exact Hatt|exact Hcode|exact (Hfail Hatt Hcode)|].
  rewrite Hruns, Hatt. reflexivity.
Defined.

(** C9, against the claim as stated: a user with zero interactions, and a
    user without a similarity entry, each get an empty answer while the
    training script has not been run at all. *)
Lemma no_retrain_before_giving_up :
  (get_user_interaction_count Scenarios.cascade_world Scenarios.newcomer = 0
   ∧ let r := get_enhanced_ubcf_recommendations Scenarios.idle_script
                Scenarios.cascade_world Scenarios.newcomer 3 in
     r.1 = [] ∧ train_runs r.2 = 0%nat)
  ∧ (user_similarities Scenarios.no_similarity_world !! Scenarios.alice = None
     ∧ let r := get_enhanced_ubcf_recommendations Scenarios.idle_script
                  Scenarios.no_similarity_world Scenarios.alice 3 in
       r.1 = [] ∧ train_runs r.2 = 0%nat).
Proof. by vm_compute. Qed.

(** A user with an interaction whom the resident model does not know: the
    script is run once; when it fails the answer is empty. *)
Lemma retrain_attempted_for_unmapped_user :
  retrain_attempted Scenarios.stale_world Scenarios.alice = true
  ∧ (let r := get_enhanced_ubcf_recommendations Scenarios.failing_script
                Scenarios.stale_world Scenarios.alice 3 in
     r.1 = [] ∧ train_runs r.2 = 1%nat)
  ∧ (let r := get_enhanced_ubcf_recommendations Scenarios.idle_script
                Scenarios.stale_world Scenarios.alice 3 in
     info_name <$> r.1 = [Some "B"; Some "D"] ∧ train_runs r.2 = 1%nat).
Proof. by vm_compute. Qed.

End RetrainFacts.

(** ** The single-anchor similarity query *)

Module ContentQueryFacts.
Import Bson Catalog ContentQuery.

Lemma book_by_id_id books id b : book_by_id books id = Some b → book_id b = id.
Proof.
  unfold book_by_id. destruct (list_find _ books) as [[k b']|] eqn:Hfind; [|done].
  intros [= <-]. by apply list_find_Some in Hfind as (_ & Hid & _).
Qed.

Lemma retrieved_books_id books cands id b :
  retrieved_books books cands id = Some b → book_id b = id.
Proof.
  unfold retrieved_books. case_bool_decide; [apply book_by_id_id|done].
Qed.

(** The loop: what it appends and when it stops. *)
Lemma build_spec limit all_ids base retrieved interacted base_name hits :
  (∀ id b, retrieved id = Some b → book_id b = id) →
  ∀ recs out,
    build limit all_ids base retrieved interacted base_name recs hits = Some out →
    ∃ more, out = recs ++ more
            ∧ Forall (λ r, from_hit all_ids base interacted base_name hits r
                           ∧ retrieved (book_id (rec_book r)) = Some (rec_book r)) more
            ∧ (Z.of_nat (length recs) < limit → Z.of_nat (length out) ≤ limit).
Proof.
  intros Hret. induction hits as [|[i score] hits IH]; intros recs out; simpl.
  - intros [= <-]. exists []. rewrite app_nil_r. split_and!; [done|constructor|lia].
  - assert (∀ more,
              Forall (λ r, from_hit all_ids base interacted base_name hits r
                           ∧ retrieved (book_id (rec_book r)) = Some (rec_book r)) more →
              Forall (λ r, from_hit all_ids base interacted base_name ((i, score) :: hits) r
                           ∧ retrieved (book_id (rec_book r)) = Some (rec_book r)) more)
      as Hweaken.
    { intros more Hm. eapply Forall_impl; [exact Hm|].
      intros r [(j & Hj & ?) ?]. split; [|done]. exists j. split; [by right|done]. }
    destruct (Z.leb_spec (len all_ids) i) as [Hout|Hin].
    { intros (more & ? & ? & ?)%IH. exists more. eauto. }
    destruct (py_index all_ids i) as [id|] eqn:Hidx; [|done].
    case_bool_decide as Hbase.
    { intros (more & ? & ? & ?)%IH. exists more. eauto. }
    destruct (retrieved id) as [b|] eqn:Hb; [|done].
    destruct (subscript (name b)) as [title|] eqn:Htitle; [|done].
    destruct (seen title interacted) eqn:Hseen.
    { intros (more & ? & ? & ?)%IH. exists more. eauto. }
    assert (from_hit all_ids base interacted base_name ((i, score) :: hits)
              {| rec_book := b; similarity_score := score; based_on_book := base_name |}
            ∧ retrieved (book_id b) = Some b)
      as Hnew.
    { rewrite (Hret id b Hb). split; [|done]. exists i. simpl. rewrite (Hret id b Hb).
      split_and!; [by left|done|done|done| | |done].
      - by destruct (name b).
      - intros s Hs. rewrite Hs in Htitle. injection Htitle as <-. simpl in Hseen.
        unfold PyStr.mem in Hseen. by apply bool_decide_eq_false in Hseen. }
    destruct (Z.leb_spec limit
                (len (recs ++ [{| rec_book := b; similarity_score := score;
                                  based_on_book := base_name |}]))) as [Hfull|Hroom].
    + intros [= <-]. eexists. split_and!; [done|by constructor|].
      rewrite length_app. simpl. lia.
    + intros (more & -> & Hmore & Hlen)%IH.
      exists ({| rec_book := b; similarity_score := score; based_on_book := base_name |}
              :: more).
      split_and!; [by rewrite <- app_assoc|constructor; eauto|].
      intros _. apply Hlen. exact Hroom.
Qed.

(** Positions at or beyond the length of the id list play no part. *)
Lemma build_drops_out_of_range limit all_ids base retrieved interacted base_name hits :
  ∀ recs,
    build limit all_ids base retrieved interacted base_name recs hits
    = build limit all_ids base retrieved interacted base_name recs
        (filter (λ h, h.1 < len all_ids) hits).
Proof.
  induction hits as [|[i score] hits IH]; intros recs; [done|].
  rewrite filter_cons. simpl.
  destruct (Z.leb_spec (len all_ids) i) as [Hout|Hin].
  - rewrite decide_False by lia. apply IH.
  - rewrite decide_True by lia. simpl.
    destruct (Z.leb_spec (len all_ids) i); [lia|].
    destruct (py_index all_ids i); [|done].
    case_bool_decide; [apply IH|].
    destruct (retrieved _) as [b|]; [|done].
    destruct (subscript (name b)) as [title|]; [|done].
    destruct (seen _ _); [apply IH|].
    destruct (_ <=? _); [done|apply IH].
Qed.

Lemma truthy_nonempty s : PyStr.truthy s = true ↔ s ≠ "".
Proof. by destruct s. Qed.

(** The language searched is the anchor's when it is known, not empty and
    resident, and English in every other case. *)
Lemma base_language_cases e id lang :
  base_language e id = Some lang →
  is_Some (faiss_indices e !! lang)
  ∧ (resident e id lang ∨ ((∀ l, ¬ resident e id l) ∧ lang = "english")).
Proof.
  unfold base_language, resident.
  assert ((∀ l, ¬ (book_language_map e !! id = Some l ∧ l ≠ ""
                   ∧ is_Some (faiss_indices e !! l))) →
          (if bool_decide (is_Some (faiss_indices e !! "english"))
           then Some "english" else None) = Some lang →
          is_Some (faiss_indices e !! lang)
          ∧ (book_language_map e !! id = Some lang ∧ lang ≠ ""
             ∧ is_Some (faiss_indices e !! lang)
             ∨ (∀ l, ¬ (book_language_map e !! id = Some l ∧ l ≠ ""
                        ∧ is_Some (faiss_indices e !! l)))
               ∧ lang = "english")) as Hfallback.
  { intros Hnone. case_bool_decide as Henglish; [|done]. intros [= <-].
    split; [done|]. by right. }
  destruct (book_language_map e !! id) as [base_lang|] eqn:Hmap.
  - destruct (PyStr.truthy base_lang) eqn:Htruthy; cbn [andb].
    + apply truthy_nonempty in Htruthy.
      destruct (bool_decide (is_Some (faiss_indices e !! base_lang))) eqn:Hres.
      * apply bool_decide_eq_true in Hres. intros [= <-]. split; [done|]. by left.
      * apply bool_decide_eq_false in Hres. apply Hfallback.
        intros l ([= <-] & _ & ?). done.
    + apply Hfallback. intros l ([= <-] & Hne & _).
      apply truthy_nonempty in Hne. congruence.
  - apply Hfallback. by intros l (? & _).
Qed.

(** The shape of every answer: empty, or built by the loop from the hits
    of the one search that was issued. *)
Lemma query_shape e books transform interacted anchor limit :
  let r := get_similar_books_for_user e books transform interacted anchor limit in
  r.1 = []
  ∨ ∃ base_book_name base_book_id base_lang entry base_book base_vector hits candidates,
      anchor = Some base_book_name
      ∧ book_name_to_id e !! base_book_name = Some base_book_id
      ∧ base_language e base_book_id = Some base_lang
      ∧ faiss_indices e !! base_lang = Some entry
      ∧ book_by_id books base_book_id = Some base_book
      ∧ transform base_book = Some base_vector
      ∧ search entry base_vector (limit + len (remove_dups interacted)) = Some hits
      ∧ candidate_book_ids (ids entry) base_book_id hits.*1 = Some candidates
      ∧ r.2 = Some (base_lang, limit + len (remove_dups interacted))
      ∧ build limit (ids entry) base_book_id (retrieved_books books candidates)
          (remove_dups interacted) base_book_name [] hits = Some r.1.
Proof.
  unfold get_similar_books_for_user.
  destruct anchor as [base_book_name|]; [|by left].
  destruct (PyStr.truthy base_book_name); simpl; [|by left].
  destruct (book_name_to_id e !! base_book_name) as [base_book_id|] eqn:Hid; [|by left].
  destruct (bool_decide (is_Some (book_index e !! base_book_id))); simpl; [|by left].
  destruct (base_language e base_book_id) as [base_lang|] eqn:Hlang; [|by left].
  destruct (book_by_id books base_book_id) as [base_book|] eqn:Hbook; [|by left].
  destruct (transform base_book) as [base_vector|] eqn:Hvec; [|by left].
  destruct (faiss_indices e !! base_lang) as [entry|] eqn:Hentry; [|by left].
  destruct (search entry base_vector _) as [hits|] eqn:Hsearch; [|by left].
  destruct (candidate_book_ids _ _ _) as [candidates|] eqn:Hcands; [|by left].
  destruct (build _ _ _ _ _ _ _ _) as [out|] eqn:Hbuild; [|by left].
  right. simpl. by exists base_book_name, base_book_id, base_lang, entry, base_book,
    base_vector, hits, candidates.
Qed.

(** Every search that is issued goes to the language [base_language]
    chooses, for [limit] plus the number of distinct titles. *)
Lemma issued_search e books transform interacted anchor limit lang k :
  (get_similar_books_for_user e books transform interacted anchor limit).2 = Some (lang, k) →
  k = limit + len (remove_dups interacted)
  ∧ ∃ base_book_name base_book_id,
      anchor = Some base_book_name
      ∧ book_name_to_id e !! base_book_name = Some base_book_id
      ∧ base_language e base_book_id = Some lang.
Proof.
  unfold get_similar_books_for_user. intros Hq.
  destruct anchor as [base_book_name|]; [|done].
  destruct (PyStr.truthy base_book_name); simpl in Hq; [|done].
  destruct (book_name_to_id e !! base_book_name) as [base_book_id|] eqn:Hid; [|done].
  destruct (bool_decide _); simpl in Hq; [|done].
  destruct (base_language e base_book_id) as [base_lang|] eqn:Hlang; [|done].
  destruct (book_by_id books base_book_id); [|done].
  destruct (transform _); [|done].
  destruct (faiss_indices e !! base_lang) eqn:Hentry; [|done].
  assert ((lang, k) = (base_lang, limit + len (remove_dups interacted))) as [= -> ->].
  { destruct (search _ _ _); [destruct (candidate_book_ids _ _ _)|];
      simpl in Hq; congruence. }
  split; [done|]. by exists base_book_name, base_book_id.
Qed.

(** C7, as amended.  Every search the query issues goes to the index of
    the anchor book's language when that language is known, not empty and
    has an index in memory, and to the English index in every other case,
    and asks for [limit] plus the number of distinct titles the user has
    interacted with.  For a limit of at least 1 the answer has at most
    [limit] elements; no element is the anchor, and none has a title the
    user has interacted with.  A non-empty answer is built from the hits of
    that one search on the vector of the anchor: every element is the
    catalog book whose id the aligned id list holds at a returned position
    below the length of that list, with the score returned for that
    position, and the answer is the one the hits at positions below that
    length give: positions at or beyond it are dropped. *)
Theorem similar_books_filtered (e : engine) (books : list book)
    (transform : book → option vector) (interacted : list string)
    (anchor : option string) (limit : Z) :
  let r := get_similar_books_for_user e books transform interacted anchor limit in
  (∀ lang k, r.2 = Some (lang, k) →
     k = limit + len (remove_dups interacted)
     ∧ ∃ base_book_name base_book_id,
         anchor = Some base_book_name
         ∧ book_name_to_id e !! base_book_name = Some base_book_id
         ∧ is_Some (faiss_indices e !! lang)
         ∧ (resident e base_book_id lang
            ∨ ((∀ l, ¬ resident e base_book_id l) ∧ lang = "english")))
  ∧ (1 ≤ limit → Z.of_nat (length r.1) ≤ limit)
  ∧ (∀ x, x ∈ r.1 →
       (∀ base_book_name, anchor = Some base_book_name →
          book_name_to_id e !! base_book_name ≠ Some (book_id (rec_book x)))
       ∧ (∀ title, name (rec_book x) = Val title → title ∉ interacted))
  ∧ (r.1 = []
     ∨ ∃ base_book_name base_book_id lang entry base_book base_vector hits candidates,
         anchor = Some base_book_name
         ∧ book_name_to_id e !! base_book_name = Some base_book_id
         ∧ r.2 = Some (lang, limit + len (remove_dups interacted))
         ∧ faiss_indices e !! lang = Some entry
         ∧ book_by_id books base_book_id = Some base_book
         ∧ transform base_book = Some base_vector
         ∧ search entry base_vector (limit + len (remove_dups interacted)) = Some hits
         ∧ candidate_book_ids (ids entry) base_book_id hits.*1 = Some candidates
         ∧ (∀ x, x ∈ r.1 →
              based_on_book x = base_book_name
              ∧ book_by_id books (book_id (rec_book x)) = Some (rec_book x)
              ∧ ∃ i, (i, similarity_score x) ∈ hits ∧ i < len (ids entry)
                     ∧ py_index (ids entry) i = Some (book_id (rec_book x)))
         ∧ build limit (ids entry) base_book_id (retrieved_books books candidates)
             (remove_dups interacted) base_book_name []
             (filter (λ h, h.1 < len (ids entry)) hits) = Some r.1).
Proof.
  intros r.
  assert (∀ lang k, r.2 = Some (lang, k) →
     k = limit + len (remove_dups interacted)
     ∧ ∃ base_book_name base_book_id,
         anchor = Some base_book_name
         ∧ book_name_to_id e !! base_book_name = Some base_book_id
         ∧ is_Some (faiss_indices e !! lang)
         ∧ (resident e base_book_id lang
            ∨ ((∀ l, ¬ resident e base_book_id l) ∧ lang = "english"))) as Hissued.
  { intros lang k (-> & base_book_name & base_book_id & Hanchor & Hid & Hlang)%issued_search.
    apply base_language_cases in Hlang as [Hres Hwhich].
    split; [done|]. by exists base_book_name, base_book_id. }
  destruct (query_shape e books transform interacted anchor limit)
    as [Hempty|(base_book_name & base_book_id & base_lang & entry & base_book
                & base_vector & hits & candidates & Hanchor & Hid & Hlang & Hentry
                & Hbook & Hvec & Hsearch & Hcands & Hq & Hbuild)].
  - fold r in Hempty. rewrite Hempty. split_and!.
    + exact Hissued.
    + simpl. lia.
    + by intros x ?%elem_of_nil.
    + by left.
  - fold r in Hq, Hbuild.
    destruct (build_spec limit (ids entry) base_book_id (retrieved_books books candidates)
                (remove_dups interacted) base_book_name hits
                (retrieved_books_id books candidates) [] r.1 Hbuild)
      as (more & Hout & Hfrom & Hlen).
    simpl in Hout. subst more.
    split_and!.
    + exact Hissued.
    + intros Hlimit. apply Hlen. simpl. lia.
    + intros x Hx. eapply Forall_forall in Hfrom; [|exact Hx].
      destruct Hfrom as [(i & _ & _ & _ & Hne & _ & Hseen & _) _]. split.
      * intros name0 Hname0. rewrite Hanchor in Hname0. injection Hname0 as <-.
        rewrite Hid. congruence.
      * intros title Htitle. specialize (Hseen title Htitle).
        by rewrite elem_of_remove_dups in Hseen.
    + right. exists base_book_name, base_book_id, base_lang, entry, base_book,
        base_vector, hits, candidates.
      split_and!; try done.
      * intros x Hx. eapply Forall_forall in Hfrom; [|exact Hx].
        destruct Hfrom as [(i & ? & ? & ? & _ & _ & _ & ?) Hret]. split_and!; [done| |].
        -- unfold retrieved_books in Hret. by case_bool_decide.
        -- by exists i.
      * by rewrite <- build_drops_out_of_range.
Qed.

(** The user has liked A, the English index holds A and B, one result is
    asked for. *)
Lemma similar_books_filtered_witness :
  let r := get_similar_books_for_user Scenarios.content_engine Scenarios.content_books
             Scenarios.any_vector ["A"] (Some "A") 1 in
  1 ≤ 1
  ∧ r.2 = Some ("english", 2)
  ∧ Z.of_nat (length r.1) ≤ 1
  ∧ (∀ x, x ∈ r.1 → ∀ title, name (rec_book x) = Val title → title ∉ ["A"]).
Proof.
  pose proof (similar_books_filtered Scenarios.content_engine Scenarios.content_books
                Scenarios.any_vector ["A"] (Some "A") 1) as (_ & Hlen & Hmem & _).
  cbv zeta. split_and!; [lia|reflexivity|apply Hlen; lia|].
  intros x Hx. exact (proj2 (Hmem x Hx)).
Defined.

(** C7, against the claim as stated: the anchor is a French book, only the
    English index is resident, and the search goes to the English index. *)
Lemma anchor_language_not_searched :
  book_language_map Scenarios.content_engine !! Scenarios.id_f = Some "french"
  ∧ (get_similar_books_for_user Scenarios.content_engine Scenarios.content_books
       Scenarios.any_vector ["Le Livre"] (Some "Le Livre") 2).2
    = Some ("english", 3)
  ∧ (get_similar_books_for_user Scenarios.content_engine Scenarios.content_books
       Scenarios.any_vector ["Le Livre"] (Some "Le Livre") 2).2
    ≠ Some ("french", 3).
Proof. by vm_compute. Qed.

(** What the amended claim leaves out.  When the index has fewer rows than
    neighbours were asked for, FAISS reports the label -1, which the range
    test [i >= len(all_ids)] lets through and [all_ids[-1]] resolves to the
    last book: here B is returned three times for a limit of 3.  And with a
    limit of 0 the loop appends before it tests the length, so one element
    is returned. *)
Lemma negative_label_and_zero_limit :
  (λ x, (name (rec_book x), similarity_score x)) <$>
    (get_similar_books_for_user Scenarios.content_engine Scenarios.content_books
       Scenarios.any_vector ["A"] (Some "A") 3).1
  = [(Val "B", (8 # 10)%Q); (Val "B", (-1000 # 1)%Q); (Val "B", (-1000 # 1)%Q)]
  ∧ length (get_similar_books_for_user Scenarios.content_engine Scenarios.content_books
              Scenarios.any_vector ["Le Livre"] (Some "Le Livre") 0).1 = 1%nat.
Proof. by vm_compute. Qed.

End ContentQueryFacts.

(** ** The streaming training run and the files it leaves *)

Module ContentTrainingFacts.
Import Bson Catalog ContentTraining.

Lemma write_elsewhere ok path content fs fs' other :
  write ok path content fs = Some fs' → other ≠ path → fs' !! other = fs !! other.
Proof.
  unfold write. destruct (ok path); [|done]. intros [= <-] Hne.
  by rewrite lookup_insert_ne.
Qed.

Lemma dump_all_footprint r fitted paths : ∀ fs other,
  other ∉ paths → (dump_all r fitted paths fs).2 !! other = fs !! other.
Proof.
  induction paths as [|p paths IH]; intros fs other Hother; simpl; [done|].
  apply not_elem_of_cons in Hother as [Hne Hother].
  destruct (write (dump_ok r) p (Joblib fitted) fs) as [fs'|] eqn:Hw; [|done].
  rewrite IH by done. by eapply write_elsewhere.
Qed.

(** When every dump succeeds, the five files hold the new extractors. *)
Lemma dump_all_ok r fitted paths : ∀ fs,
  (∀ p, p ∈ paths → dump_ok r p = true) →
  dump_all r fitted paths fs = (true, foldl (λ fs p, <[p := Joblib fitted]> fs) fs paths).
Proof.
  induction paths as [|p paths IH]; intros fs Hok; simpl; [done|].
  unfold write. rewrite Hok by by left.
  apply IH. intros q Hq. apply Hok. by right.
Qed.

Lemma artifact_model_file path : path ∈ model_files → artifact path.
Proof. by left. Qed.

Lemma write_indices_footprint r bs : ∀ fs other,
  ¬ artifact other → (write_indices r bs fs).2 !! other = fs !! other.
Proof.
  induction bs as [|[lang [vectors lang_ids]] bs IH]; intros fs other Hother; simpl; [done|].
  destruct vectors as [|v vectors]; [by apply IH|].
  destruct (build_ok r lang); simpl; [|done].
  destruct (write (save_ok r) (index_file (py_str lang)) _ fs) as [fs1|] eqn:H1; [|done].
  destruct (write (save_ok r) (ids_file (py_str lang)) _ fs1) as [fs2|] eqn:H2; simpl.
  - rewrite IH by done.
    rewrite (write_elsewhere _ _ _ _ _ other H2), (write_elsewhere _ _ _ _ _ other H1);
      [done| |]; intros ->; apply Hother; right; right; exists (py_str lang); eauto.
  - apply (write_elsewhere _ _ _ _ _ other H1).
    intros ->; apply Hother; right; right; exists (py_str lang); eauto.
Qed.

Lemma finalize_footprint r model_loaded a fs other :
  ¬ artifact other → (_finalize_faiss_indices r model_loaded a fs).2 !! other = fs !! other.
Proof.
  intros Hother. unfold _finalize_faiss_indices.
  assert (∀ p, p ∈ required_files → other ≠ p) as Hreq.
  { intros p Hp ->. apply Hother. right. by left. }
  destruct (write _ "book_ids.npy" _ fs) as [fs1|] eqn:H1; [|done].
  destruct (write _ "book_names.npy" _ fs1) as [fs2|] eqn:H2; simpl.
  2:{ apply (write_elsewhere _ _ _ _ _ other H1), Hreq. set_solver. }
  destruct (write _ "book_langs.npy" _ fs2) as [fs3|] eqn:H3; simpl.
  2:{ rewrite (write_elsewhere _ _ _ _ _ other H2), (write_elsewhere _ _ _ _ _ other H1);
        [done| |]; apply Hreq; set_solver. }
  pose proof (write_indices_footprint r (lang_faiss_builders a) fs3 other Hother) as H4.
  destruct (write_indices r (lang_faiss_builders a) fs3) as [[] fs4]; simpl in *;
    rewrite H4, (write_elsewhere _ _ _ _ _ other H3), (write_elsewhere _ _ _ _ _ other H2),
      (write_elsewhere _ _ _ _ _ other H1); try done; apply Hreq; set_solver.
Qed.

Lemma fit_footprint r fs other :
  ¬ artifact other → (_fit_transformers_on_sample r fs).2 !! other = fs !! other.
Proof.
  intros Hother. unfold _fit_transformers_on_sample, _save_fitted_transformers.
  destruct (sample r); [done|]. destruct (fit r); [|done].
  apply dump_all_footprint. intros Hin. by apply Hother, artifact_model_file.
Qed.




(** What the amended claim leaves out: the result of the last, partial
    chunk is not looked at.  With one book and chunks of five, the transform
    of the only chunk fails, and the finalize phase still writes the global
    arrays, now empty. *)
Lemma last_chunk_failure_ignored :
  (train_model Scenarios.chunk_fails false 5 Scenarios.shelf Scenarios.old_files).2
    !! "book_ids.npy" = Some (NpyIds []).
Proof. by vm_compute. Qed.

End ContentTrainingFacts.

Module CounterBankFacts.
Import Counter.

Lemma increment_while_training s d :
  counters s = Some d → training_in_progress s = true →
  increment_counter s
  = (false, {| counters := Some (set_count (current_count d + 1) d);
               training_in_progress := true;
               started := started s |}).
Proof.
  intros Hd Hflag.
  pose proof (CounterFacts.increment_counter_cases s) as H.
  rewrite Hd in H. cbv zeta in H. rewrite Hflag in H. simpl in H.
  rewrite andb_false_r in H. by rewrite H.
Qed.

Lemma increment_n_while_training n : ∀ s d,
  counters s = Some d → training_in_progress s = true →
  increment_n n s
  = (replicate n false,
     {| counters := Some (set_count (current_count d + Z.of_nat n) d);
        training_in_progress := true;
        started := started s |}).
Proof.
  induction n as [|n IH]; intros s d Hd Hflag.
  - simpl. f_equal. destruct s as [c f st], d as [cc t tr]; simpl in *.
    subst. unfold set_count; simpl. by rewrite Z.add_0_r.
  - cbn [increment_n]. rewrite (increment_while_training s d) by done.
    rewrite (IH _ (set_count (current_count d + 1) d)) by done.
    cbn -[Z.of_nat Z.add]. do 3 f_equal. unfold set_count; cbn -[Z.of_nat Z.add].
    f_equal. lia.
Qed.

(** X1: while a training run is in progress, no call of
    [increment_counter] triggers or resets: [n] calls all return [False]
    and leave the count at its old value plus [n], also past the threshold.
    The increments are not lost: once the run has come to its end (with
    any outcome), the next call triggers exactly when the count it reads
    has reached the threshold, and hands that count to the new thread. *)
Theorem increments_during_training_are_banked (n : nat) (s : state) (d : counter_doc)
    (st : training_status)
    (Hdoc : counters s = Some d)
    (Hbusy : training_in_progress s = true) :
  let '(bs, s1) := increment_n n s in
  let '(b, s2) := increment_counter (finish_training st s1) in
  bs = replicate n false
  ∧ get_current_count s1 = current_count d + Z.of_nat n
  ∧ started s1 = started s
  ∧ training_in_progress s1 = true
  ∧ b = bool_decide (threshold d ≤ current_count d + Z.of_nat n + 1)
  ∧ (b = true →
       started s2 = started s ++ [current_count d + Z.of_nat n + 1]
       ∧ get_current_count s2 = 0)
  ∧ (b = false → get_current_count s2 = current_count d + Z.of_nat n + 1).
Proof.
  rewrite (increment_n_while_training n s d) by done.
  pose proof (CounterFacts.increment_counter_cases
    (finish_training st
       {| counters := Some (set_count (current_count d + Z.of_nat n) d);
          training_in_progress := true; started := started s |})) as H.
  destruct (increment_counter _) as [b s2].
  assert (∃ d', counters (finish_training st
       {| counters := Some (set_count (current_count d + Z.of_nat n) d);
          training_in_progress := true; started := started s |}) = Some d'
       ∧ current_count d' = current_count d + Z.of_nat n
       ∧ threshold d' = threshold d) as (d' & Hd' & Hc & Ht).
  { destruct st; simpl; eexists; (split; [reflexivity|]); done. }
  rewrite Hd' in H. cbv zeta in H. rewrite Hc, Ht in H.
  assert (training_in_progress (finish_training st
       {| counters := Some (set_count (current_count d + Z.of_nat n) d);
          training_in_progress := true; started := started s |}) = false) as Hfree
    by done.
  rewrite Hfree in H. simpl negb in H. rewrite andb_true_r in H.
  assert (started (finish_training st
       {| counters := Some (set_count (current_count d + Z.of_nat n) d);
          training_in_progress := true; started := started s |}) = started s) as Hst
    by done.
  rewrite Hst in H.
  split_and!; try done.
  - destruct (Z.leb_spec (threshold d) (current_count d + Z.of_nat n + 1));
      injection H as -> _; symmetry;
      [by apply bool_decide_eq_true_2|apply bool_decide_eq_false_2; lia].
  - intros ->.
    destruct (Z.leb_spec (threshold d) (current_count d + Z.of_nat n + 1));
      [|discriminate].
    injection H as ->. done.
  - intros ->.
    destruct (Z.leb_spec (threshold d) (current_count d + Z.of_nat n + 1));
      [discriminate|].
    injection H as ->. done.
Qed.

(** Three interactions arrive while a run is in progress on a counter at 8
    of 10; the run fails; the next interaction reads 12 and triggers. *)
Lemma increments_during_training_are_banked_witness :
  let s := {| counters := Some {| current_count := 8; threshold := 10;
                                  total_retrainings := 0 |};
              training_in_progress := true; started := [10] |} in
  (increment_n 3 s).1 = [false; false; false]
  ∧ started (increment_counter (finish_training failed (increment_n 3 s).2)).2 = [10; 12].
Proof.
  pose proof (increments_during_training_are_banked 3
    {| counters := Some {| current_count := 8; threshold := 10; total_retrainings := 0 |};
       training_in_progress := true; started := [10] |}
    {| current_count := 8; threshold := 10; total_retrainings := 0 |}
    failed eq_refl eq_refl) as H.
  cbv zeta.
  destruct (increment_n 3 _) as [bs s1]; simpl.
  destruct (increment_counter (finish_training failed s1)) as [b s2]; simpl.
  destruct H as (Hbs & _ & _ & _ & Hb & Htrue & _).
  split; [exact Hbs|]. apply Htrue. rewrite Hb. reflexivity.
Defined.

End CounterBankFacts.

Module ExclusionFacts.
Import Counter CounterRace Exclusion.

Lemma holders_split l1 p l2 :
  holders (l1 ++ p :: l2)
  = (holders l1 + (if holds_flag p then 1 else 0) + holders l2)%nat.
Proof.
  unfold holders. rewrite filter_app, filter_cons, length_app.
  destruct (holds_flag p); simpl; lia.
Qed.

Lemma holders_insert l i p q :
  l !! i = Some p →
  (holders (<[i:=q]> l) + (if holds_flag p then 1 else 0)
   = holders l + (if holds_flag q then 1 else 0))%nat.
Proof.
  intros Hi.
  rewrite <- (take_drop_middle l i p Hi) at 2.
  rewrite insert_take_drop by (by eapply lookup_lt_Some).
  rewrite !holders_split. lia.
Qed.

Lemma holders_replicate_idle n : holders (replicate n Idle) = 0%nat.
Proof. induction n; [done|]. unfold holders in *. simpl. done. Qed.

Lemma balanced_at_rest n doc : balanced (at_rest n doc).
Proof.
  split; simpl; [lia|]. unfold running; simpl. by rewrite holders_replicate_idle.
Qed.

Lemma balanced_step r e : balanced r → balanced (step r e).
Proof.
  intros [Hle Hbal]. unfold balanced, running in *.
  destruct e as [i|st]; simpl.
  - destruct (calls r !! i) as [p|] eqn:Hp; [|done].
    destruct (step_call p (shared r)) as [p' s'] eqn:Hstep. simpl.
    pose proof (holders_insert (calls r) i p p' Hp) as Hins.
    destruct p as [|c|c|c|b]; simpl in Hstep.
    + unfold find_one_and_update_inc in Hstep.
      destruct (counters (shared r)) as [d|]; simpl in Hstep.
      * destruct (_ <=? _); injection Hstep as <- <-; simpl in *; (split; [done|lia]).
      * injection Hstep as <- <-; simpl in *. split; [done|lia].
    + unfold take_flag in Hstep.
      destruct (training_in_progress (shared r)) eqn:Hflag;
        injection Hstep as <- <-; simpl in *.
      * rewrite Hflag. split; [done|lia].
      * split; [done|lia].
    + injection Hstep as <- <-; simpl in *. split; [done|lia].
    + injection Hstep as <- <-; simpl in *.
      rewrite length_app; simpl.
      destruct (training_in_progress (shared r)); split; lia.
    + injection Hstep as <- <-; simpl in *. split; [done|lia].
  - destruct (Nat.ltb_spec (finished r) (length (started (shared r)))); [|done].
    simpl. destruct (training_in_progress (shared r)); split; lia.
Qed.

Lemma balanced_run schedule : ∀ r, balanced r → balanced (run r schedule).
Proof.
  induction schedule as [|e schedule IH]; intros r Hr; [done|].
  simpl. apply IH. by apply balanced_step.
Qed.

(** X2: whatever the counter document, the number of concurrent calls of
    [increment_counter] and the interleaving of their steps with the ends
    of the background runs, at most one training run is under way at any
    time, a run is under way only while the flag [_training_in_progress]
    is set, and no call holds the flag while a run is under way. *)
Theorem at_most_one_training_runs (n : nat) (doc : option counter_doc)
    (schedule : list event) :
  let r := run (at_rest n doc) schedule in
  (running r ≤ 1)%nat
  ∧ (running r = 1%nat → training_in_progress (shared r) = true ∧ holders (calls r) = 0%nat)
  ∧ (training_in_progress (shared r) = false → running r = 0%nat).
Proof.
  intros r.
  destruct (balanced_run schedule (at_rest n doc) (balanced_at_rest n doc)) as [_ H].
  fold r in H.
  destruct (training_in_progress (shared r)); split_and!; intros; try done; lia.
Qed.

End ExclusionFacts.

Module AuthorCountFacts.
Import Bson AuthorPrefs AuthorCounts AffinityFacts.

Lemma count_of_cons a l x :
  count_of (a :: l) x = if decide (author_name a = x) then preference_count a else count_of l x.
Proof.
  unfold count_of. simpl. destruct (decide (author_name a = x)); [done|].
  by destruct (list_find _ l) as [[i e]|].
Qed.

Lemma count_of_perm l l' x :
  l ≡ₚ l' → NoDup (names l) → count_of l x = count_of l' x.
Proof.
  induction 1 as [|a l l' Hp IH|a b l|l l' l'' Hp1 IH1 Hp2 IH2]; intros Hnd.
  - done.
  - rewrite !count_of_cons. case_decide; [done|].
    apply IH. unfold names in Hnd. rewrite fmap_cons in Hnd. by apply NoDup_cons in Hnd as [_ ?].
  - rewrite !count_of_cons. unfold names in Hnd. rewrite !fmap_cons in Hnd.
    apply NoDup_cons in Hnd as [Hab _]. repeat case_decide; try done.
    exfalso. apply Hab. apply elem_of_cons. left. congruence.
  - rewrite IH1 by done. apply IH2. unfold names in *. by rewrite <- Hp1.
Qed.

Lemma count_of_absent l x : x ∉ names l → count_of l x = 0.
Proof. intros Hn. unfold count_of. by rewrite find_absent. Qed.

Lemma count_of_middle l1 a l2 x :
  NoDup (names (l1 ++ a :: l2)) →
  count_of (l1 ++ a :: l2) x
  = if decide (author_name a = x) then preference_count a else count_of (l1 ++ l2) x.
Proof.
  intros Hnd. rewrite (count_of_perm _ (a :: l1 ++ l2)); [|by rewrite Permutation_middle|done].
  apply count_of_cons.
Qed.

Lemma first_occurrence name l :
  name ∈ names l →
  ∃ l1 a l2, l = l1 ++ a :: l2 ∧ (name ∉ names l1) ∧ author_name a = name.
Proof.
  induction l as [|y l IH]; intros Hin.
  - by apply elem_of_nil in Hin.
  - destruct (decide (author_name y = name)) as [Hy|Hy].
    + exists [], y, l. split_and!; [done| |done]. apply not_elem_of_nil.
    + unfold names in Hin. rewrite fmap_cons in Hin.
      apply elem_of_cons in Hin as [Hin|Hin]; [congruence|].
      destruct (IH Hin) as (l1 & a & l2 & -> & Hn1 & Ha).
      exists (y :: l1), a, l2. split_and!; [done| |done].
      unfold names. rewrite fmap_cons. apply not_elem_of_cons. split; [congruence|done].
Qed.

(** What [updated_authors] does, by whether the author has an entry. *)
Lemma updated_authors_cases name b w l :
  ((name ∉ names l)
   ∧ updated_authors name b w l
     = if 0 <? w then sort_desc preference_count (l ++ [new_author name b w]) else l)
  ∨ (∃ l1 a l2, l = l1 ++ a :: l2 ∧ (name ∉ names l1) ∧ author_name a = name
       ∧ updated_authors name b w l
         = if preference_count (touch w b a) <=? 0 then l1 ++ l2
           else sort_desc preference_count (l1 ++ touch w b a :: l2)).
Proof.
  destruct (decide (name ∈ names l)) as [Hin|Hn].
  - right. destruct (first_occurrence name l Hin) as (l1 & a & l2 & -> & Hn1 & Ha).
    exists l1, a, l2. split_and!; try done.
    unfold updated_authors. rewrite scan_skip by done.
    cbn [scan]. rewrite Ha, eqb_refl. rewrite app_nil_l.
    by destruct (preference_count (touch w b a) <=? 0).
  - left. split; [done|]. unfold updated_authors. rewrite scan_absent by done. simpl.
    done.
Qed.

Lemma names_sort l : names (sort_desc preference_count l) ≡ₚ names l.
Proof. unfold names. by rewrite (sort_desc_perm preference_count l). Qed.

Lemma names_app l1 l2 : names (l1 ++ l2) = names l1 ++ names l2.
Proof. unfold names. by rewrite fmap_app. Qed.

Lemma names_cons a l : names (a :: l) = author_name a :: names l.
Proof. done. Qed.

Lemma updated_authors_nodup name b w l :
  NoDup (names l) → NoDup (names (updated_authors name b w l)).
Proof.
  intros Hnd.
  destruct (updated_authors_cases name b w l)
    as [[Hn ->]|(l1 & a & l2 & -> & Hn1 & Ha & ->)].
  - destruct (0 <? w); [|done]. rewrite names_sort, names_app. simpl.
    apply NoDup_app. split_and!; [done| |apply NoDup_singleton].
    intros x Hx ->%list_elem_of_singleton. done.
  - rewrite names_app, names_cons in Hnd.
    destruct (_ <=? 0).
    + rewrite names_app. apply NoDup_app in Hnd as (H1 & H12 & H2).
      apply NoDup_cons in H2 as [_ H2]. apply NoDup_app. split_and!; [done| |done].
      intros x Hx Hx2. apply (H12 x Hx). by apply elem_of_cons; right.
    + by rewrite names_sort, names_app, names_cons.
Qed.

Lemma updated_authors_positive name b w l :
  w = 1 ∨ w = -1 → Forall positive l → Forall positive (updated_authors name b w l).
Proof.
  intros Hw Hp.
  destruct (updated_authors_cases name b w l)
    as [[Hn ->]|(l1 & a & l2 & -> & Hn1 & Ha & ->)].
  - destruct (Z.ltb_spec 0 w); [|done]. apply sort_desc_Forall, Forall_app. split; [done|].
    constructor; [|done]. unfold positive. simpl. lia.
  - apply Forall_app in Hp as [Hp1 Hp2]. apply Forall_cons in Hp2 as [Hpa Hp2].
    destruct (Z.leb_spec (preference_count (touch w b a)) 0).
    + apply Forall_app. done.
    + apply sort_desc_Forall, Forall_app. split; [done|]. constructor; [|done].
      unfold positive. lia.
Qed.

Lemma updated_authors_count name b w l x :
  w = 1 ∨ w = -1 → well_formed l →
  count_of (updated_authors name b w l) x
  = if decide (x = name) then Z.max (count_of l name + w) 0 else count_of l x.
Proof.
  intros Hw [Hnd Hp].
  destruct (updated_authors_cases name b w l)
    as [[Hn ->]|(l1 & a & l2 & -> & Hn1 & Ha & ->)].
  - rewrite (count_of_absent l name) by done.
    destruct (Z.ltb_spec 0 w).
    + assert (NoDup (names (l ++ [new_author name b w]))) as Hnd'.
      { rewrite names_app. simpl. apply NoDup_app. split_and!; [done| |apply NoDup_singleton].
        intros y Hy ->%list_elem_of_singleton. done. }
      rewrite (count_of_perm _ (l ++ [new_author name b w]));
        [|apply sort_desc_perm|by rewrite names_sort].
      rewrite count_of_middle by done. simpl. rewrite app_nil_r.
      repeat case_decide; try congruence. lia.
    + case_decide; [|done]. subst. rewrite count_of_absent by done. lia.
  - assert (name ∉ names (l1 ++ l2)) as Hn12.
    { rewrite names_app, names_cons in Hnd. apply NoDup_app in Hnd as (H1 & H12 & H2).
      apply NoDup_cons in H2 as [Hna H2]. rewrite names_app. apply not_elem_of_app.
      split; [done|]. by rewrite <- Ha. }
    assert (NoDup (names (l1 ++ touch w b a :: l2))) as Hnd'
      by (by rewrite names_app, names_cons in *).
    apply Forall_app in Hp as [Hp1 Hp2]. apply Forall_cons in Hp2 as [Hpa Hp2].
    unfold positive in Hpa.
    rewrite (count_of_middle l1 a l2 name) by done.
    rewrite (decide_True (P:=author_name a = name)) by done.
    rewrite (count_of_middle l1 a l2 x) by done.
    destruct (Z.leb_spec (preference_count (touch w b a)) 0) as [Hle|Hgt].
    + case_decide as Hx.
      * subst x. rewrite count_of_absent by done. simpl in Hle. lia.
      * rewrite decide_False by congruence. done.
    + rewrite (count_of_perm _ (l1 ++ touch w b a :: l2));
        [|apply sort_desc_perm|by rewrite names_sort].
      rewrite count_of_middle by done. simpl.
      case_decide as Hx.
      * subst x. rewrite decide_True by done. done.
      * rewrite decide_False by congruence. done.
Qed.

Lemma weights_like_or_dislike action :
  action = "like" ∨ action = "dislike" → weights action = 1 ∨ weights action = -1.
Proof. intros [->| ->]; [by left|by right]. Qed.

Lemma truthy_strip a : PyStr.truthy (PyStr.strip a) = true → PyStr.truthy a = true.
Proof. by destruct a. Qed.

(** The list of one user after [update_author_preference] went through. *)
Lemma update_author_preference_list (db : collection) u a action b uid :
  ObjectId u = Some uid →
  PyStr.truthy (PyStr.strip a) = true →
  action = "like" ∨ action = "dislike" →
  let db' := (update_author_preference db u a action b).2 in
  user_authors db' uid
  = match db !! uid with
    | Some doc => updated_authors (PyStr.strip a) b (weights action) (sorted_authors doc)
    | None => if 0 <? weights action
              then [initial_author (PyStr.strip a) b (weights action)] else []
    end
  ∧ ∀ uid', uid' ≠ uid → user_authors db' uid' = user_authors db uid'.
Proof.
  intros Hu Ha Hact. unfold update_author_preference.
  rewrite Ha, (truthy_strip a Ha), Hu. simpl.
  destruct (weights_like_or_dislike action Hact) as [Hw|Hw]; rewrite Hw; simpl;
    unfold user_authors; destruct (db !! uid) as [doc|] eqn:Hdoc; simpl;
    rewrite lookup_insert_eq; (split; [done|]);
    intros uid' Hne; by rewrite lookup_insert_ne.
Qed.

(** X3: [update_author_preference] with a like or a dislike for a
    non-blank author name, on a list in which every author appears once
    with a count of at least 1, moves the count of that author (taken as 0
    when the author has no entry) by +1 or -1, never below 0, and leaves
    the count of every other author as it was; the list stays in that
    form, and the lists of the other users are not touched. *)
Theorem author_count_after_update (db : collection) (u a action b : string)
    (uid : oid) (x : string)
    (Hu : ObjectId u = Some uid)
    (Ha : PyStr.truthy (PyStr.strip a) = true)
    (Hact : action = "like" ∨ action = "dislike")
    (Hwf : well_formed (user_authors db uid)) :
  let db' := (update_author_preference db u a action b).2 in
  count_in db' uid x
  = (if decide (x = PyStr.strip a)
     then Z.max (count_in db uid (PyStr.strip a) + weights action) 0
     else count_in db uid x)
  ∧ well_formed (user_authors db' uid)
  ∧ (∀ uid', uid' ≠ uid → user_authors db' uid' = user_authors db uid').
Proof.
  intros db'.
  destruct (update_author_preference_list db u a action b uid Hu Ha Hact) as [Hl Hothers].
  fold db' in Hl, Hothers.
  pose proof (weights_like_or_dislike action Hact) as Hw.
  split_and!; [| |done]; unfold count_in; rewrite Hl; unfold user_authors in *;
    destruct (db !! uid) as [doc|].
  - by apply updated_authors_count.
  - destruct Hw as [-> | ->]; simpl.
    + rewrite count_of_cons. simpl.
      repeat case_decide; try congruence; done.
    + by case_decide.
  - destruct Hwf. split; [by apply updated_authors_nodup|by apply updated_authors_positive].
  - destruct Hw as [-> | ->]; simpl.
    + split; [apply NoDup_singleton|]. repeat constructor. unfold positive. simpl. lia.
    + split; [apply NoDup_nil_2|constructor].
Qed.

(** A user whose only entry is Y with count 2 dislikes a book of Y. *)
Lemma author_count_after_update_witness :
  let y2 := {| author_name := "Y"; preference_count := 2; books_liked := ["B"; "C"];
               books_disliked := []; total_interactions := 2 |} in
  let db : collection :=
    {[ Scenarios.alice := {| sorted_authors := [y2]; total_authors := 1 |} ]} in
  count_in (update_author_preference db Scenarios.alice " Y " "dislike" "D").2
    Scenarios.alice "Y" = 1.
Proof.
  cbv zeta.
  refine (eq_trans (proj1 (author_count_after_update _ Scenarios.alice " Y " "dislike" "D"
                      Scenarios.alice "Y" eq_refl eq_refl (or_intror eq_refl) _)) _).
  - split.
    + vm_compute. apply NoDup_singleton.
    + vm_compute. repeat constructor. discriminate.
  - reflexivity.
Defined.

Lemma remove_names (db : collection) u a action b uid :
  names (user_authors (remove_author_preference db u a action b).2 uid)
  = names (user_authors db uid).
Proof.
  unfold remove_author_preference.
  destruct (ObjectId u) as [uid'|]; [|done].
  destruct (db !! uid') as [doc|] eqn:Hdoc; [|done]. simpl.
  unfold user_authors. destruct (decide (uid' = uid)) as [->|Hne].
  - rewrite lookup_insert_eq, Hdoc. simpl. unfold names.
    rewrite <- list_fmap_compose. apply list_fmap_ext. intros i e _. simpl.
    by destruct (PyStr.eqb (author_name e) a).
  - by rewrite lookup_insert_ne.
Qed.

Lemma update_nodup (db : collection) u a action b uid :
  NoDup (names (user_authors db uid)) →
  NoDup (names (user_authors (update_author_preference db u a action b).2 uid)).
Proof.
  intros Hnd. unfold update_author_preference.
  destruct (negb _ || negb _); [done|].
  destruct (ObjectId u) as [uid'|]; [|done].
  destruct (weights action =? 0); [done|].
  unfold user_authors in *.
  destruct (decide (uid' = uid)) as [->|Hne].
  - destruct (db !! uid) as [doc|]; simpl; rewrite lookup_insert_eq; simpl.
    + by apply updated_authors_nodup.
    + destruct (0 <? weights action); [apply NoDup_singleton|apply NoDup_nil_2].
  - destruct (db !! uid') as [doc|]; simpl; by rewrite lookup_insert_ne.
Qed.

(** X4: no sequence of [update_author_preference] and
    [remove_author_preference] calls, whatever its arguments, gives an
    author a second entry in a user's list: when the names of the stored
    list are pairwise distinct before, they are so afterwards. *)
Theorem one_entry_per_author (ops : list op) (db : collection) (uid : oid)
    (Hnd : NoDup (names (user_authors db uid))) :
  NoDup (names (user_authors (run_ops db ops) uid)).
Proof.
  revert db Hnd. induction ops as [|o ops IH]; intros db Hnd; [done|].
  simpl. apply IH. destruct o as [u a act b|u a act b]; simpl.
  - by apply update_nodup.
  - by rewrite remove_names.
Qed.

(** The sequence of the removal scenario, on a user with nothing stored. *)
Lemma one_entry_per_author_witness :
  NoDup (names (user_authors (run_ops ∅ Scenarios.withdraw_first_like) Scenarios.alice)).
Proof.
  apply (one_entry_per_author Scenarios.withdraw_first_like ∅ Scenarios.alice).
  apply NoDup_nil_2.
Defined.

End AuthorCountFacts.

Module PyStrFacts.
Import PyStr PyStrShape.

Lemma append_cons a s t : String a s +:+ t = String a (s +:+ t).
Proof. done. Qed.

Lemma append_nil_r s : s +:+ "" = s.
Proof. induction s as [|a s IH]; [done|]. by rewrite append_cons, IH. Qed.

Lemma append_assoc s t u : (s +:+ t) +:+ u = s +:+ (t +:+ u).
Proof. induction s as [|a s IH]; [done|]. by rewrite !append_cons, IH. Qed.

Lemma rev_app_spec s : ∀ acc, String.rev_app s acc = String.rev s +:+ acc.
Proof.
  unfold String.rev. induction s as [|a s IH]; intros acc; [done|].
  simpl. rewrite IH, (IH (String a "")). by rewrite append_assoc.
Qed.

Lemma rev_cons a s : String.rev (String a s) = String.rev s +:+ String a "".
Proof. unfold String.rev at 1. simpl. by rewrite rev_app_spec. Qed.

Lemma rev_app s t : String.rev (s +:+ t) = String.rev t +:+ String.rev s.
Proof.
  induction s as [|a s IH].
  - by rewrite append_nil_r.
  - by rewrite append_cons, !rev_cons, IH, append_assoc.
Qed.

Lemma rev_involutive s : String.rev (String.rev s) = s.
Proof.
  induction s as [|a s IH]; [done|].
  by rewrite rev_cons, rev_app, IH.
Qed.

Lemma append_inj_r s t u : s +:+ u = t +:+ u → s = t.
Proof.
  intros H. apply (f_equal String.rev) in H. rewrite !rev_app in H.
  apply String.app_inj in H. apply (f_equal String.rev) in H.
  by rewrite !rev_involutive in H.
Qed.

Lemma lstrip_no_lead s : no_lead (lstrip s).
Proof.
  induction s as [|a s IH]; [done|]. simpl.
  by destruct (is_space a) eqn:Ha.
Qed.

Lemma no_lead_lstrip s : no_lead s → lstrip s = s.
Proof. destruct s as [|a s]; [done|]. simpl. by intros ->. Qed.

Lemma lstrip_idemp s : lstrip (lstrip s) = lstrip s.
Proof. apply no_lead_lstrip, lstrip_no_lead. Qed.

Lemma rstrip_idemp s : rstrip (rstrip s) = rstrip s.
Proof. unfold rstrip. by rewrite rev_involutive, lstrip_idemp. Qed.

(** Stripping on the left of a string that ends in a non-space character
    keeps that character. *)
Lemma lstrip_snoc s a :
  is_space a = false → ∃ u, lstrip (s +:+ String a "") = u +:+ String a "".
Proof.
  intros Ha. induction s as [|b s [u Hu]].
  - simpl. rewrite Ha. by exists "".
  - rewrite append_cons. simpl. destruct (is_space b); [by exists u|]. by exists (String b s).
Qed.

Lemma rstrip_no_lead s : no_lead s → no_lead (rstrip s).
Proof.
  destruct s as [|a s]; [done|]. simpl. intros Ha.
  unfold rstrip. rewrite rev_cons.
  destruct (lstrip_snoc (String.rev s) a Ha) as [u ->].
  rewrite rev_app. simpl. done.
Qed.

Lemma strip_no_lead s : no_lead (strip s).
Proof. apply rstrip_no_lead, lstrip_no_lead. Qed.

(** [strip] is idempotent. *)
Lemma strip_idemp s : strip (strip s) = strip s.
Proof.
  unfold strip at 1. rewrite (no_lead_lstrip (strip s)) by apply strip_no_lead.
  unfold strip. apply rstrip_idemp.
Qed.

Lemma strip_stripped s : stripped (strip s).
Proof. apply strip_idemp. Qed.

Lemma truthy_true s : truthy s = true ↔ s ≠ "".
Proof. destruct s; simpl; split; done. Qed.

Lemma stripped_no_lead s : stripped s → no_lead s.
Proof. intros <-. apply strip_no_lead. Qed.

Lemma stripped_rstrip s : stripped s → rstrip s = s.
Proof.
  intros Hs. pose proof (stripped_no_lead s Hs) as Hn.
  unfold stripped, strip in Hs. by rewrite (no_lead_lstrip s Hn) in Hs.
Qed.

End PyStrFacts.

Module ParseGenresFacts.
Import PyStr PyStrShape PyStrFacts Catalog Interactions.

Lemma strip_nonempty_elem l g :
  g ∈ strip_nonempty l → g ≠ "" ∧ stripped g.
Proof.
  unfold strip_nonempty. intros (x & -> & Hx)%list_elem_of_fmap.
  apply list_elem_of_filter in Hx as [Hx _]. apply Is_true_true in Hx.
  split; [by apply truthy_true|apply strip_stripped].
Qed.

Lemma strip_nonempty_fixed l :
  Forall (λ g, g ≠ "" ∧ stripped g) l → strip_nonempty l = l.
Proof.
  induction 1 as [|g l [Hne Hs] Hl IH]; [done|].
  unfold strip_nonempty in *. rewrite filter_cons.
  rewrite decide_True.
  - rewrite fmap_cons, IH. by rewrite Hs.
  - apply Is_true_true, truthy_true. by rewrite Hs.
Qed.

Lemma parse_genres_elem x g :
  g ∈ _parse_genres x → g ≠ "" ∧ stripped g.
Proof.
  destruct x as [s|l|]; simpl; [apply strip_nonempty_elem|apply strip_nonempty_elem|].
  by intros ?%elem_of_nil.
Qed.

(** X5: every genre that [_parse_genres] returns is non-empty and has no
    white space at either end, whatever the argument (a string, a list, or
    anything else); parsing the returned list again returns it unchanged. *)
Theorem parse_genres_clean (x : genres_arg) :
  Forall (λ g, g ≠ "" ∧ strip g = g) (_parse_genres x)
  ∧ _parse_genres (GenresList (_parse_genres x)) = _parse_genres x.
Proof.
  assert (Forall (λ g, g ≠ "" ∧ stripped g) (_parse_genres x)) as H
    by (apply Forall_forall; intros g; apply parse_genres_elem).
  split; [exact H|]. simpl. by apply strip_nonempty_fixed.
Qed.

Lemma split_on_lacks c x : lacks c x → split_on c x = [x].
Proof.
  induction x as [|a x IH]; [done|]. simpl. intros [Ha Hx].
  rewrite (proj2 (Ascii.eqb_neq a c)) by done. by rewrite IH.
Qed.

Lemma split_on_sep c x t :
  lacks c x → split_on c (x +:+ String c t) = x :: split_on c t.
Proof.
  induction x as [|a x IH]; intros Hx.
  - simpl. by rewrite Ascii.eqb_refl.
  - destruct Hx as [Ha Hx]. rewrite append_cons. simpl.
    rewrite (proj2 (Ascii.eqb_neq a c)) by done. by rewrite IH.
Qed.

Lemma split_on_cons_other c a s :
  a ≠ c →
  split_on c (String a s)
  = match split_on c s with h :: t => String a h :: t | [] => [String a ""] end.
Proof. intros Ha. simpl. by rewrite (proj2 (Ascii.eqb_neq a c)). Qed.

Lemma join_cons2 x y l : join (x :: y :: l) = x +:+ String "," (String " " (join (y :: l))).
Proof. done. Qed.

(** Splitting a joined list at the commas gives the elements back, each
    but the first behind the blank that [join] put after the comma. *)
Lemma split_join x l :
  Forall (lacks ",") (x :: l) →
  split_on "," (join (x :: l)) = x :: (String " " <$> l).
Proof.
  revert x. induction l as [|y l IH]; intros x Hl.
  - apply Forall_cons in Hl as [Hx _]. simpl. by apply split_on_lacks.
  - apply Forall_cons in Hl as [Hx Hl]. rewrite join_cons2.
    rewrite split_on_sep by done.
    rewrite split_on_cons_other by done.
    by rewrite IH.
Qed.

Lemma strip_blank s : strip (String " " s) = strip s.
Proof. done. Qed.

(** X6: the genre string that [_format_book_info] builds from a catalog
    list (joined with a comma and a blank) is parsed back by
    [_parse_genres] into that list, provided every genre is non-empty ASCII
    text with no white space at either end and no comma.  This is how the
    genres of a recommended book come back in a like request. *)
Theorem format_then_parse_genres (b : book) (l : list string)
    (Hgenres : genres b = Val (Lst l))
    (Hclean : Forall clean l) :
  info_genres (_format_book_info b) = Some (join l)
  ∧ _parse_genres (GenresStr (join l)) = l.
Proof.
  split; [unfold _format_book_info, joined; simpl; by rewrite Hgenres|]. simpl.
  destruct l as [|x l]; [by vm_compute|].
  rewrite split_join by (eapply Forall_impl; [exact Hclean|]; by intros g (_ & _ & _ & ?)).
  apply Forall_cons in Hclean as [(Hx & _ & Hsx & _) Hl].
  unfold strip_nonempty. rewrite filter_cons, decide_True
    by (apply Is_true_true, truthy_true; by rewrite Hsx).
  rewrite fmap_cons, Hsx. f_equal. clear Hgenres.
  induction Hl as [|g l (Hg & _ & Hsg & _) Hl IH]; [done|].
  rewrite fmap_cons, filter_cons, decide_True
    by (apply Is_true_true, truthy_true; by rewrite strip_blank, Hsg).
  by rewrite fmap_cons, strip_blank, Hsg, IH.
Qed.

Lemma format_then_parse_genres_witness :
  _parse_genres (GenresStr (join ["Fantasy"; "Science Fiction"; "Young Adult"]))
  = ["Fantasy"; "Science Fiction"; "Young Adult"].
Proof.
  assert (Forall clean ["Fantasy"; "Science Fiction"; "Young Adult"]) as Hclean.
  { repeat apply Forall_cons_2; [| | |apply Forall_nil_2];
      (split_and!; [discriminate|simpl; repeat split; by apply Nat.ltb_lt|reflexivity
                   |simpl; repeat split; discriminate]). }
  exact (proj2 (format_then_parse_genres
    {| book_id := "b0000000000000000000000e"; name := Val "E"; author := Absent;
       genres := Val (Lst ["Fantasy"; "Science Fiction"; "Young Adult"]);
       summary := Absent; language_of_book := Absent; star_rating := None;
       num_ratings := Absent; popularity_score := Absent |}
    ["Fantasy"; "Science Fiction"; "Young Adult"] eq_refl Hclean)).
Defined.

End ParseGenresFacts.

Module LanguageFacts.
Import PyStr PyStrShape PyStrFacts Catalog Cascade.

Lemma eqb_sym s t : eqb s t = eqb t s.
Proof. unfold eqb. apply bool_decide_ext. split; congruence. Qed.

Lemma existsb_ext {A} (f g : A → bool) l :
  (∀ x, f x = g x) → existsb f l = existsb g l.
Proof. intros H. induction l as [|x l IH]; [done|]. simpl. by rewrite H, IH. Qed.

Lemma contains_empty s : contains s "" = true.
Proof. by destruct s. Qed.

Lemma languages_match_comm a b : _languages_match a b = _languages_match b a.
Proof.
  unfold _languages_match.
  rewrite (eqb_sym (strip (lower a))).
  destruct (eqb _ _); [done|].
  rewrite (orb_comm (contains (strip (lower a)) _)).
  destruct (_ || _); [done|].
  apply existsb_ext. intros [main_lang alternatives].
  rewrite (orb_comm (eqb (strip (lower b)) main_lang && _)).
  by rewrite (andb_comm (mem (strip (lower b)) alternatives)).
Qed.

(** X7: [_languages_match] does not depend on the order of its two
    arguments. *)
Theorem languages_match_symmetric (book_language user_language : string) :
  _languages_match book_language user_language
  = _languages_match user_language book_language.
Proof. apply languages_match_comm. Qed.

Lemma languages_match_blank b u :
  strip (lower u) = "" → _languages_match b u = true.
Proof.
  intros Hu. unfold _languages_match. rewrite Hu.
  destruct (eqb _ _); [done|]. by rewrite contains_empty.
Qed.

(** X8: a user language that is empty or made of white space only matches
    every book language, because the empty string is contained in every
    string: a language list with one such entry lets every book pass
    [_meets_language_requirement]. *)
Theorem blank_language_matches_every_book (info : book_info)
    (user_languages : list string) (blank : string)
    (Hblank : strip (lower blank) = "")
    (Hin : blank ∈ user_languages) :
  (∀ book_language,
     _languages_match book_language blank = true
     ∧ _languages_match blank book_language = true)
  ∧ _meets_language_requirement info user_languages = true.
Proof.
  split.
  - intros b. split; [|rewrite languages_match_comm]; by apply languages_match_blank.
  - unfold _meets_language_requirement.
    destruct user_languages as [|u l] eqn:Hl; [done|]. rewrite <- Hl in *.
    destruct (info_language_of_book info) as [bl|]; [|done].
    destruct (truthy bl); [|done].
    apply existsb_exists. exists blank. split; [by apply list_elem_of_In|].
    by apply languages_match_blank.
Qed.

Lemma blank_language_matches_every_book_witness :
  let info := _format_book_info (Scenarios.plain_book "b0000000000000000000000e" "E") in
  _meets_language_requirement info ["french"; "  "] = true.
Proof.
  cbv zeta.
  refine (proj2 (blank_language_matches_every_book
                   (_format_book_info (Scenarios.plain_book "b0000000000000000000000e" "E"))
                   ["french"; "  "] "  " eq_refl _)).
  apply elem_of_cons. right. apply elem_of_cons. by left.
Defined.

(** X9: the language filter is monotone on non-empty preference lists: a
    book that passes for a non-empty list of user languages passes for
    every list that contains those languages.  The empty list is the
    exception the code makes: it lets every book pass. *)
Theorem more_languages_hide_no_book (info : book_info) (l l' : list string)
    (Hne : l ≠ [])
    (Hsub : l ⊆ l')
    (Hok : _meets_language_requirement info l = true) :
  _meets_language_requirement info l' = true
  ∧ _meets_language_requirement info [] = true.
Proof.
  split; [|done]. unfold _meets_language_requirement in *.
  destruct l as [|u l0] eqn:Hl; [done|]. rewrite <- Hl in *.
  destruct l' as [|u' l0'] eqn:Hl'; [done|]. rewrite <- Hl' in *.
  destruct (info_language_of_book info) as [bl|]; [|done].
  destruct (truthy bl); [|done].
  apply existsb_exists in Hok as (x & Hx & Hm).
  apply existsb_exists. exists x. split; [|done].
  apply list_elem_of_In, Hsub. by apply list_elem_of_In.
Qed.

Lemma more_languages_hide_no_book_witness :
  let info := _format_book_info (Scenarios.plain_book "b0000000000000000000000e" "E") in
  _meets_language_requirement info ["en"; "french"] = true.
Proof.
  cbv zeta.
  refine (proj1 (more_languages_hide_no_book
                   (_format_book_info (Scenarios.plain_book "b0000000000000000000000e" "E"))
                   ["en"] ["en"; "french"] _ _ eq_refl)).
  - discriminate.
  - intros x Hx. apply elem_of_cons. left. by apply list_elem_of_singleton in Hx.
Defined.

End LanguageFacts.

Module InteractionStoreFacts.
Import Bson Catalog Interactions InteractionQueries InteractionsFacts LikeDislikeFacts.

Lemma matches_key uid name i : matches uid name i = true ↔ key i = (uid, name).
Proof.
  unfold matches, key. rewrite andb_true_iff, !bool_decide_eq_true.
  split; [by intros [-> ->]|by intros [= -> ->]].
Qed.

Lemma matches_not_key uid name i : matches uid name i = false ↔ key i ≠ (uid, name).
Proof. rewrite <- matches_key. by destruct (matches uid name i). Qed.

(** The first matching document, and what the three single-document
    operations do with it. *)
Lemma first_match uid name l :
  match find_interaction uid name l with
  | Some e =>
      ∃ l1 l2, l = l1 ++ e :: l2
        ∧ Forall (λ i, key i ≠ (uid, name)) l1
        ∧ key e = (uid, name)
        ∧ (∀ act now gs,
             set_interaction uid name act now gs l = l1 ++ retouched act now gs e :: l2)
        ∧ delete_one uid name l = (true, l1 ++ l2)
  | None =>
      Forall (λ i, key i ≠ (uid, name)) l
      ∧ (∀ act now gs, set_interaction uid name act now gs l = l)
      ∧ delete_one uid name l = (false, l)
  end.
Proof.
  unfold find_interaction. induction l as [|i l IH]; [done|].
  cbn [list_find set_interaction delete_one].
  destruct (matches uid name i) eqn:Hi.
  - rewrite decide_True by done. simpl.
    exists [], l. split_and!; try done. by apply matches_key.
  - simpl.
    destruct (list_find _ l) as [[n e]|]; simpl in *.
    + destruct IH as (l1 & l2 & -> & H1 & He & Hset & Hdel).
      exists (i :: l1), l2. split_and!; try done.
      * constructor; [by apply matches_not_key|done].
      * intros act now gs. by rewrite Hset.
      * by rewrite Hdel.
    + destruct IH as (Hall & Hset & Hdel). split_and!.
      * constructor; [by apply matches_not_key|done].
      * intros act now gs. by rewrite Hset.
      * by rewrite Hdel.
Qed.

Lemma find_interaction_here uid name l1 e l2 :
  Forall (λ i, key i ≠ (uid, name)) l1 → key e = (uid, name) →
  find_interaction uid name (l1 ++ e :: l2) = Some e.
Proof.
  intros H1 He. unfold find_interaction.
  induction H1 as [|i l1 Hi H1 IH]; simpl.
  - rewrite decide_True; [done|]. apply Is_true_true. by apply matches_key.
  - rewrite decide_False; [|rewrite Is_true_true; by intros ?%matches_key].
    by destruct (list_find _ (l1 ++ e :: l2)) as [[? ?]|]; simplify_eq.
Qed.

Lemma find_interaction_none uid name l :
  Forall (λ i, key i ≠ (uid, name)) l → find_interaction uid name l = None.
Proof.
  intros H. unfold find_interaction.
  induction H as [|i l Hi H IH]; [done|]. simpl.
  rewrite decide_False; [|rewrite Is_true_true; by intros ?%matches_key].
  by destruct (list_find _ l) as [[? ?]|].
Qed.

Lemma find_interaction_key uid name l e :
  find_interaction uid name l = Some e → key e = (uid, name) ∧ e ∈ l.
Proof.
  intros H. pose proof (first_match uid name l) as Hf. rewrite H in Hf.
  destruct Hf as (l1 & l2 & -> & _ & He & _). split; [done|].
  apply elem_of_app. right. by apply elem_of_cons; left.
Qed.

(** Looking for another key passes over a document. *)
Lemma find_interaction_skip uid name l1 e l2 :
  key e ≠ (uid, name) →
  find_interaction uid name (l1 ++ e :: l2) = find_interaction uid name (l1 ++ l2).
Proof.
  intros He. unfold find_interaction. induction l1 as [|i l1 IH]; simpl.
  - rewrite decide_False; [|rewrite Is_true_true; by intros ?%matches_key].
    by destruct (list_find _ l2) as [[? ?]|].
  - destruct (decide _); [done|].
    destruct (list_find _ (l1 ++ e :: l2)) as [[? ?]|],
             (list_find _ (l1 ++ l2)) as [[? ?]|]; simpl in *; congruence.
Qed.

Lemma find_interaction_replace uid name l1 e e' l2 :
  key e ≠ (uid, name) → key e' = key e →
  find_interaction uid name (l1 ++ e' :: l2) = find_interaction uid name (l1 ++ e :: l2).
Proof.
  intros He He'. rewrite !find_interaction_skip; [done|done|by rewrite He'].
Qed.

Lemma find_interaction_snoc uid name l r :
  key r ≠ (uid, name) →
  find_interaction uid name (l ++ [r]) = find_interaction uid name l.
Proof. intros Hr. rewrite find_interaction_skip by done. by rewrite app_nil_r. Qed.

Lemma key_retouched act now gs e : key (retouched act now gs e) = key e.
Proof. done. Qed.

(** What [like_book] leaves in the interaction collection. *)
Lemma like_book_interactions books now w uid_str uid name a genres :
  ObjectId uid_str = Some uid →
  (like_book books now w uid_str name a genres).1 = true
  ∧ interactions (like_book books now w uid_str name a genres).2
    = match find_interaction uid name (interactions w) with
      | Some e =>
          if PyStr.eqb (action e) "like" then interactions w
          else set_interaction uid name "like" now (_parse_genres genres) (interactions w)
      | None =>
          interactions w ++ [inserted uid name a "like" now (_parse_genres genres)]
      end.
Proof.
  intros Hu.
  pose proof (update_user_language_only books uid_str name w) as (Hi & _).
  unfold like_book. rewrite Hu. cbv zeta.
  destruct (find_interaction uid name (interactions w)) as [e|].
  - destruct (PyStr.eqb (action e) "like"); [done|]. cbn [fst snd]. split; [done|].
    match goal with |- context [after_store ?u ?x ?act ?n ?w'] =>
      destruct (after_store_fields u x act n w') as (_ & ->) end.
    destruct (PyStr.eqb (action e) "dislike"); simpl; by rewrite Hi.
  - cbn [fst snd]. split; [done|].
    match goal with |- context [after_store ?u ?x ?act ?n ?w'] =>
      destruct (after_store_fields u x act n w') as (_ & ->) end.
    simpl. by rewrite Hi.
Qed.

(** What [dislike_book] leaves in the interaction collection, also when it
    returns [False] because the author string is empty. *)
Lemma dislike_book_interactions books now w uid_str uid name a genres :
  ObjectId uid_str = Some uid →
  ((dislike_book books now w uid_str name a genres).1 = true →
   get_user_interaction w uid name = Some "dislike" ∨ is_Some (PyStr.first_char a))
  ∧ interactions (dislike_book books now w uid_str name a genres).2
  = match find_interaction uid name (interactions w) with
    | Some e =>
        if PyStr.eqb (action e) "dislike" then interactions w
        else set_interaction uid name "dislike" now (_parse_genres genres) (interactions w)
    | None =>
        match PyStr.first_char a with
        | Some a0 =>
            interactions w ++ [inserted uid name a0 "dislike" now (_parse_genres genres)]
        | None => interactions w
        end
    end.
Proof.
  intros Hu.
  pose proof (update_user_language_only books uid_str name w) as (Hi & _).
  unfold dislike_book, get_user_interaction. rewrite Hu. cbv zeta.
  destruct (find_interaction uid name (interactions w)) as [e|].
  - destruct (PyStr.eqb (action e) "dislike") eqn:He.
    { split; [|done]. intros _. left. simpl. f_equal. by apply AffinityFacts.eqb_true. }
    destruct (PyStr.first_char a) as [a0|]; cbn [fst snd].
    + split; [by right|].
      match goal with |- context [after_store ?u ?x ?act ?n ?w'] =>
        destruct (after_store_fields u x act n w') as (_ & ->) end.
      destruct (PyStr.eqb (action e) "like"); simpl; by rewrite Hi.
    + split; [done|]. destruct (PyStr.eqb (action e) "like"); simpl; by rewrite Hi.
  - destruct (PyStr.first_char a) as [a0|]; cbn [fst snd]; [|done].
    split; [by right|].
    match goal with |- context [after_store ?u ?x ?act ?n ?w'] =>
      destruct (after_store_fields u x act n w') as (_ & ->) end.
    simpl. by rewrite Hi.
Qed.

Lemma remove_interaction_interactions w uid_str uid name a genres act :
  ObjectId uid_str = Some uid →
  interactions (remove_interaction w uid_str name a genres act).2
  = (delete_one uid name (interactions w)).2.
Proof.
  intros Hu. unfold remove_interaction. rewrite Hu.
  destruct (delete_one uid name (interactions w)) as [deleted l].
  by destruct (iterate genres).
Qed.

Lemma keys_set uid name act now gs l :
  key <$> set_interaction uid name act now gs l = key <$> l.
Proof.
  pose proof (first_match uid name l) as H.
  destruct (find_interaction uid name l).
  - destruct H as (l1 & l2 & -> & _ & _ & -> & _). by rewrite !fmap_app, !fmap_cons.
  - destruct H as (_ & -> & _). done.
Qed.

Lemma unique_insert uid name a act now gs l :
  unique l → find_interaction uid name l = None →
  unique (l ++ [inserted uid name a act now gs]).
Proof.
  intros Hl Hnone. pose proof (first_match uid name l) as H. rewrite Hnone in H.
  destruct H as (Hall & _). unfold unique. rewrite fmap_app. simpl.
  apply NoDup_app. split_and!; [done| |apply NoDup_singleton].
  intros k Hk Hk'. apply list_elem_of_singleton in Hk'. subst k.
  apply list_elem_of_fmap in Hk as (i & Heq & Hi).
  eapply Forall_forall in Hall; [|exact Hi]. apply Hall. by rewrite <- Heq.
Qed.

Lemma unique_delete uid name l : unique l → unique (delete_one uid name l).2.
Proof.
  intros Hl. pose proof (first_match uid name l) as H.
  destruct (find_interaction uid name l).
  - destruct H as (l1 & l2 & -> & _ & _ & _ & ->). simpl.
    unfold unique in *. rewrite fmap_app in *. rewrite fmap_cons in Hl.
    apply NoDup_app in Hl as (H1 & H12 & H2). apply NoDup_cons in H2 as [_ H2].
    apply NoDup_app. split_and!; [done| |done].
    intros k Hk Hk2. apply (H12 k Hk). by apply elem_of_cons; right.
  - destruct H as (_ & _ & ->). done.
Qed.

(** X10: the interaction collection never gets a second document for the
    same user and book: [like_book], [dislike_book] and
    [remove_interaction], with any arguments, keep the pairs of user and
    book name of the stored documents pairwise distinct. *)
Theorem one_interaction_per_user_and_book (books : list book) (now : Z) (w : world)
    (uid_str name author_name : string) (genres : genres_arg)
    (raw_genres : json_genres) (act : string)
    (Hunique : unique (interactions w)) :
  unique (interactions (like_book books now w uid_str name author_name genres).2)
  ∧ unique (interactions (dislike_book books now w uid_str name author_name genres).2)
  ∧ unique (interactions
              (remove_interaction w uid_str name author_name raw_genres act).2).
Proof.
  destruct (ObjectId uid_str) as [uid|] eqn:Hu.
  - destruct (like_book_interactions books now w uid_str uid name author_name genres Hu)
      as [_ ->].
    destruct (dislike_book_interactions books now w uid_str uid name author_name genres Hu)
      as [_ ->].
    rewrite (remove_interaction_interactions w uid_str uid) by done.
    split_and!; [| |by apply unique_delete];
      destruct (find_interaction uid name (interactions w)) as [e|] eqn:Hfind.
    + destruct (PyStr.eqb _ _); [done|]. unfold unique. by rewrite keys_set.
    + by apply unique_insert.
    + destruct (PyStr.eqb _ _); [done|]. unfold unique. by rewrite keys_set.
    + destruct (PyStr.first_char author_name); [by apply unique_insert|done].
  - unfold like_book, dislike_book, remove_interaction. by rewrite Hu.
Qed.

Lemma one_interaction_per_user_and_book_witness :
  unique (interactions Scenarios.liked_b_disliked_a).
Proof.
  refine (proj1 (proj2 (one_interaction_per_user_and_book Scenarios.shelf 3
            Scenarios.liked_b_a Scenarios.alice "A" "X" Scenarios.fantasy JScalar "like" _))).
  unfold unique. apply (bool_decide_unpack _). by vm_compute.
Defined.

Lemma get_after_set uid name act now gs l e :
  find_interaction uid name l = Some e →
  find_interaction uid name (set_interaction uid name act now gs l)
  = Some (retouched act now gs e).
Proof.
  intros Hfind. pose proof (first_match uid name l) as H. rewrite Hfind in H.
  destruct H as (l1 & l2 & -> & H1 & He & -> & _).
  by apply find_interaction_here.
Qed.

Lemma get_other_after_set uid name act now gs l uid' name' :
  (uid', name') ≠ (uid, name) →
  find_interaction uid' name' (set_interaction uid name act now gs l)
  = find_interaction uid' name' l.
Proof.
  intros Hne. pose proof (first_match uid name l) as H.
  destruct (find_interaction uid name l).
  - destruct H as (l1 & l2 & -> & H1 & He & -> & _).
    apply find_interaction_replace; [congruence|done].
  - destruct H as (_ & -> & _). done.
Qed.

(** X11: after [like_book] the stored action of the user for the book is
    "like", and after a [dislike_book] that returned [True] it is
    "dislike"; in both cases the stored action of every other pair of user
    and book is what it was. *)
Theorem stored_action_after_like_or_dislike (books : list book) (now : Z) (w : world)
    (uid_str : string) (uid : oid) (name author_name : string) (genres : genres_arg)
    (Huser : ObjectId uid_str = Some uid) :
  let liked := like_book books now w uid_str name author_name genres in
  let disliked := dislike_book books now w uid_str name author_name genres in
  liked.1 = true
  ∧ get_user_interaction liked.2 uid name = Some "like"
  ∧ (disliked.1 = true → get_user_interaction disliked.2 uid name = Some "dislike")
  ∧ (∀ uid' name', (uid', name') ≠ (uid, name) →
       get_user_interaction liked.2 uid' name' = get_user_interaction w uid' name'
       ∧ get_user_interaction disliked.2 uid' name' = get_user_interaction w uid' name').
Proof.
  intros liked disliked. subst liked disliked.
  destruct (like_book_interactions books now w uid_str uid name author_name genres Huser)
    as [Hres Hl].
  destruct (dislike_book_interactions books now w uid_str uid name author_name genres Huser)
    as [Hd Hdl].
  unfold get_user_interaction in *. rewrite Hl, Hdl.
  split_and!; [done| | |].
  - destruct (find_interaction uid name (interactions w)) as [e|] eqn:Hfind.
    + destruct (PyStr.eqb (action e) "like") eqn:He.
      * rewrite Hfind. simpl. f_equal. by apply AffinityFacts.eqb_true.
      * by rewrite (get_after_set _ _ _ _ _ _ e).
    + rewrite (find_interaction_new uid name _ _ Hfind); [done|]. by apply matches_key.
  - intros Htrue. specialize (Hd Htrue).
    destruct (find_interaction uid name (interactions w)) as [e|] eqn:Hfind.
    + destruct (PyStr.eqb (action e) "dislike") eqn:He.
      * rewrite Hfind. simpl. f_equal. by apply AffinityFacts.eqb_true.
      * by rewrite (get_after_set _ _ _ _ _ _ e).
    + destruct Hd as [Hd|[a0 Ha0]]; [done|]. rewrite Ha0.
      rewrite (find_interaction_new uid name _ _ Hfind); [done|]. by apply matches_key.
  - intros uid' name' Hne. split.
    + destruct (find_interaction uid name (interactions w)) as [e|] eqn:Hfind.
      * destruct (PyStr.eqb (action e) "like"); [done|]. by rewrite get_other_after_set.
      * rewrite find_interaction_snoc; [done|]. unfold key; simpl. congruence.
    + destruct (find_interaction uid name (interactions w)) as [e|] eqn:Hfind.
      * destruct (PyStr.eqb (action e) "dislike"); [done|]. by rewrite get_other_after_set.
      * destruct (PyStr.first_char author_name); [|done].
        rewrite find_interaction_snoc; [done|]. unfold key; simpl. congruence.
Qed.

Lemma stored_action_after_like_or_dislike_witness :
  get_user_interaction Scenarios.liked_a Scenarios.alice "A" = Some "like".
Proof.
  exact (proj1 (proj2 (stored_action_after_like_or_dislike Scenarios.shelf 1
           (empty_world Scenarios.alice) Scenarios.alice Scenarios.alice "A" "X"
           Scenarios.fantasy eq_refl))).
Defined.

End InteractionStoreFacts.

Module BookStatsFacts.
Import Bson Catalog Interactions InteractionQueries InteractionStoreFacts PyStrFacts.

Lemma count_documents_middle book act l1 x l2 :
  count_documents book act (l1 ++ x :: l2)
  = count_documents book act l1
    + (if decide (book_name x = book ∧ action x = act) then 1 else 0)
    + count_documents book act l2.
Proof.
  unfold count_documents. rewrite filter_app, filter_cons.
  destruct (decide _); rewrite length_app; simpl; lia.
Qed.

Lemma count_documents_snoc book act l x :
  count_documents book act (l ++ [x])
  = count_documents book act l
    + (if decide (book_name x = book ∧ action x = act) then 1 else 0).
Proof.
  rewrite count_documents_middle. change (count_documents book act []) with 0. lia.
Qed.

(** Settles an equation between counts by the cases of the documents
    that were counted. *)
Local Ltac tally :=
  repeat case_decide; try lia; exfalso; intuition congruence.

(** X12: what the like route reports after [like_book]: the number of
    likes of the book has grown by one unless the user's stored action was
    "like" already, the number of dislikes has dropped by one when the
    stored action was "dislike", and the statistics of every other book are
    what they were. *)
Theorem book_stats_after_like (books : list book) (now : Z) (w : world)
    (uid_str : string) (uid : oid) (name author_name : string) (genres : genres_arg)
    (Huser : ObjectId uid_str = Some uid) :
  let w' := (like_book books now w uid_str name author_name genres).2 in
  let old := get_user_interaction w uid name in
  get_book_stats w' name
  = <["dislikes" := count_documents name "dislike" (interactions w)
                    - (if decide (old = Some "dislike") then 1 else 0)]>
      (<["likes" := count_documents name "like" (interactions w)
                    + (if decide (old = Some "like") then 0 else 1)]> ∅)
  ∧ (∀ name', name' ≠ name → get_book_stats w' name' = get_book_stats w name').
Proof.
  intros w' old. subst w' old.
  destruct (like_book_interactions books now w uid_str uid name author_name genres Huser)
    as [_ Hl].
  unfold get_book_stats, get_user_interaction. rewrite Hl. clear Hl.
  pose proof (first_match uid name (interactions w)) as H.
  destruct (find_interaction uid name (interactions w)) as [e|] eqn:Hfind.
  - destruct H as (l1 & l2 & Heq & _ & He & Hset & _).
    assert (book_name e = name) as Hname by (by injection He).
    simpl. destruct (PyStr.eqb (action e) "like") eqn:Hlike.
    + apply AffinityFacts.eqb_true in Hlike. rewrite Hlike.
      rewrite decide_False by done. rewrite decide_True by done.
      split; [|done]. by rewrite Z.sub_0_r, Z.add_0_r.
    + apply AffinityFacts.eqb_false in Hlike.
      rewrite Hset, Heq, !count_documents_middle. simpl.
      split.
      * f_equal; [|f_equal]; tally.
      * intros name' Hne. rewrite !count_documents_middle. simpl.
        f_equal; [|f_equal]; tally.
  - simpl. rewrite !count_documents_snoc. simpl. split.
    + f_equal; [|f_equal]; tally.
    + intros name' Hne. rewrite !count_documents_snoc. simpl.
      f_equal; [|f_equal]; tally.
Qed.

(** A like that overwrites the dislike of scenario 2. *)
Lemma book_stats_after_like_witness :
  get_book_stats
    (like_book Scenarios.shelf 3 Scenarios.disliked_a Scenarios.alice "A" "X"
       Scenarios.fantasy).2 "A"
  = <["dislikes" := 0]> (<["likes" := 1]> ∅).
Proof.
  exact (proj1 (book_stats_after_like Scenarios.shelf 3 Scenarios.disliked_a
                  Scenarios.alice Scenarios.alice "A" "X" Scenarios.fantasy eq_refl)).
Defined.

End BookStatsFacts.

Module BatchFacts.
Import Bson Catalog Interactions InteractionQueries InteractionStoreFacts PyStrFacts.

Lemma zeroed_lookup names : ∀ (st : gmap string stats) n,
  foldl (λ st book, <[book := zero_stats]> st) st names !! n
  = if decide (n ∈ names) then Some zero_stats else st !! n.
Proof.
  induction names as [|b names IH]; intros st n; cbn [foldl].
  - by destruct (decide (n ∈ [])) as [?%elem_of_nil|].
  - rewrite IH. destruct (decide (n ∈ names)) as [Hin|Hnin].
    + rewrite decide_True; [done|by apply elem_of_cons; right].
    + destruct (decide (b = n)) as [->|Hne].
      * rewrite lookup_insert_eq. rewrite decide_True; [done|by apply elem_of_cons; left].
      * rewrite lookup_insert_ne by done.
        rewrite decide_False; [done|]. rewrite elem_of_cons. by intros [?|?].
Qed.

(** The writes of the loop that reach the dictionary of one book. *)
Lemma fill_lookup rs : ∀ (st : gmap string stats) (n : string),
  foldl fill st rs !! n
  = (λ s, foldl (λ s '((book, act), count),
                   if decide (book = n) then <[act +:+ "s" := count]> s else s) s rs)
      <$> st !! n.
Proof.
  induction rs as [|[[b a] c] rs IH]; intros st n; simpl.
  - by destruct (st !! n).
  - rewrite IH. destruct (st !! b) as [s|] eqn:Hb.
    + destruct (decide (b = n)) as [->|Hne].
      * by rewrite lookup_insert_eq, Hb.
      * by rewrite lookup_insert_ne.
    + destruct (decide (b = n)) as [->|Hne]; [by rewrite Hb|done].
Qed.

Lemma inner_untouched (n f : string) rs : ∀ (s : stats),
  (∀ a c, ((n, a), c) ∈ rs → a +:+ "s" ≠ f) →
  foldl (λ s '((book, act), count),
           if decide (book = n) then <[act +:+ "s" := count]> s else s) s rs !! f
  = s !! f.
Proof.
  induction rs as [|[[b a] c] rs IH]; intros s Hrs; [done|]. simpl.
  rewrite IH by (intros a' c' Hin; apply (Hrs a' c'); by apply elem_of_cons; right).
  destruct (decide (b = n)) as [->|Hne]; [|done].
  rewrite lookup_insert_ne; [done|]. apply (Hrs a c). by apply elem_of_cons; left.
Qed.

Lemma inner_written (n a : string) (c : Z) rs : ∀ (s : stats),
  NoDup rs.*1 → ((n, a), c) ∈ rs →
  foldl (λ s '((book, act), count),
           if decide (book = n) then <[act +:+ "s" := count]> s else s) s rs
    !! (a +:+ "s")
  = Some c.
Proof.
  induction rs as [|[[b a'] c'] rs IH]; intros s Hnd Hin.
  - by apply elem_of_nil in Hin.
  - rewrite fmap_cons in Hnd. apply NoDup_cons in Hnd as [Hhead Hnd]. simpl in Hhead.
    apply elem_of_cons in Hin as [Heq|Hin].
    + injection Heq as <- <- <-. simpl. rewrite decide_True by done.
      rewrite inner_untouched; [by rewrite lookup_insert_eq|].
      intros a2 c2 Hin2 Heq2. apply append_inj_r in Heq2. subst a2.
      apply Hhead. apply list_elem_of_fmap. by exists ((n, a), c2).
    + simpl. by apply IH.
Qed.

(** The results of the pipeline. *)
Lemma aggregate_elem names l b a c :
  ((b, a), c) ∈ aggregate names l
  ↔ c = count_documents b a l ∧ b ∈ names ∧ a ∈ ["like"; "dislike"]
    ∧ ∃ i, i ∈ l ∧ book_name i = b ∧ action i = a.
Proof.
  unfold aggregate. rewrite list_elem_of_fmap.
  assert (∀ b a, b ∈ names → a ∈ ["like"; "dislike"] →
     Z.of_nat (length (filter (λ i, group_id i = (b, a)) (filter (in_pipeline names) l)))
     = count_documents b a l) as Hcount.
  { intros b0 a0 Hb Ha. unfold count_documents. rewrite list_filter_filter.
    do 2 f_equal. apply list_filter_iff. intros i. unfold group_id, in_pipeline.
    split.
    - by intros [[= -> ->] _].
    - intros [-> ->]. done. }
  split.
  - intros (k & [= <- ->] & Hk). rewrite elem_of_remove_dups in Hk.
    apply list_elem_of_fmap in Hk as (i & Hki & Hi).
    apply list_elem_of_filter in Hi as [[Hb Ha] Hi].
    unfold group_id in Hki. injection Hki as -> ->.
    split_and!; [by apply Hcount|done|done|by exists i].
  - intros (-> & Hb & Ha & i & Hi & Hib & Hia). exists (b, a). split.
    + by rewrite Hcount.
    + rewrite elem_of_remove_dups. apply list_elem_of_fmap. exists i. split.
      * unfold group_id. by rewrite Hib, Hia.
      * apply list_elem_of_filter. split; [|done]. unfold in_pipeline. by rewrite Hib, Hia.
Qed.

Lemma aggregate_nodup names l : NoDup (aggregate names l).*1.
Proof.
  unfold aggregate. rewrite <- list_fmap_compose.
  erewrite list_fmap_ext; [|intros i x _; reflexivity].
  cbn [compose fst]. rewrite list_fmap_id. apply NoDup_remove_dups.
Qed.

Lemma count_documents_zero b a l :
  count_documents b a l = 0 ↔ ∀ i, i ∈ l → ¬ (book_name i = b ∧ action i = a).
Proof.
  unfold count_documents. split.
  - intros H i Hi Hp.
    assert (i ∈ filter (λ i, book_name i = b ∧ action i = a) l) as Hin
      by (by apply list_elem_of_filter).
    destruct (filter _ l); [by apply elem_of_nil in Hin|simpl in H; lia].
  - intros H. destruct (filter _ l) as [|i l'] eqn:Hf; [done|].
    assert (i ∈ filter (λ i, book_name i = b ∧ action i = a) l) as Hin
      by (rewrite Hf; by apply elem_of_cons; left).
    apply list_elem_of_filter in Hin as [Hp Hi]. by destruct (H i Hi).
Qed.

(** One field of the dictionary that the batch query builds for a book. *)
Lemma batch_field names l (n a : string) (s : stats) :
  n ∈ names → a ∈ ["like"; "dislike"] →
  s !! (a +:+ "s") = Some 0 →
  foldl (λ s '((book, act), count),
           if decide (book = n) then <[act +:+ "s" := count]> s else s) s
        (aggregate names l) !! (a +:+ "s")
  = Some (count_documents n a l).
Proof.
  intros Hn Ha Hs.
  destruct (decide (count_documents n a l = 0)) as [Hz|Hnz].
  - rewrite inner_untouched; [by rewrite Hz|].
    intros a' c Hin Heq. apply append_inj_r in Heq. subst a'.
    apply aggregate_elem in Hin as (_ & _ & _ & i & Hi & Hib & Hia).
    by apply (proj1 (count_documents_zero n a l) Hz i Hi).
  - apply inner_written; [apply aggregate_nodup|].
    apply aggregate_elem. split_and!; [done|done|done|].
    destruct (filter (λ i, book_name i = n ∧ action i = a) l) as [|i l'] eqn:Hf.
    + exfalso. apply Hnz. unfold count_documents. by rewrite Hf.
    + assert (i ∈ filter (λ i, book_name i = n ∧ action i = a) l) as Hin
        by (rewrite Hf; by apply elem_of_cons; left).
      apply list_elem_of_filter in Hin as [[? ?] Hi]. by exists i.
Qed.

(** X13: [get_book_stats_batch] answers, for every requested book, what
    [get_book_stats] answers for that book alone, and has no entry for a
    book that was not requested. *)
Theorem batch_stats_agree_with_single (w : world) (book_names : list string)
    (book : string) :
  get_book_stats_batch w book_names !! book
  = if decide (book ∈ book_names) then Some (get_book_stats w book) else None.
Proof.
  unfold get_book_stats_batch. rewrite fill_lookup, zeroed_lookup, lookup_empty.
  destruct (decide (book ∈ book_names)) as [Hin|Hnin]; [|done]. simpl. f_equal.
  apply map_eq. intros f. unfold get_book_stats.
  destruct (decide (f = "dislikes")) as [->|Hd].
  - rewrite lookup_insert_eq.
    apply (batch_field book_names (interactions w) book "dislike"); [done| |done].
    apply elem_of_cons; right. by apply elem_of_cons; left.
  - rewrite lookup_insert_ne by done.
    destruct (decide (f = "likes")) as [->|Hl].
    + rewrite lookup_insert_eq.
      apply (batch_field book_names (interactions w) book "like"); [done| |done].
      by apply elem_of_cons; left.
    + rewrite lookup_insert_ne, lookup_empty by done.
      rewrite inner_untouched.
      * unfold zero_stats. by rewrite !lookup_insert_ne by done.
      * intros a c Hr Heq. apply aggregate_elem in Hr as (_ & _ & Ha & _).
        apply elem_of_cons in Ha as [->|Ha]; [by apply Hl|].
        apply list_elem_of_singleton in Ha as ->. by apply Hd.
Qed.

Lemma insert_all_untouched (n : string) (l : list interaction) : ∀ (m : gmap string string),
  (∀ i, i ∈ l → book_name i ≠ n) →
  foldl (λ m i, <[book_name i := action i]> m) m l !! n = m !! n.
Proof.
  induction l as [|i l IH]; intros m Hl; [done|]. simpl.
  rewrite IH by (intros j Hj; apply Hl; by apply elem_of_cons; right).
  rewrite lookup_insert_ne; [done|]. apply Hl. by apply elem_of_cons; left.
Qed.

Lemma insert_all_written (e : interaction) (l : list interaction) :
  ∀ (m : gmap string string),
  NoDup (book_name <$> l) → e ∈ l →
  foldl (λ m i, <[book_name i := action i]> m) m l !! book_name e = Some (action e).
Proof.
  induction l as [|i l IH]; intros m Hnd Hin.
  - by apply elem_of_nil in Hin.
  - rewrite fmap_cons in Hnd. apply NoDup_cons in Hnd as [Hhead Hnd].
    apply elem_of_cons in Hin as [->|Hin]; simpl.
    + rewrite insert_all_untouched; [by rewrite lookup_insert_eq|].
      intros j Hj Heq. apply Hhead. rewrite <- Heq. by apply list_elem_of_fmap_2.
    + by apply IH.
Qed.

Lemma unique_names_of_user uid (P : interaction → Prop) `{∀ i, Decision (P i)} l :
  unique l → NoDup (book_name <$> filter (λ i, user_id i = uid ∧ P i) l).
Proof.
  unfold unique. induction l as [|i l IH]; intros Hl; [apply NoDup_nil_2|].
  rewrite fmap_cons in Hl. apply NoDup_cons in Hl as [Hhead Hl].
  rewrite filter_cons. destruct (decide _) as [[Hu _]|]; [|by apply IH].
  rewrite fmap_cons. apply NoDup_cons. split; [|by apply IH].
  intros (j & Hname & Hj)%list_elem_of_fmap.
  apply list_elem_of_filter in Hj as [[Hju _] Hj].
  apply Hhead. apply list_elem_of_fmap. exists j. split; [|done].
  unfold key. by rewrite Hu, Hju, Hname.
Qed.

(** X14: on a collection with at most one document for a user and a book
    (which [like_book], [dislike_book] and [remove_interaction] keep so),
    [get_user_interactions_batch] maps every requested book to the action
    that [get_user_interaction] returns for it, has no entry for a
    requested book without interaction, and none for a book that was not
    requested. *)
Theorem batch_actions_agree_with_single (w : world) (uid_str : string) (uid : oid)
    (book_names : list string) (book : string)
    (Huser : ObjectId uid_str = Some uid)
    (Hunique : unique (interactions w)) :
  get_user_interactions_batch w uid_str book_names !! book
  = if decide (book ∈ book_names) then get_user_interaction w uid book else None.
Proof.
  unfold get_user_interactions_batch, get_user_interaction. rewrite Huser.
  destruct (decide (book ∈ book_names)) as [Hin|Hnin].
  - pose proof (first_match uid book (interactions w)) as H.
    destruct (find_interaction uid book (interactions w)) as [e|] eqn:Hfind.
    + destruct (find_interaction_key uid book _ e Hfind) as [He Hel].
      injection He as Heu Hen. simpl. rewrite <- Hen.
      apply insert_all_written; [by apply unique_names_of_user|].
      apply list_elem_of_filter. split; [|done]. by rewrite Hen.
    + destruct H as (Hall & _). simpl.
      rewrite insert_all_untouched; [done|].
      intros i [[Hiu _] Hi]%list_elem_of_filter Hname.
      eapply Forall_forall in Hall; [|exact Hi]. apply Hall. unfold key. by rewrite Hiu, Hname.
  - rewrite insert_all_untouched; [done|].
    intros i [[_ Hi] _]%list_elem_of_filter Hname. apply Hnin. by rewrite <- Hname.
Qed.

Lemma batch_actions_agree_with_single_witness :
  get_user_interactions_batch Scenarios.liked_b_disliked_a Scenarios.alice ["A"; "B"; "C"]
    !! "A"
  = Some "dislike".
Proof.
  refine (eq_trans (batch_actions_agree_with_single Scenarios.liked_b_disliked_a
            Scenarios.alice Scenarios.alice ["A"; "B"; "C"] "A" eq_refl _) _).
  - unfold unique. apply (bool_decide_unpack _). by vm_compute.
  - by vm_compute.
Defined.

End BatchFacts.

Module GenreFacts.
Import Bson Catalog Interactions InteractionQueries InteractionStoreFacts PyStrFacts.

Lemma counted_eq (m1 m2 : gmap (oid * string) Z) :
  counted m1 → counted m2 →
  (∀ k, genre_count m1 k = genre_count m2 k) → m1 = m2.
Proof.
  intros H1 H2 Heq. apply map_eq. intros k. specialize (Heq k).
  unfold genre_count in Heq.
  destruct (m1 !! k) as [c1|] eqn:E1, (m2 !! k) as [c2|] eqn:E2; simpl in Heq.
  - by subst.
  - apply H1 in E1. lia.
  - apply H2 in E2. lia.
  - done.
Qed.

Lemma genre_count_nonneg m k : counted m → 0 ≤ genre_count m k.
Proof.
  intros H. unfold genre_count. destruct (m !! k) as [c|] eqn:E; simpl; [|done].
  apply H in E. lia.
Qed.

(** Settles a count equation by whether the loop reaches the document. *)
Local Ltac reached :=
  simpl;
  first
    [ lia
    | done
    | let Hd := fresh in
      destruct (decide _) as [Hd|Hd]; simpl; try lia; try done;
      first [by destruct Hd | exfalso; apply Hd; by split] ].

Lemma add_genre_spec uid m g :
  counted m →
  counted (add_genre uid m g)
  ∧ ∀ k, genre_count (add_genre uid m g) k
         = genre_count m k + (if decide (g ≠ "" ∧ (uid, g) = k) then 1 else 0).
Proof.
  intros Hm. unfold add_genre, genre_count.
  destruct g as [|a g]; simpl.
  { split; [done|]. intros k. reached. }
  destruct (m !! (uid, String a g)) as [c|] eqn:E.
  - split.
    + intros k c'. destruct (decide ((uid, String a g) = k)) as [<-|Hne].
      * rewrite lookup_insert_eq. intros [= <-]. apply Hm in E. lia.
      * rewrite lookup_insert_ne by done. apply Hm.
    + intros k. destruct (decide ((uid, String a g) = k)) as [<-|Hne].
      * rewrite lookup_insert_eq, E. reached.
      * rewrite lookup_insert_ne by done. reached.
  - split.
    + intros k c'. destruct (decide ((uid, String a g) = k)) as [<-|Hne].
      * rewrite lookup_insert_eq. by intros [= <-].
      * rewrite lookup_insert_ne by done. apply Hm.
    + intros k. destruct (decide ((uid, String a g) = k)) as [<-|Hne].
      * rewrite lookup_insert_eq, E. reached.
      * rewrite lookup_insert_ne by done. reached.
Qed.

Lemma remove_genre_spec uid m g :
  counted m →
  counted (remove_genre uid m g)
  ∧ ∀ k, genre_count (remove_genre uid m g) k
         = if decide (g ≠ "" ∧ (uid, g) = k) then Z.max (genre_count m k - 1) 0
           else genre_count m k.
Proof.
  intros Hm. unfold remove_genre, genre_count.
  destruct g as [|a g]; simpl.
  { split; [done|]. intros k. reached. }
  destruct (m !! (uid, String a g)) as [c|] eqn:E.
  - pose proof (Hm _ _ E) as Hc.
    destruct (Z.leb_spec c 1).
    + split.
      * intros k c'. destruct (decide ((uid, String a g) = k)) as [<-|Hne].
        -- by rewrite lookup_delete_eq.
        -- rewrite lookup_delete_ne by done. apply Hm.
      * intros k. destruct (decide ((uid, String a g) = k)) as [<-|Hne].
        -- rewrite lookup_delete_eq, E. reached.
        -- rewrite lookup_delete_ne by done. reached.
    + split.
      * intros k c'. destruct (decide ((uid, String a g) = k)) as [<-|Hne].
        -- rewrite lookup_insert_eq. intros [= <-]. lia.
        -- rewrite lookup_insert_ne by done. apply Hm.
      * intros k. destruct (decide ((uid, String a g) = k)) as [<-|Hne].
        -- rewrite lookup_insert_eq, E. reached.
        -- rewrite lookup_insert_ne by done. reached.
  - split; [done|]. intros k. destruct (decide ((uid, String a g) = k)) as [<-|Hne].
    + rewrite E. reached.
    + reached.
Qed.

Lemma occurrences_cons uid k g gs :
  occurrences uid k (g :: gs)
  = (if decide (g ≠ "" ∧ (uid, g) = k) then 1 else 0) + occurrences uid k gs.
Proof.
  unfold occurrences. rewrite filter_cons. destruct (decide _); simpl; lia.
Qed.

Lemma occurrences_nonneg uid k gs : 0 ≤ occurrences uid k gs.
Proof. unfold occurrences. lia. Qed.

Lemma add_all_spec uid gs : ∀ m,
  counted m →
  counted (foldl (add_genre uid) m gs)
  ∧ ∀ k, genre_count (foldl (add_genre uid) m gs) k
         = genre_count m k + occurrences uid k gs.
Proof.
  induction gs as [|g gs IH]; intros m Hm; simpl.
  - split; [done|]. intros k. unfold occurrences. simpl. lia.
  - destruct (add_genre_spec uid m g Hm) as [Hm' Hc].
    destruct (IH _ Hm') as [Hm'' Hc'']. split; [done|].
    intros k. rewrite Hc'', Hc, occurrences_cons. lia.
Qed.

Lemma remove_all_spec uid gs : ∀ m,
  counted m →
  counted (foldl (remove_genre uid) m gs)
  ∧ ∀ k, genre_count (foldl (remove_genre uid) m gs) k
         = Z.max (genre_count m k - occurrences uid k gs) 0.
Proof.
  induction gs as [|g gs IH]; intros m Hm; simpl.
  - split; [done|]. intros k. unfold occurrences. simpl.
    pose proof (genre_count_nonneg m k Hm). lia.
  - destruct (remove_genre_spec uid m g Hm) as [Hm' Hc].
    destruct (IH _ Hm') as [Hm'' Hc'']. split; [done|].
    intros k. rewrite Hc'', Hc, occurrences_cons.
    pose proof (occurrences_nonneg uid k gs). destruct (decide _); lia.
Qed.

Lemma genres_of_with_genres act f w :
  genres_of act (with_genres act f w) = f (genres_of act w).
Proof. unfold genres_of, with_genres. simpl. by destruct (PyStr.eqb act "like"). Qed.

(** X15: on genre collections in which every stored count is at least 1,
    [_add_genre_preferences] raises the count of a genre of the user by the
    number of times the genre occurs in the list (empty genres are passed
    over), [_remove_genre_preferences] lowers it by that number and deletes
    the document instead of storing a count below 1, and removing the
    genres that were just added gives back the collections as they were;
    both keep every stored count at 1 or more. *)
Theorem genre_counts_add_then_remove (uid : oid) (genres : list string) (act : string)
    (w : world)
    (Hcounted : counted (genres_of act w)) :
  let added := _add_genre_preferences uid genres act w in
  let removed := _remove_genre_preferences uid genres act w in
  counted (genres_of act added)
  ∧ counted (genres_of act removed)
  ∧ (∀ k, genre_count (genres_of act added) k
          = genre_count (genres_of act w) k + occurrences uid k genres)
  ∧ (∀ k, genre_count (genres_of act removed) k
          = Z.max (genre_count (genres_of act w) k - occurrences uid k genres) 0)
  ∧ _remove_genre_preferences uid genres act added = w.
Proof.
  intros added removed. subst added removed.
  unfold _add_genre_preferences, _remove_genre_preferences.
  rewrite !genres_of_with_genres.
  destruct (add_all_spec uid genres _ Hcounted) as [Hadd Haddc].
  destruct (remove_all_spec uid genres _ Hcounted) as [Hrem Hremc].
  split_and!; try done.
  assert (foldl (remove_genre uid) (foldl (add_genre uid) (genres_of act w) genres) genres
          = genres_of act w) as Hback.
  { destruct (remove_all_spec uid genres _ Hadd) as [Hc Hcount].
    apply counted_eq; [done|done|]. intros k. rewrite Hcount, Haddc.
    pose proof (genre_count_nonneg _ k Hcounted). lia. }
  unfold genres_of, with_genres in *. destruct w. simpl in *.
  destruct (PyStr.eqb act "like"); by rewrite Hback.
Qed.

Lemma genre_counts_add_then_remove_witness :
  _remove_genre_preferences Scenarios.alice ["Fantasy"; "Epic"; "Fantasy"] "like"
    (_add_genre_preferences Scenarios.alice ["Fantasy"; "Epic"; "Fantasy"] "like"
       Scenarios.liked_a)
  = Scenarios.liked_a.
Proof.
  refine (proj2 (proj2 (proj2 (proj2 (genre_counts_add_then_remove Scenarios.alice
            ["Fantasy"; "Epic"; "Fantasy"] "like" Scenarios.liked_a _))))).
  change (map_Forall (λ _ c, 1 ≤ c) (genres_of "like" Scenarios.liked_a)).
  apply (bool_decide_unpack _). by vm_compute.
Defined.

End GenreFacts.

Module RemoveInteractionFacts.
Import Bson Catalog Interactions InteractionQueries InteractionStoreFacts PyStrFacts.
Import InteractionsFacts LikeDislikeFacts GenreFacts AuthorPrefs AuthorCounts.

(** What [remove_interaction] does when the user id is valid and the
    genres can be iterated. *)
Lemma remove_interaction_fields w uid_str uid name a genres gs act :
  ObjectId uid_str = Some uid →
  iterate genres = Some gs →
  let r := remove_interaction w uid_str name a genres act in
  r.1 = (delete_one uid name (interactions w)).1
  ∧ interactions r.2 = (delete_one uid name (interactions w)).2
  ∧ author_prefs r.2 = (remove_author_preference (author_prefs w) uid_str a act name).2
  ∧ liked_genres r.2
    = (if PyStr.eqb act "like" then foldl (remove_genre uid) (liked_genres w) gs
       else liked_genres w)
  ∧ disliked_genres r.2
    = (if PyStr.eqb act "like" then disliked_genres w
       else foldl (remove_genre uid) (disliked_genres w) gs)
  ∧ counter r.2 = counter w ∧ redis r.2 = redis w.
Proof.
  intros Hu Hg. unfold remove_interaction. rewrite Hu, Hg.
  destruct (delete_one uid name (interactions w)) as [deleted l]. simpl.
  by destruct (PyStr.eqb act "like").
Qed.

Lemma chars_length s g : g ∈ chars s → String.length g = 1%nat.
Proof.
  induction s as [|a s IH]; simpl; [by intros ?%elem_of_nil|].
  intros [->|Hin]%elem_of_cons; [done|by apply IH].
Qed.

Lemma remove_all_untouched uid gs k : ∀ (m : gmap (oid * string) Z),
  (∀ g, g ∈ gs → (uid, g) ≠ k) →
  foldl (remove_genre uid) m gs !! k = m !! k.
Proof.
  induction gs as [|g gs IH]; intros m Hgs; [done|]. simpl.
  rewrite IH by (intros g' Hg'; apply Hgs; by apply elem_of_cons; right).
  assert ((uid, g) ≠ k) as Hne by (apply Hgs; by apply elem_of_cons; left).
  unfold remove_genre. destruct (PyStr.truthy g); [|done].
  destruct (m !! (uid, g)) as [c|]; [|done].
  destruct (c <=? 1); [by rewrite lookup_delete_ne|by rewrite lookup_insert_ne].
Qed.



(** The genre collections after a first like of a book. *)
Lemma like_book_new_genres books now w uid_str uid name a genres :
  ObjectId uid_str = Some uid →
  find_interaction uid name (interactions w) = None →
  let w' := (like_book books now w uid_str name a genres).2 in
  liked_genres w' = foldl (add_genre uid) (liked_genres w) (_parse_genres genres)
  ∧ disliked_genres w' = disliked_genres w.
Proof.
  intros Hu Hnone.
  pose proof (update_user_language_only books uid_str name w) as (_ & Hl & Hd & _).
  unfold like_book. rewrite Hu, Hnone. cbv zeta. cbn [fst snd].
  unfold after_store, _update_author_affinity, _increment_interaction_counter.
  simpl. destruct (bool_decide _); simpl; by rewrite Hl, Hd.
Qed.

Lemma delete_one_snoc uid name l r :
  Forall (λ i, key i ≠ (uid, name)) l → key r = (uid, name) →
  delete_one uid name (l ++ [r]) = (true, l).
Proof.
  intros Hl Hr. induction Hl as [|i l Hi Hl IH]; simpl.
  - by rewrite (proj2 (matches_key uid name r) Hr).
  - by rewrite (proj2 (matches_not_key uid name i) Hi), IH.
Qed.

(** X17: a first like of a book, with its genres given as a list of
    non-empty stripped strings, followed by [remove_interaction] with the
    same list and the action "like": the removal returns [True], and the
    interaction collection and both genre collections are exactly what
    they were before the like (every stored genre count being at least 1
    before). *)
Theorem like_then_remove_restores (books : list book) (now : Z) (w : world)
    (uid_str : string) (uid : oid) (name author_name : string) (genres : list string)
    (Huser : ObjectId uid_str = Some uid)
    (Hfresh : find_interaction uid name (interactions w) = None)
    (Hclean : Forall (λ g, g ≠ "" ∧ PyStr.strip g = g) genres)
    (Hcounted : counted (liked_genres w)) :
  let liked := (like_book books now w uid_str name author_name (GenresList genres)).2 in
  let r := remove_interaction liked uid_str name author_name (JList genres) "like" in
  r.1 = true
  ∧ interactions r.2 = interactions w
  ∧ liked_genres r.2 = liked_genres w
  ∧ disliked_genres r.2 = disliked_genres w.
Proof.
  intros liked r. subst liked r.
  set (liked := (like_book books now w uid_str name author_name (GenresList genres)).2).
  destruct (remove_interaction_fields liked uid_str uid name author_name (JList genres)
              genres "like" Huser eq_refl) as (-> & -> & _ & -> & -> & _).
  destruct (like_book_interactions books now w uid_str uid name author_name
              (GenresList genres) Huser) as [_ Hl].
  destruct (like_book_new_genres books now w uid_str uid name author_name
              (GenresList genres) Huser Hfresh) as [Hlg Hdg].
  fold liked in Hl, Hlg, Hdg. rewrite Hfresh in Hl.
  assert (_parse_genres (GenresList genres) = genres) as Hparse
    by (simpl; by apply ParseGenresFacts.strip_nonempty_fixed).
  rewrite Hparse in Hl, Hlg.
  pose proof (first_match uid name (interactions w)) as Hw. rewrite Hfresh in Hw.
  destruct Hw as (Hall & _).
  assert (delete_one uid name (interactions liked) = (true, interactions w)) as Hdel
    by (rewrite Hl; by apply delete_one_snoc).
  rewrite Hdel. change (PyStr.eqb "like" "like") with true. cbv iota.
  split_and!; [done|done| |done].
  rewrite Hlg.
  destruct (add_all_spec uid genres _ Hcounted) as [Hadd Haddc].
  destruct (remove_all_spec uid genres _ Hadd) as [Hc Hcount].
  apply counted_eq; [done|done|]. intros k. rewrite Hcount, Haddc.
  pose proof (genre_count_nonneg _ k Hcounted). lia.
Qed.

Lemma like_then_remove_restores_witness :
  let liked := (like_book Scenarios.shelf 2 Scenarios.liked_b Scenarios.alice "A" "X"
                  (GenresList ["Fantasy"; "Epic"])).2 in
  liked_genres
    (remove_interaction liked Scenarios.alice "A" "X" (JList ["Fantasy"; "Epic"]) "like").2
  = liked_genres Scenarios.liked_b.
Proof.
  cbv zeta.
  refine (proj1 (proj2 (proj2 (like_then_remove_restores Scenarios.shelf 2
            Scenarios.liked_b Scenarios.alice Scenarios.alice "A" "X" ["Fantasy"; "Epic"]
            eq_refl _ _ _)))).
  - by vm_compute.
  - repeat constructor; done.
  - change (map_Forall (λ _ c, 1 ≤ c) (liked_genres Scenarios.liked_b)).
    apply (bool_decide_unpack _). by vm_compute.
Defined.

End RemoveInteractionFacts.

Module RemoveWithoutInteractionFacts.
Import Bson Catalog Interactions InteractionQueries InteractionStoreFacts.
Import AuthorPrefs AuthorCounts AffinityFacts AuthorCountFacts RemoveInteractionFacts.

Lemma count_after_untouch a act b l :
  a ∈ names l →
  count_of (map (λ e, if PyStr.eqb (author_name e) a then untouch act b e else e) l) a
  = count_of l a + (if PyStr.eqb act "like" then -1 else 1).
Proof.
  intros Hin. destruct (first_occurrence a l Hin) as (l1 & x & l2 & -> & Hn1 & Hx).
  rewrite map_app. simpl. rewrite untouch_others by done.
  rewrite Hx, eqb_refl. unfold count_of.
  rewrite (find_here a l1 x l2) by done.
  rewrite (find_here a l1 (untouch act b x)) by done.
  done.
Qed.

(** X18: [remove_interaction] for a book the user has no stored
    interaction with returns [False] (the route answers 404) and leaves
    the interaction collection as it is, but it has still run the author
    update: the count of an author who has an entry has gone down by one
    for the action "like" and up by one for any other action. *)
Theorem remove_without_interaction_changes_author (w : world) (uid_str : string)
    (uid : oid) (name author_name : string) (genres : json_genres)
    (genres_list : list string) (act : string)
    (Huser : ObjectId uid_str = Some uid)
    (Habsent : find_interaction uid name (interactions w) = None)
    (Hiter : iterate genres = Some genres_list)
    (Hentry : author_name ∈ names (user_authors (author_prefs w) uid)) :
  let r := remove_interaction w uid_str name author_name genres act in
  r.1 = false
  ∧ interactions r.2 = interactions w
  ∧ count_in (author_prefs r.2) uid author_name
    = count_in (author_prefs w) uid author_name
      + (if PyStr.eqb act "like" then -1 else 1).
Proof.
  intros r. subst r.
  destruct (remove_interaction_fields w uid_str uid name author_name genres genres_list
              act Huser Hiter) as (-> & -> & -> & _).
  pose proof (first_match uid name (interactions w)) as H. rewrite Habsent in H.
  destruct H as (_ & _ & ->). split_and!; [done|done|].
  unfold count_in, remove_author_preference. rewrite Huser.
  unfold user_authors in *.
  destruct (author_prefs w !! uid) as [doc|] eqn:Hdoc; [|by apply elem_of_nil in Hentry].
  simpl. rewrite lookup_insert_eq. simpl. by apply count_after_untouch.
Qed.

(** After scenario 2's like of A (author X, count 1), the like of a book
    that was never liked is withdrawn for the same author. *)
Lemma remove_without_interaction_changes_author_witness :
  let r := remove_interaction Scenarios.liked_a Scenarios.alice "Never liked" "X"
             (JList []) "like" in
  r.1 = false ∧ count_in (author_prefs r.2) Scenarios.alice "X" = 0.
Proof.
  cbv zeta.
  assert ("X" ∈ names (user_authors (author_prefs Scenarios.liked_a) Scenarios.alice))
    as Hentry by (vm_compute; apply elem_of_cons; by left).
  pose proof (remove_without_interaction_changes_author Scenarios.liked_a Scenarios.alice
    Scenarios.alice "Never liked" "X" (JList []) [] "like" eq_refl eq_refl eq_refl Hentry)
    as (H1 & _ & H3).
  split; [exact H1|]. rewrite H3. by vm_compute.
Defined.

End RemoveWithoutInteractionFacts.

Module CacheInvalidationFacts.
Import Bson Catalog Interactions InteractionQueries InteractionStoreFacts PyStrFacts.
Import InteractionsFacts.

Lemma prefix_append s t : String.prefix s (s +:+ t) = true.
Proof.
  induction s as [|a s IH]; [by destruct t|].
  rewrite append_cons. simpl. by destruct (ascii_dec a a).
Qed.

Lemma recommendations_key_prefix uid_str algorithm :
  String.prefix (recommendations_key uid_str "") (recommendations_key uid_str algorithm)
  = true.
Proof.
  unfold recommendations_key.
  replace ("recommendations:user:" +:+ uid_str +:+ ":" +:+ algorithm)
    with (("recommendations:user:" +:+ uid_str +:+ ":" +:+ "") +:+ algorithm).
  - apply prefix_append.
  - by rewrite !append_assoc.
Qed.

Lemma delete_prefix_lookup p (redis : gmap string cached) k :
  delete_prefix p redis !! k = if String.prefix p k then None else redis !! k.
Proof.
  unfold delete_prefix. destruct (String.prefix p k) eqn:Hp.
  - apply map_lookup_filter_None. right. intros v _ Hn. apply Hn. simpl. by rewrite Hp.
  - destruct (redis !! k) as [v|] eqn:Hk.
    + apply map_lookup_filter_Some. split; [done|]. simpl. rewrite Hp. by intros [].
    + apply map_lookup_filter_None. by left.
Qed.

(** The cache after the common tail of [like_book] and [dislike_book]. *)
Lemma after_store_redis uid_str a act name w k :
  redis (after_store uid_str a act name w) !! k
  = if String.prefix (recommendations_key uid_str "") k then None
    else if (_update_author_affinity uid_str a act name w).1
            && String.prefix ("best_from_author:user:" +:+ uid_str +:+ ":") k
    then None else redis w !! k.
Proof.
  unfold after_store.
  destruct (_update_author_affinity uid_str a act name w) as [changed w1] eqn:Hup.
  assert (redis w1 = redis w) as Hr.
  { unfold _update_author_affinity in Hup. by injection Hup as _ <-. }
  unfold _increment_interaction_counter. simpl.
  destruct changed; simpl; rewrite !delete_prefix_lookup, Hr;
    destruct (String.prefix (recommendations_key uid_str "") k);
    by destruct (String.prefix ("best_from_author:user:" +:+ uid_str +:+ ":") k).
Qed.

(** X19: a [like_book] that changes the stored action leaves no cached
    recommendation list of the user, for any algorithm, only deletes from
    the cache, and keeps every key that begins neither with
    [recommendations:user:<id>:] nor with [best_from_author:user:<id>:]. *)
Theorem like_invalidates_user_recommendations (books : list book) (now : Z) (w : world)
    (uid_str : string) (uid : oid) (name author_name : string) (genres : genres_arg)
    (Huser : ObjectId uid_str = Some uid)
    (Hchange : get_user_interaction w uid name ≠ Some "like") :
  let w' := (like_book books now w uid_str name author_name genres).2 in
  (∀ algorithm, redis w' !! recommendations_key uid_str algorithm = None)
  ∧ (∀ k v, redis w' !! k = Some v →
       redis w !! k = Some v
       ∧ String.prefix (recommendations_key uid_str "") k = false)
  ∧ (∀ k, String.prefix (recommendations_key uid_str "") k = false →
       String.prefix ("best_from_author:user:" +:+ uid_str +:+ ":") k = false →
       redis w' !! k = redis w !! k).
Proof.
  intros w'. subst w'.
  pose proof (update_user_language_only books uid_str name w) as (_ & _ & _ & _ & _ & Hr).
  assert (∃ a w0, (like_book books now w uid_str name author_name genres).2
                  = after_store uid_str a "like" name w0 ∧ redis w0 = redis w)
    as (a & w0 & -> & Hw0).
  { unfold like_book, get_user_interaction in *. rewrite Huser. cbv zeta.
    destruct (find_interaction uid name (interactions w)) as [e|].
    - destruct (PyStr.eqb (action e) "like") eqn:He.
      { exfalso. apply Hchange. simpl. f_equal. by apply AffinityFacts.eqb_true. }
      cbn [snd]. eexists _, _. split; [reflexivity|].
      destruct (PyStr.eqb (action e) "dislike"); simpl; by rewrite Hr.
    - cbn [snd]. eexists _, _. split; [reflexivity|]. simpl. by rewrite Hr. }
  split_and!.
  - intros algorithm. rewrite after_store_redis. by rewrite recommendations_key_prefix.
  - intros k v. rewrite after_store_redis, Hw0.
    destruct (String.prefix (recommendations_key uid_str "") k); [done|].
    by destruct (_ && _).
  - intros k H1 H2. rewrite after_store_redis, Hw0, H1, H2. by rewrite andb_false_r.
Qed.

Lemma like_invalidates_user_recommendations_witness :
  let w := with_redis
             {[ recommendations_key Scenarios.alice "enhanced_ubcf" := CachedOther "[]" ]}
             (empty_world Scenarios.alice) in
  redis (like_book Scenarios.shelf 1 w Scenarios.alice "A" "X" Scenarios.fantasy).2
    !! recommendations_key Scenarios.alice "enhanced_ubcf"
  = None.
Proof.
  cbv zeta.
  refine (proj1 (like_invalidates_user_recommendations Scenarios.shelf 1 _ Scenarios.alice
            Scenarios.alice "A" "X" Scenarios.fantasy eq_refl _) "enhanced_ubcf").
  by vm_compute.
Defined.

End CacheInvalidationFacts.

Module CascadeCacheFacts.
Import Bson Catalog Cascade CascadeFacts.

(** X20: on a cache miss, for a user the resident model knows and who has
    a similarity entry, no title is recommended twice, and every
    recommendation is the formatted record of the first catalog book with
    its title. *)
Theorem recommended_titles_are_distinct (train_model_py : script) (w : world)
    (uid_str : string) (uid : oid) (doc : similarity_doc) (n : Z)
    (Hcache : redis w !! cache_key uid_str = None)
    (Huser : ObjectId uid_str = Some uid)
    (Hloaded : model_loaded (eng w) = true)
    (Hknown : uid ∈ user_mapping (eng w))
    (Hdoc : user_similarities w !! uid = Some doc) :
  let result := (get_enhanced_ubcf_recommendations train_model_py w uid_str n).1 in
  NoDup (info_name <$> result)
  ∧ ∀ r, r ∈ result →
      ∃ title, info_name r = Some title ∧ _get_book_info (books w) title = Some r.
Proof.
  intros result. subst result.
  destruct (main_path_shape train_model_py w uid_str uid doc n Hcache Huser Hloaded
              Hknown Hdoc) as (visited & _ & Hprefix).
  assert (∀ name info,
            (name, info) ∈ concat (liked_sorted w (get_user_interacted_book_names w uid_str)
                                     <$> visited) →
            _get_book_info (books w) name = Some info ∧ info_name info = Some name) as Hc.
  { intros name info Hin. apply list_elem_of_In, in_concat in Hin as (l & Hl & Hin).
    apply list_elem_of_In, list_elem_of_fmap in Hl as (u & -> & _).
    apply list_elem_of_In, liked_sorted_elem in Hin as (_ & Hinfo & _).
    split; [done|by eapply get_book_info_name]. }
  split.
  - assert (NoDup (info_name <$>
              add_all (_get_user_languages w uid_str) []
                (concat (liked_sorted w (get_user_interacted_book_names w uid_str)
                           <$> visited)))) as Hnd.
    { apply add_all_titles; [|apply NoDup_nil_2]. intros name info Hin. by apply Hc. }
    destruct Hprefix as [rest Hrest]. rewrite Hrest, fmap_app in Hnd.
    by apply NoDup_app in Hnd as [? _].
  - intros r Hr. apply (elem_of_prefix _ _ _ Hr) in Hprefix as Hr'.
    apply add_all_elem in Hr' as [[]%elem_of_nil|(name & Hin & _)].
    destruct (Hc name r Hin) as [Hinfo Hname]. by exists name.
Qed.

Lemma recommended_titles_are_distinct_witness :
  NoDup (info_name <$>
    (get_enhanced_ubcf_recommendations Scenarios.idle_script Scenarios.cascade_world
       Scenarios.alice 3).1).
Proof.
  assert (Scenarios.alice ∈ user_mapping (eng Scenarios.cascade_world)) as Hknown
    by (simpl; apply elem_of_cons; by left).
  exact (proj1 (recommended_titles_are_distinct Scenarios.idle_script
                  Scenarios.cascade_world Scenarios.alice Scenarios.alice _ 3
                  eq_refl eq_refl eq_refl Hknown eq_refl)).
Defined.

(** How a query ends: with the cached list, with nothing for an invalid
    id, or with the answer computed once the model has been asked for the
    user. *)
Lemma query_cases train_model_py w uid_str n :
  let r := get_enhanced_ubcf_recommendations train_model_py w uid_str n in
  (∃ x l, redis w !! cache_key uid_str = Some (CachedRecommendations (x :: l))
          ∧ r = (py_slice_to (x :: l) n, w))
  ∨ (ObjectId uid_str = None ∧ r = ([], w))
  ∨ (∃ uid known w2, r = answer w2 uid_str uid n known).
Proof.
  intros r. subst r. unfold get_enhanced_ubcf_recommendations, answer.
  destruct (redis w !! cache_key uid_str) as [[[|x l]|payload]|] eqn:Hc;
    try (left; by exists x, l);
    right; (destruct (ObjectId uid_str) as [uid|]; [right|by left]);
    cbv zeta; fold (after_load w);
    (destruct (if bool_decide (uid ∈ user_mapping (eng (after_load w)))
               then (true, after_load w)
               else _retrain_for_new_user train_model_py (after_load w) uid_str)
       as [known w2]);
    exists uid, known, w2; (destruct known; cbn [negb]; [|done]);
    (destruct (user_similarities w2 !! uid); [|done]);
    (destruct (cascade _ _ _ _ _ _) as [recommendations|]; [|done]);
    by destruct (py_slice_to recommendations n).
Qed.

(** X21: a non-empty answer of [get_enhanced_ubcf_recommendations] is in
    the cache afterwards: the same query again, with the same desired
    count and before the entry expires, returns the same list and changes
    nothing, whatever the training script would do (it is not run, and the
    model is not loaded). *)
Theorem nonempty_answer_is_served_again (train_model_py other_script : script)
    (w : world) (uid_str : string) (n : Z)
    (Hnonempty : (get_enhanced_ubcf_recommendations train_model_py w uid_str n).1 ≠ []) :
  let r := get_enhanced_ubcf_recommendations train_model_py w uid_str n in
  get_enhanced_ubcf_recommendations other_script r.2 uid_str n = r.
Proof.
  intros r. subst r.
  destruct (query_cases train_model_py w uid_str n)
    as [(x & l & Hc & Hr)|[[_ Hr]|(uid & known & w2 & Hr)]];
    rewrite Hr in *; simpl in *.
  - unfold get_enhanced_ubcf_recommendations. by rewrite Hc.
  - done.
  - unfold answer in *. destruct known; simpl in *; [|done].
    destruct (user_similarities w2 !! uid) as [doc|]; [|done].
    destruct (cascade _ _ _ _ _ _) as [recommendations|] eqn:Hloops; [|done].
    destruct (py_slice_to recommendations n) as [|x l] eqn:Hslice; [done|]. simpl.
    unfold get_enhanced_ubcf_recommendations. simpl. rewrite lookup_insert_eq.
    f_equal. rewrite <- Hslice. unfold py_slice_to in *.
    destruct (Z.ltb_spec n 0) as [Hneg|Hpos].
    + exfalso. rewrite cascade_negative in Hloops by done.
      injection Hloops as <-. by rewrite take_nil in Hslice.
    + by rewrite take_idemp.
Qed.

Lemma nonempty_answer_is_served_again_witness :
  let r := get_enhanced_ubcf_recommendations Scenarios.idle_script Scenarios.cascade_world
             Scenarios.alice 3 in
  get_enhanced_ubcf_recommendations Scenarios.failing_script r.2 Scenarios.alice 3 = r.
Proof.
  apply (nonempty_answer_is_served_again Scenarios.idle_script Scenarios.failing_script
           Scenarios.cascade_world Scenarios.alice 3).
  by vm_compute.
Defined.

End CascadeCacheFacts.

Module ChunkingFacts.
Import Bson Catalog ContentTraining ContentTrainingFacts ContentShelves.

Lemma readable_cases b :
  (readable b = true
   ∧ subscript (name b) = Some (get (name b))
   ∧ subscript (language_of_book b) = Some (lang_key b))
  ∨ (readable b = false
     ∧ (subscript (name b) = None
        ∨ ∃ title, subscript (name b) = Some title
                   ∧ subscript (language_of_book b) = None)).
Proof.
  unfold readable, lang_key.
  destruct (name b) as [| |title]; destruct (language_of_book b) as [| |lang];
    cbn [subscript get];
    first [left; split_and!; [by vm_compute|done|done]
          |right; split; [by vm_compute|]; first [by left|right; by eexists]].
Qed.

(** What the loop keeps of a book it gets through. *)
Lemma file_books_spec r chunk : ∀ bs,
  file_books r chunk bs
  = (shelve r (filed_part chunk) bs,
     if forallb readable chunk
     then Some ((λ b, (book_id b, get (name b), lang_key b)) <$> chunk)
     else None).
Proof.
  induction chunk as [|b chunk IH]; intros bs; [done|].
  cbn [file_books filed_part forallb].
  destruct (readable_cases b) as [(-> & -> & ->)|[-> [->|(title & -> & ->)]]]; [|done|done].
  rewrite IH. cbn [andb shelve foldl]. by destruct (forallb readable chunk).
Qed.

Lemma filed_part_readable chunk : forallb readable chunk = true → filed_part chunk = chunk.
Proof.
  induction chunk as [|b chunk IH]; [done|]. cbn [forallb filed_part].
  intros [-> Hrest]%andb_prop. by rewrite IH.
Qed.

(** The three outcomes of a call: the transform raises and nothing has
    changed; a subscript raises in the loop and the builders hold the books
    before it; or the chunk is absorbed. *)
Lemma process_cases r chunk_num chunk a :
  _process_chunk_optimized r chunk_num chunk a
  = if chunk_ok r chunk_num then
      if forallb readable chunk then (true, absorb r chunk a)
      else (false,
            {| all_book_ids := all_book_ids a;
               all_book_names := all_book_names a;
               all_book_languages := all_book_languages a;
               lang_faiss_builders := shelve r (filed_part chunk) (lang_faiss_builders a) |})
    else (false, a).
Proof.
  unfold _process_chunk_optimized. destruct (chunk_ok r chunk_num); [|done].
  rewrite file_books_spec. destruct (forallb readable chunk) eqn:Hall; [|done].
  unfold absorb. rewrite (filed_part_readable chunk Hall).
  by rewrite <- !list_fmap_compose.
Qed.

Lemma process_ok r chunk_num chunk a :
  chunk_ok r chunk_num = true → forallb readable chunk = true →
  _process_chunk_optimized r chunk_num chunk a = (true, absorb r chunk a).
Proof. intros Hok Hall. by rewrite process_cases, Hok, Hall. Qed.

Lemma absorb_nil r a : absorb r [] a = a.
Proof. destruct a. unfold absorb. simpl. by rewrite !app_nil_r. Qed.

Lemma absorb_app r c1 c2 a : absorb r (c1 ++ c2) a = absorb r c2 (absorb r c1 a).
Proof.
  unfold absorb, shelve. simpl. by rewrite !fmap_app, !app_assoc, foldl_app.
Qed.

(** The loop over the cursor, when no chunk fails: what has been absorbed
    and what is left in the current chunk add up to all the books. *)
Lemma stream_ok r chunk_size cursor :
  (∀ n, chunk_ok r n = true) →
  ∀ chunk_num current_chunk a,
  forallb readable (current_chunk ++ cursor) = true →
  ∃ chunk_num' current_chunk' a',
    stream r chunk_size chunk_num current_chunk a cursor
    = Some (chunk_num', current_chunk', a')
    ∧ forallb readable current_chunk' = true
    ∧ absorb r current_chunk' a' = absorb r (current_chunk ++ cursor) a.
Proof.
  intros Hok. induction cursor as [|b cursor IH]; intros chunk_num current_chunk a Hall.
  - exists chunk_num, current_chunk, a. rewrite app_nil_r in *. done.
  - assert (forallb readable (current_chunk ++ [b]) = true
            ∧ forallb readable cursor = true) as [Hchunk Hcursor].
    { rewrite forallb_app in *. cbn [forallb] in *. apply andb_prop in Hall as [-> Hb].
      apply andb_prop in Hb as [-> ->]. done. }
    cbn [stream]. destruct (chunk_size <=? _)%nat.
    + rewrite process_ok by done.
      destruct (IH (S chunk_num) [] (absorb r (current_chunk ++ [b]) a) Hcursor)
        as (n' & c' & a' & -> & Hc' & Heq).
      exists n', c', a'. split_and!; [done|done|].
      rewrite Heq. simpl. by rewrite <- absorb_app, <- app_assoc.
    + destruct (IH chunk_num (current_chunk ++ [b]) a) as (n' & c' & a' & -> & Hc' & Heq).
      { by rewrite <- app_assoc. }
      exists n', c', a'. split_and!; [done|done|]. by rewrite Heq, <- app_assoc.
Qed.

(** A book the training queries select has the key [language_of_book]. *)
Lemma eligible_readable b : Is_true (eligible b) → name b ≠ Absent → readable b = true.
Proof.
  unfold eligible, readable. intros [_ Hlang]%andb_True Hname.
  rewrite bool_decide_eq_true_2 by done. rewrite bool_decide_eq_true_2; [done|].
  by destruct (language_of_book b).
Qed.

Lemma eligible_all_readable catalog :
  (∀ b, b ∈ catalog → Is_true (eligible b) → name b ≠ Absent) →
  forallb readable (filter (λ b, Is_true (eligible b)) catalog) = true.
Proof.
  intros Hnamed. apply forallb_forall. intros b Hb%list_elem_of_In%list_elem_of_filter.
  destruct Hb as [Hel Hb]. apply eligible_readable; [done|by apply Hnamed].
Qed.

(** When no chunk transform fails and every selected book has a name, the
    stream phase is one pass over the eligible books, whatever the chunk
    size. *)
Lemma stream_is_one_pass r model_loaded chunk_size catalog fs :
  (∀ n, chunk_ok r n = true) →
  (∀ b, b ∈ catalog → Is_true (eligible b) → name b ≠ Absent) →
  _stream_process_all_books r model_loaded chunk_size catalog fs
  = _finalize_faiss_indices r model_loaded
      (absorb r (filter (λ b, Is_true (eligible b)) catalog) empty_acc) fs.
Proof.
  intros Hok Hnamed. unfold _stream_process_all_books.
  destruct (stream_ok r chunk_size (filter (λ b, Is_true (eligible b)) catalog) Hok 0%nat []
              empty_acc (eligible_all_readable catalog Hnamed))
    as (n' & c' & a' & -> & Hc' & Heq).
  simpl in Heq. rewrite <- Heq. destruct c' as [|b c'].
  - by rewrite absorb_nil.
  - by rewrite process_ok.
Qed.

(** X22: when no chunk transform fails and every book the training query
    selects has a name, the chunk size does not matter: for every chunk
    size the stream phase hands the finalize phase the accumulators that
    one pass over all eligible books, in cursor order, produces, and so
    ends with the same result and the same files. *)
Theorem chunk_size_is_immaterial (r : run) (model_loaded : bool)
    (chunk_size : nat) (catalog : list book) (fs : files)
    (Hok : ∀ n, chunk_ok r n = true)
    (Hnamed : ∀ b, b ∈ catalog → Is_true (eligible b) → name b ≠ Absent) :
  _stream_process_all_books r model_loaded chunk_size catalog fs
  = _finalize_faiss_indices r model_loaded
      (absorb r (filter (λ b, Is_true (eligible b)) catalog) empty_acc) fs
  ∧ ∀ other_size,
      _stream_process_all_books r model_loaded chunk_size catalog fs
      = _stream_process_all_books r model_loaded other_size catalog fs.
Proof.
  split; [by apply stream_is_one_pass|].
  intros other_size. by rewrite !stream_is_one_pass.
Qed.

Lemma three_books_named :
  ∀ b, b ∈ three_books → Is_true (eligible b) → name b ≠ Absent.
Proof.
  intros b Hb _. unfold three_books in Hb.
  repeat (apply elem_of_cons in Hb as [->|Hb]; [done|]). by apply elem_of_nil in Hb.
Qed.

Lemma chunk_size_is_immaterial_witness :
  _stream_process_all_books (smooth 1 three_books) false 1 three_books ∅
  = _stream_process_all_books (smooth 1 three_books) false 2 three_books ∅.
Proof.
  apply (proj2 (chunk_size_is_immaterial (smooth 1 three_books) false 1 three_books ∅
                  (λ _, eq_refl) three_books_named)).
Defined.

(** Why the names are asked for.  A selected document without the key
    [name] makes the loop of its chunk raise: as a chunk of its own (chunk
    size 1) the run is aborted; as part of the last, partial chunk (chunk
    size 5) the failure is passed over, and the global id list, which is
    only extended at the end of a chunk, misses the books the builders
    already hold. *)
Lemma nameless_book_and_chunk_size :
  let catalog := [written_in Scenarios.id_a "A" "english"; nameless Scenarios.id_b] in
  let files_of size :=
    _stream_process_all_books (smooth 1 catalog) false size catalog (with_transformers 1 ∅) in
  (files_of 1%nat).1 = false
  ∧ (files_of 5%nat).1 = true
  ∧ (files_of 5%nat).2 !! "book_ids.npy" = Some (NpyIds [])
  ∧ (files_of 5%nat).2 !! ids_file "english" = Some (NpyIds [Scenarios.id_a]).
Proof. by vm_compute. Qed.

End ChunkingFacts.

Module FiledFacts.
Import Bson Catalog ContentTraining ContentTrainingFacts ContentShelves ChunkingFacts.

Lemma builder_add_keys lang v id (bs : builders) :
  (builder_add lang v id bs).*1 = if decide (lang ∈ bs.*1) then bs.*1 else bs.*1 ++ [lang].
Proof.
  induction bs as [|[l [vs bids]] bs IH]; cbn [builder_add].
  - by destruct (decide (lang ∈ [])) as [?%elem_of_nil|].
  - case_bool_decide as Hl; rewrite !fmap_cons; cbn [fst].
    + subst l. rewrite decide_True; [done|by apply elem_of_cons; left].
    + rewrite IH.
      destruct (decide (lang ∈ bs.*1)) as [Hin|Hnin].
      * rewrite decide_True; [done|by apply elem_of_cons; right].
      * rewrite decide_False; [done|]. rewrite elem_of_cons. by intros [?|?].
Qed.

Lemma builder_add_nodup lang v id (bs : builders) :
  NoDup bs.*1 → NoDup (builder_add lang v id bs).*1.
Proof.
  intros Hnd. rewrite builder_add_keys. destruct (decide (lang ∈ bs.*1)); [done|].
  apply NoDup_app. split_and!; [done| |apply NoDup_singleton].
  by intros x Hx ->%list_elem_of_singleton.
Qed.

(** The entries after [builder_add]: the entry of the language has grown
    by one row at its end, or is new with one row; the others are as they
    were. *)
Lemma builder_add_elem lang v id (bs : builders) l vs bids :
  NoDup bs.*1 →
  (l, (vs, bids)) ∈ builder_add lang v id bs
  ↔ (l ≠ lang ∧ (l, (vs, bids)) ∈ bs)
    ∨ (l = lang
       ∧ ((∃ vs0 bids0, (lang, (vs0, bids0)) ∈ bs ∧ vs = vs0 ++ [v] ∧ bids = bids0 ++ [id])
          ∨ ((lang ∉ bs.*1) ∧ vs = [v] ∧ bids = [id]))).
Proof.
  induction bs as [|[l0 [vs0 bids0]] bs IH]; intros Hnd.
  - cbn [builder_add]. rewrite list_elem_of_singleton. split.
    + intros [= -> -> ->]. right. split; [done|]. right. split; [apply not_elem_of_nil|done].
    + intros [[_ []%elem_of_nil]|[-> [(? & ? & []%elem_of_nil & _)|(_ & -> & ->)]]]. done.
  - rewrite fmap_cons in Hnd. apply NoDup_cons in Hnd as [Hhead Hnd]. cbn [fst] in Hhead.
    assert (∀ x y, (l0, (x, y)) ∈ bs → False) as Hfresh.
    { intros x y Hin. apply Hhead. apply list_elem_of_fmap. by exists (l0, (x, y)). }
    cbn [builder_add]. case_bool_decide as Hl.
    + subst l0. split.
      * intros [[= -> -> ->]|Hin]%elem_of_cons.
        -- right. split; [done|]. left. exists vs0, bids0.
           split; [by apply elem_of_cons; left|done].
        -- left. split; [|by apply elem_of_cons; right]. intros ->. by eapply Hfresh.
      * intros [[Hne [[= ? ? ?]|Hin]%elem_of_cons]
               |[-> [(vs1 & bids1 & [[= <- <-]|Hin]%elem_of_cons & -> & ->)|(Hnin & _)]]];
          apply elem_of_cons.
        -- done.
        -- by right.
        -- by left.
        -- exfalso. by eapply Hfresh.
        -- exfalso. apply Hnin. rewrite fmap_cons. by apply elem_of_cons; left.
    + rewrite elem_of_cons, (IH Hnd). split.
      * intros [[= -> -> ->]|[[Hne Hin]|[-> [(vs1 & bids1 & Hin & -> & ->)|(Hnin & -> & ->)]]]].
        -- left. split; [done|by apply elem_of_cons; left].
        -- left. split; [done|by apply elem_of_cons; right].
        -- right. split; [done|]. left. exists vs1, bids1.
           split; [by apply elem_of_cons; right|done].
        -- right. split; [done|]. right. split; [|done].
           rewrite fmap_cons. apply not_elem_of_cons. split; [cbn [fst]; congruence|done].
      * intros [[Hne [[= ? ? ?]|Hin]%elem_of_cons]
               |[-> [(vs1 & bids1 & [[= ? ? ?]|Hin]%elem_of_cons & -> & ->)
                    |(Hnin & -> & ->)]]].
        -- left. congruence.
        -- right. left. done.
        -- congruence.
        -- right. right. split; [done|]. left. by exists vs1, bids1.
        -- right. right. split; [done|]. right. split; [|done].
           rewrite fmap_cons in Hnin. by apply not_elem_of_cons in Hnin as [_ ?].
Qed.

Lemma of_language_snoc lang books b :
  of_language lang (books ++ [b])
  = of_language lang books ++ (if decide (lang_key b = lang) then [b] else []).
Proof.
  unfold of_language. rewrite filter_app. by f_equal.
Qed.

Lemma filed_nil r : filed r [] [].
Proof.
  split; [apply NoDup_nil_2|]. intros lang vs bids. split.
  - by intros ?%elem_of_nil.
  - by intros [? _].
Qed.

Lemma filed_language r books bs lang :
  filed r books bs → lang ∈ bs.*1 ↔ of_language lang books ≠ [].
Proof.
  intros [_ H]. split.
  - intros ([l [vs bids]] & -> & Hin)%list_elem_of_fmap. by apply H in Hin as [? _].
  - intros Hne. apply list_elem_of_fmap.
    exists (lang, (vector_of r <$> of_language lang books,
                   book_id <$> of_language lang books)).
    split; [done|]. by apply H.
Qed.

Lemma filed_snoc r books bs b :
  filed r books bs →
  filed r (books ++ [b]) (builder_add (lang_key b) (vector_of r b) (book_id b) bs).
Proof.
  intros Hf. pose proof Hf as [Hnd H]. split; [by apply builder_add_nodup|].
  intros lang vs bids. rewrite builder_add_elem by done.
  rewrite of_language_snoc. split.
  - intros [[Hne Hin]|[-> [(vs0 & bids0 & Hin & -> & ->)|(Hnin & -> & ->)]]].
    + apply H in Hin as (Hsome & -> & ->).
      rewrite decide_False by congruence. by rewrite app_nil_r.
    + apply H in Hin as (Hsome & -> & ->). rewrite decide_True by done.
      rewrite !fmap_app. split_and!; [|done|done]. by destruct (of_language _ books).
    + rewrite decide_True by done.
      assert (of_language (lang_key b) books = []) as ->.
      { destruct (of_language (lang_key b) books) eqn:E; [done|]. exfalso. apply Hnin.
        apply (filed_language r books bs); [done|]. by rewrite E. }
      done.
  - intros (Hsome & -> & ->). destruct (decide (lang_key b = lang)) as [<-|Hne].
    + right. split; [done|].
      destruct (decide (of_language (lang_key b) books = [])) as [Hnil|Hnn].
      * right. rewrite Hnil. split_and!; [|done|done].
        rewrite (filed_language r books bs) by done. by intros Hc.
      * left. eexists _, _. split; [apply H; split_and!; [done|reflexivity|reflexivity]|].
        by rewrite !fmap_app.
    + left. split; [congruence|]. rewrite app_nil_r in *. by apply H.
Qed.

Lemma filed_shelve r books : ∀ seen bs,
  filed r seen bs → filed r (seen ++ books) (shelve r books bs).
Proof.
  induction books as [|b books IH]; intros seen bs Hf; simpl.
  - by rewrite app_nil_r.
  - replace (seen ++ b :: books) with ((seen ++ [b]) ++ books) by (by rewrite <- app_assoc).
    apply IH. by apply filed_snoc.
Qed.

(** What a filed set of builders holds, row by row. *)
Lemma filed_rows r books bs lang vectors lang_ids :
  filed r books bs →
  (lang, (vectors, lang_ids)) ∈ bs →
  length vectors = length lang_ids ∧ lang_ids ≠ []
  ∧ ∀ i id, lang_ids !! i = Some id →
      ∃ b, b ∈ books ∧ book_id b = id ∧ lang_key b = lang
           ∧ vectors !! i = Some (vector_of r b).
Proof.
  intros Hf Hin. apply Hf in Hin as (Hsome & -> & ->).
  rewrite !length_fmap. split_and!; [done|by destruct (of_language lang books)|].
  intros i id Hi. apply list_lookup_fmap_Some in Hi as (b & -> & Hb).
  exists b. pose proof (list_elem_of_lookup_2 _ _ _ Hb) as Hbin.
  apply list_elem_of_filter in Hbin as [Hlang Hbin].
  split_and!; [done|done|done|]. by rewrite list_lookup_fmap, Hb.
Qed.

(** X23: [_process_chunk_optimized] files the books of a chunk under their
    own language and nowhere else, and it succeeds exactly when the
    transform succeeds and every book of the chunk has the keys [name] and
    [language_of_book].  If, before the call, the builder of each language
    held the ids and, row for row, the vectors of the books of that
    language seen so far, in cursor order, then after a success it does so
    for the books seen so far followed by the chunk, and the three global
    lists have grown by the chunk.  A call whose transform raises changes
    nothing.  A call whose loop raises leaves the three global lists as
    they were, while the builders hold, filed in the same way, the books of
    the chunk before the one that raised.  In every case a builder has as
    many rows as ids. *)
Theorem chunk_is_filed_by_language (r : run) (chunk_num : nat) (seen chunk : list book)
    (a : acc)
    (Hseen : filed r seen (lang_faiss_builders a)) :
  let '(ok, a') := _process_chunk_optimized r chunk_num chunk a in
  let now_filed := if chunk_ok r chunk_num then filed_part chunk else [] in
  ok = chunk_ok r chunk_num && forallb readable chunk
  ∧ (ok = true → now_filed = chunk)
  ∧ (chunk_ok r chunk_num = false → a' = a)
  ∧ all_book_ids a' = all_book_ids a ++ (if ok then book_id <$> chunk else [])
  ∧ all_book_names a'
    = all_book_names a ++ (if ok then (λ b, get (name b)) <$> chunk else [])
  ∧ all_book_languages a' = all_book_languages a ++ (if ok then lang_key <$> chunk else [])
  ∧ now_filed `prefix_of` chunk
  ∧ filed r (seen ++ now_filed) (lang_faiss_builders a')
  ∧ ∀ lang vectors lang_ids,
      (lang, (vectors, lang_ids)) ∈ lang_faiss_builders a' →
      length vectors = length lang_ids ∧ lang_ids ≠ []
      ∧ ∀ i id, lang_ids !! i = Some id →
          ∃ b, b ∈ seen ++ now_filed ∧ book_id b = id ∧ lang_key b = lang
               ∧ vectors !! i = Some (vector_of r b).
Proof.
  rewrite process_cases.
  assert (∀ c, filed_part c `prefix_of` c) as Hprefix.
  { induction c as [|b c IH]; [done|]. simpl.
    destruct (readable b); [by apply prefix_cons|apply prefix_nil]. }
  destruct (chunk_ok r chunk_num); cbn [andb].
  - destruct (forallb readable chunk) eqn:Hall; cbv zeta;
      cbn [all_book_ids all_book_names all_book_languages lang_faiss_builders absorb].
    + rewrite (filed_part_readable chunk Hall).
      pose proof (filed_shelve r chunk seen _ Hseen) as Hf.
      split_and!; try done. intros lang vectors lang_ids. by apply filed_rows.
    + pose proof (filed_shelve r (filed_part chunk) seen _ Hseen) as Hf.
      rewrite !app_nil_r. split_and!; try done.
      intros lang vectors lang_ids. by apply filed_rows.
  - cbv zeta. rewrite !app_nil_r. split_and!; try done; [apply prefix_nil|].
    intros lang vectors lang_ids. by apply filed_rows.
Qed.

(** The first chunk of a run over the catalog of three books. *)
Lemma chunk_is_filed_by_language_witness :
  filed (smooth 1 three_books) three_books
    (lang_faiss_builders
       (_process_chunk_optimized (smooth 1 three_books) 1 three_books empty_acc).2).
Proof.
  pose proof (chunk_is_filed_by_language (smooth 1 three_books) 1 [] three_books empty_acc
                (filed_nil _)) as H.
  destruct (_process_chunk_optimized _ _ _ _) as [ok a'] eqn:E.
  cbv zeta in H. exact (proj1 (proj2 (proj2 (proj2 (proj2 (proj2 (proj2 (proj2 H)))))))).
Defined.

End FiledFacts.

Module IndexFilesFacts.
Import Bson Catalog ContentTraining ContentTrainingFacts ContentShelves ChunkingFacts
  FiledFacts PyStrFacts.

Lemma index_file_inj l l' : index_file l = index_file l' → l = l'.
Proof.
  unfold index_file. intros H%String.app_inj. by apply append_inj_r in H.
Qed.

Lemma ids_file_inj l l' : ids_file l = ids_file l' → l = l'.
Proof.
  unfold ids_file. intros H%String.app_inj. by apply append_inj_r in H.
Qed.

Lemma index_file_not_ids l l' : index_file l ≠ ids_file l'.
Proof.
  unfold index_file, ids_file. intros H.
  apply (f_equal (String.get 0)) in H. by vm_compute in H.
Qed.

Lemma required_not_index p l : p ∈ required_files → p ≠ index_file l.
Proof.
  unfold required_files, index_file. intros Hp H.
  apply (f_equal (String.get 0)) in H. rewrite !elem_of_cons in Hp.
  destruct Hp as [->|[->|[->|[]%elem_of_nil]]]; by vm_compute in H.
Qed.

Lemma required_not_ids p l : p ∈ required_files → p ≠ ids_file l.
Proof.
  unfold required_files, ids_file. intros Hp H.
  apply (f_equal (String.get 8)) in H. rewrite !elem_of_cons in Hp.
  destruct Hp as [->|[->|[->|[]%elem_of_nil]]]; by vm_compute in H.
Qed.

Lemma required_files_elem p :
  p = "book_ids.npy" ∨ p = "book_names.npy" ∨ p = "book_langs.npy" → p ∈ required_files.
Proof. unfold required_files. rewrite !elem_of_cons. tauto. Qed.

Lemma write_here ok path content fs fs' :
  write ok path content fs = Some fs' → fs' !! path = Some content.
Proof.
  unfold write. destruct (ok path); [|done]. intros [= <-]. by rewrite lookup_insert_eq.
Qed.

(** A loop over the languages that comes to its end has written, for every
    language with rows, its index and its ids, and nothing else.  The keys
    are languages stored as strings: the key of a null language would share
    its files with the language ["None"]. *)
Lemma write_indices_done r bs : ∀ fs fs',
  NoDup bs.*1 → (∀ k, k ∈ bs.*1 → k ≠ None) →
  write_indices r bs fs = (true, fs') →
  (∀ lang vectors lang_ids,
     (Some lang, (vectors, lang_ids)) ∈ bs → vectors ≠ [] →
     fs' !! index_file lang
     = Some (FaissIndex (choose_index (Z.of_nat (length vectors))) vectors)
     ∧ fs' !! ids_file lang = Some (NpyIds lang_ids))
  ∧ (∀ p, (∀ lang, Some lang ∈ bs.*1 → p ≠ index_file lang ∧ p ≠ ids_file lang) →
          fs' !! p = fs !! p).
Proof.
  induction bs as [|[k [vs bids]] bs IH]; intros fs fs' Hnd Hkeys Hrun.
  - injection Hrun as <-. split; [by intros ??? ?%elem_of_nil|done].
  - rewrite fmap_cons in Hnd, Hkeys. apply NoDup_cons in Hnd as [Hhead Hnd].
    cbn [fst] in Hhead, Hkeys.
    destruct k as [l|]; [|by destruct (Hkeys None); [apply elem_of_cons; left|]].
    assert (∀ k, k ∈ bs.*1 → k ≠ None) as Hkeys'
      by (intros k Hk; apply Hkeys; by apply elem_of_cons; right).
    cbn [write_indices] in Hrun.
    assert (∀ p, (∀ lang, Some lang ∈ Some l :: bs.*1 →
                    p ≠ index_file lang ∧ p ≠ ids_file lang) →
                 ∀ lang, Some lang ∈ bs.*1 → p ≠ index_file lang ∧ p ≠ ids_file lang)
      as Hrest.
    { intros p Hp lang Hlang. apply Hp. by apply elem_of_cons; right. }
    destruct vs as [|v vs].
    + destruct (IH fs fs' Hnd Hkeys' Hrun) as [Hwritten Hkept]. split.
      * intros lang vectors lang_ids [[= -> -> ->]|Hin]%elem_of_cons Hne; [done|].
        by apply Hwritten.
      * rewrite fmap_cons. cbn [fst]. intros p Hp. apply Hkept. by apply Hrest.
    + destruct (build_ok r (Some l)); [|done]. cbn [negb] in Hrun.
      change (py_str (Some l)) with l in Hrun.
      destruct (write (save_ok r) (index_file l) _ fs) as [fs1|] eqn:H1; [|done].
      destruct (write (save_ok r) (ids_file l) _ fs1) as [fs2|] eqn:H2; [|done].
      destruct (IH fs2 fs' Hnd Hkeys' Hrun) as [Hwritten Hkept]. split.
      * intros lang vectors lang_ids [[= -> -> ->]|Hin]%elem_of_cons Hne.
        -- rewrite !Hkept.
           ++ split; [|by eapply write_here].
              rewrite (write_elsewhere _ _ _ _ _ (index_file l) H2)
                by apply index_file_not_ids.
              by eapply write_here.
           ++ intros lang Hlang. split; [by intros ?%eq_sym%index_file_not_ids|].
              intros ->%ids_file_inj. done.
           ++ intros lang Hlang. split; [|apply index_file_not_ids].
              intros ->%index_file_inj. done.
        -- by apply Hwritten.
      * rewrite fmap_cons. cbn [fst]. intros p Hp. rewrite Hkept by by apply Hrest.
        destruct (Hp l) as [Hp1 Hp2]; [by apply elem_of_cons; left|].
        by rewrite (write_elsewhere _ _ _ _ _ p H2), (write_elsewhere _ _ _ _ _ p H1).
Qed.

(** On a well-formed catalog every builder key is a language stored as a
    string. *)
Lemma well_formed_keys r catalog bs k :
  well_formed catalog →
  filed r (filter (λ b, Is_true (eligible b)) catalog) bs →
  k ∈ bs.*1 → k ≠ None.
Proof.
  intros Hwf Hf Hk ->. apply (filed_language r _ bs None Hf) in Hk.
  destruct (of_language None (filter (λ b, Is_true (eligible b)) catalog))
    as [|b rest] eqn:Hnull; [done|].
  assert (b ∈ of_language None (filter (λ b, Is_true (eligible b)) catalog)) as Hb
    by (rewrite Hnull; by apply elem_of_cons; left).
  apply list_elem_of_filter in Hb as [Hkey Hb%list_elem_of_filter].
  destruct Hb as [Hel Hb]. destruct (Hwf b Hb Hel) as [_ Hlang].
  unfold eligible in Hel. apply andb_True in Hel as [_ Hel].
  unfold lang_key in Hkey. by destruct (language_of_book b).
Qed.

(** X24: after a streaming run that succeeds, with no chunk transform
    failing, on a catalog in which every book the training query selects
    has a name and no language stored as null, the files on disk are
    aligned with the catalog: the three global files list the ids, names
    and languages of the eligible books in cursor order; for every language
    with an eligible book, the ids file of the language lists the ids of
    exactly the eligible books of that language, in cursor order, and the
    index of the language holds their vectors row for row, so that row [i]
    of the index belongs to id [i] of the ids file. The files of a language
    without eligible books are left as they were, also when they are there
    from an earlier run. *)
Theorem language_files_are_aligned (r : run) (model_loaded : bool) (chunk_size : nat)
    (catalog : list book) (fs fs' : files)
    (Hok : ∀ n, chunk_ok r n = true)
    (Hcatalog : well_formed catalog)
    (Hrun : _stream_process_all_books r model_loaded chunk_size catalog fs = (true, fs')) :
  let books := filter (λ b, Is_true (eligible b)) catalog in
  fs' !! "book_ids.npy" = Some (NpyIds (book_id <$> books))
  ∧ fs' !! "book_names.npy" = Some (NpyStrings ((λ b, get (name b)) <$> books))
  ∧ fs' !! "book_langs.npy" = Some (NpyStrings (lang_key <$> books))
  ∧ (∀ lang, of_language (Some lang) books ≠ [] →
       fs' !! ids_file lang = Some (NpyIds (book_id <$> of_language (Some lang) books))
       ∧ fs' !! index_file lang
         = Some (FaissIndex
                   (choose_index (Z.of_nat (length (of_language (Some lang) books))))
                   (vector_of r <$> of_language (Some lang) books)))
  ∧ (∀ lang, of_language (Some lang) books = [] →
       fs' !! ids_file lang = fs !! ids_file lang
       ∧ fs' !! index_file lang = fs !! index_file lang).
Proof.
  intros books.
  rewrite stream_is_one_pass in Hrun by (done || intros b ??; by apply Hcatalog).
  fold books in Hrun.
  assert (filed r books (lang_faiss_builders (absorb r books empty_acc))) as Hf
    by (apply (filed_shelve r books [] []), filed_nil).
  unfold _finalize_faiss_indices in Hrun.
  destruct (write _ "book_ids.npy" _ fs) as [fs1|] eqn:H1; [|done].
  destruct (write _ "book_names.npy" _ fs1) as [fs2|] eqn:H2; [|done].
  destruct (write _ "book_langs.npy" _ fs2) as [fs3|] eqn:H3; [|done].
  destruct (write_indices r _ fs3) as [[] fs4] eqn:H4; [|done].
  injection Hrun as _ <-.
  destruct (write_indices_done r _ fs3 fs4 (proj1 Hf)
              (λ k, well_formed_keys r catalog _ k Hcatalog Hf) H4) as [Hwritten Hkept].
  assert (∀ p, p ∈ required_files → fs4 !! p = fs3 !! p) as Hreq.
  { intros p Hp. apply Hkept. intros lang _.
    split; [by apply required_not_index|by apply required_not_ids]. }
  split_and!.
  - rewrite Hreq by (apply required_files_elem; tauto).
    rewrite (write_elsewhere _ _ _ _ _ _ H3), (write_elsewhere _ _ _ _ _ _ H2) by done.
    by rewrite (write_here _ _ _ _ _ H1).
  - rewrite Hreq by (apply required_files_elem; tauto).
    rewrite (write_elsewhere _ _ _ _ _ _ H3) by done.
    by rewrite (write_here _ _ _ _ _ H2).
  - rewrite Hreq by (apply required_files_elem; tauto). by rewrite (write_here _ _ _ _ _ H3).
  - intros lang Hlang.
    destruct (Hwritten lang (vector_of r <$> of_language (Some lang) books)
                (book_id <$> of_language (Some lang) books)) as [Hindex Hids].
    + by apply Hf.
    + by destruct (of_language (Some lang) books).
    + rewrite length_fmap in Hindex. done.
  - intros lang Hlang.
    assert (Some lang ∉ (lang_faiss_builders (absorb r books empty_acc)).*1) as Hnone.
    { rewrite (filed_language r books) by done. by intros []. }
    assert (∀ l', Some l' ∈ (lang_faiss_builders (absorb r books empty_acc)).*1 → lang ≠ l')
      as Hother by (by intros l' Hl' ->).
    rewrite !Hkept.
    + rewrite !(write_elsewhere _ _ _ _ _ _ H3), !(write_elsewhere _ _ _ _ _ _ H2),
        !(write_elsewhere _ _ _ _ _ _ H1); first done;
        first [by apply not_eq_sym, required_not_index, required_files_elem; tauto
              |by apply not_eq_sym, required_not_ids, required_files_elem; tauto].
    + intros l' Hl'. split; [|apply index_file_not_ids].
      intros ?%index_file_inj. by eapply Hother.
    + intros l' Hl'. split; [by intros ?%eq_sym%index_file_not_ids|].
      intros ?%ids_file_inj. by eapply Hother.
Qed.

Lemma three_books_well_formed : well_formed three_books.
Proof.
  intros b Hb _. unfold three_books in Hb.
  repeat (apply elem_of_cons in Hb as [->|Hb]; [done|]). by apply elem_of_nil in Hb.
Qed.

(** The catalog of three books, in chunks of two, on a directory that holds
    the fitted extractors and nothing else. *)
Lemma language_files_are_aligned_witness :
  (_stream_process_all_books (smooth 1 three_books) false 2 three_books
     (with_transformers 1 ∅)).2 !! ids_file "english"
  = Some (NpyIds [Scenarios.id_a; Scenarios.id_b]).
Proof.
  destruct (_stream_process_all_books (smooth 1 three_books) false 2 three_books
              (with_transformers 1 ∅)) as [ok fs'] eqn:E.
  assert (ok = true) as ->.
  { apply (f_equal fst) in E. cbn [fst] in E. rewrite <- E. by vm_compute. }
  pose proof (language_files_are_aligned (smooth 1 three_books) false 2 three_books
                (with_transformers 1 ∅) fs' (λ _, eq_refl) three_books_well_formed E) as H.
  destruct H as (_ & _ & _ & H & _).
  destruct (H "english") as [Hids _]; [by vm_compute|]. exact Hids.
Defined.

End IndexFilesFacts.

Module TrainedDirectoryFacts.
Import Bson Catalog ContentTraining ContentTrainingFacts ContentShelves.

Lemma exists_index_file (fs : files) lang :
  is_Some (fs !! index_file lang) →
  is_index_file (index_file lang) = true →
  existsb (λ kv : string * blob, is_index_file kv.1) (map_to_list fs) = true.
Proof.
  intros [content Hc] Hname. apply existsb_exists.
  exists (index_file lang, content). split; [|done].
  apply list_elem_of_In. by apply elem_of_map_to_list.
Qed.

(** A directory from which the core components load needs no retraining. *)
Lemma loadable_needs_no_retrain fs : load_model false fs = true → _should_retrain fs = false.
Proof.
  unfold load_model, _should_retrain. cbn [orb].
  intros [[Hreq Hmodel]%andb_prop Henglish]%andb_prop.
  rewrite Hreq, Hmodel. cbn [negb].
  rewrite (exists_index_file fs "english"); [done| |done].
  unfold exists_all in Henglish. cbn [forallb] in Henglish.
  apply andb_prop in Henglish as [H _]. by apply bool_decide_eq_true in H.
Qed.

Lemma finalize_true_loads r model_loaded a fs fs' :
  _finalize_faiss_indices r model_loaded a fs = (true, fs') → load_model model_loaded fs' = true.
Proof.
  unfold _finalize_faiss_indices.
  destruct (write _ "book_ids.npy" _ fs) as [fs1|]; [|done].
  destruct (write _ "book_names.npy" _ fs1) as [fs2|]; [|done].
  destruct (write _ "book_langs.npy" _ fs2) as [fs3|]; [|done].
  destruct (write_indices r _ fs3) as [[] fs4]; [|done].
  by intros [= H <-].
Qed.

Lemma train_model_true_loads r model_loaded chunk_size catalog fs fs' :
  train_model r model_loaded chunk_size catalog fs = (true, fs') →
  load_model model_loaded fs' = true.
Proof.
  unfold train_model. destruct (_should_retrain fs); cbn [negb].
  - destruct (filter _ catalog); [done|].
    destruct (chunk_size =? 0)%nat; [done|].
    destruct (_fit_transformers_on_sample r fs) as [[] fs1]; [|done].
    unfold _stream_process_all_books.
    destruct (stream _ _ _ _ _ _) as [[[n c] a]|]; [|done].
    apply finalize_true_loads.
  - by intros [= H <-].
Qed.

(** X25: a call of [train_model] on a recommender whose model is not
    loaded, if it returns [True], leaves a directory that needs no
    retraining and from which the core components load; every later call
    of [train_model], with any catalog, any chunk size and whatever the
    library calls would do, returns [True] and writes nothing. *)
Theorem successful_training_is_kept (r : run) (chunk_size : nat) (catalog : list book)
    (fs fs' : files)
    (Htrained : train_model r false chunk_size catalog fs = (true, fs')) :
  _should_retrain fs' = false
  ∧ load_model false fs' = true
  ∧ ∀ r' model_loaded' chunk_size' catalog',
      train_model r' model_loaded' chunk_size' catalog' fs' = (true, fs').
Proof.
  pose proof (train_model_true_loads _ _ _ _ _ _ Htrained) as Hload.
  pose proof (loadable_needs_no_retrain _ Hload) as Hkeep.
  split_and!; [done|done|].
  intros r' model_loaded' chunk_size' catalog'. unfold train_model.
  rewrite Hkeep. cbn [negb]. f_equal.
  unfold load_model in *. cbn [orb] in Hload. rewrite Hload. by destruct model_loaded'.
Qed.

(** A first training on an empty directory; a later call, in which every
    library call would raise, on a catalog that has become empty. *)
Lemma successful_training_is_kept_witness :
  let fs' := (train_model (smooth 1 three_books) false 2 three_books ∅).2 in
  train_model
    {| sample := []; fit := None; dump_ok := λ _, false; chunk_ok := λ _, false;
       vector_of := λ _, []; build_ok := λ _, false; save_ok := λ _, false |}
    false 1 [] fs'
  = (true, fs').
Proof.
  cbv zeta.
  destruct (train_model (smooth 1 three_books) false 2 three_books ∅) as [ok fs'] eqn:E.
  assert (ok = true) as ->.
  { apply (f_equal fst) in E. cbn [fst] in E. rewrite <- E. by vm_compute. }
  cbn [snd].
  apply (proj2 (proj2 (successful_training_is_kept (smooth 1 three_books) 2 three_books
                         ∅ fs' E))).
Defined.

End TrainedDirectoryFacts.

Module VectorCacheFacts.
Import Bson Catalog ContentQuery VectorCache.

Lemma dict_get_None k d : dict_get k d = None ↔ k ∉ d.*1.
Proof.
  induction d as [|[k' v] d IH]; cbn [dict_get].
  - split; [intros _; apply not_elem_of_nil|done].
  - rewrite fmap_cons, not_elem_of_cons. cbn [fst]. destruct (decide (k' = k)) as [->|Hne].
    + split; [done|by intros [? _]].
    + rewrite IH. split; [by intros ?; split|by intros [_ ?]].
Qed.

Lemma dict_get_elem k v d : NoDup d.*1 → (k, v) ∈ d → dict_get k d = Some v.
Proof.
  induction d as [|[k' v'] d IH]; intros Hnd Hin; [by apply elem_of_nil in Hin|].
  rewrite fmap_cons in Hnd. apply NoDup_cons in Hnd as [Hhead Hnd]. cbn [fst] in Hhead.
  cbn [dict_get]. apply elem_of_cons in Hin as [[= <- <-]|Hin].
  - by rewrite decide_True.
  - rewrite decide_False; [by apply IH|]. intros ->. apply Hhead.
    apply list_elem_of_fmap. by exists (k, v).
Qed.

Lemma dict_set_absent k v d : (k ∉ d.*1) → dict_set k v d = d ++ [(k, v)].
Proof.
  induction d as [|[k' v'] d IH]; intros Hk; [done|].
  rewrite fmap_cons in Hk. apply not_elem_of_cons in Hk as [Hne Hk]. cbn [fst] in Hne.
  cbn [dict_set]. rewrite decide_False by done. by rewrite IH.
Qed.

Lemma dict_del_absent k (d : cache) : (k ∉ d.*1) → dict_del k d = d.
Proof.
  induction d as [|[k' v'] d IH]; intros Hk; [done|].
  rewrite fmap_cons in Hk. apply not_elem_of_cons in Hk as [Hne Hk]. cbn [fst] in Hne.
  unfold dict_del in *. rewrite filter_cons_True by (cbn; congruence). by rewrite IH.
Qed.

(** Deleting the first [n] keys of a dictionary drops its first [n]
    entries. *)
Lemma delete_oldest n : ∀ d : cache,
  NoDup d.*1 → foldl (λ c key, dict_del key c) d (take n d.*1) = drop n d.
Proof.
  induction n as [|n IH]; intros d Hnd; [done|].
  destruct d as [|[k v] d]; [done|].
  rewrite fmap_cons in Hnd. apply NoDup_cons in Hnd as [Hhead Hnd]. cbn [fst] in Hhead.
  rewrite fmap_cons. cbn [fst take foldl drop].
  assert (dict_del k ((k, v) :: d) = d) as ->; [|by apply IH].
  rewrite <- (dict_del_absent k d) at 2 by done.
  unfold dict_del. by rewrite filter_cons_False by (cbn; by intros []).
Qed.

(** X26: [_transform_single_book_to_vector] keeps the vector cache a
    dictionary of at most 1000 entries. A book whose id is cached gets the
    cached vector and the cache is left as it is; a failing pipeline
    returns [None] and caches nothing; a computed vector is appended, and
    when that makes 1001 entries the 100 oldest are dropped. In every case
    a vector that was returned is in the cache afterwards, so that asking
    again returns the same vector whatever the pipeline has become. *)
Theorem vector_cache_stays_bounded (pipeline : book → option vector) (b : book) (c : cache)
    (Hkeys : NoDup c.*1)
    (Hsize : (length c ≤ 1000)%nat) :
  let '(res, c') := _transform_single_book_to_vector pipeline b c in
  NoDup c'.*1
  ∧ (length c' ≤ 1000)%nat
  ∧ match dict_get (book_id b) c with
    | Some v => res = Some v ∧ c' = c
    | None =>
        match pipeline b with
        | None => res = None ∧ c' = c
        | Some v =>
            res = Some v
            ∧ c' = (if decide (length c = 1000%nat) then drop 100 c else c) ++ [(book_id b, v)]
        end
    end
  ∧ ∀ v, res = Some v →
      dict_get (book_id b) c' = Some v
      ∧ ∀ pipeline', _transform_single_book_to_vector pipeline' b c' = (Some v, c').
Proof.
  unfold _transform_single_book_to_vector at 1.
  assert (∀ (c' : cache) v, dict_get (book_id b) c' = Some v →
            dict_get (book_id b) c' = Some v
            ∧ ∀ pipeline', _transform_single_book_to_vector pipeline' b c' = (Some v, c'))
    as Hhit.
  { intros c' v Hget. split; [done|]. intros pipeline'.
    unfold _transform_single_book_to_vector. by rewrite Hget. }
  destruct (dict_get (book_id b) c) as [v|] eqn:Hget.
  { do 3 (split; [done|]). intros v' [= <-]. by apply Hhit. }
  destruct (pipeline b) as [v|]; [|by do 3 (split; [done|])].
  apply dict_get_None in Hget. rewrite dict_set_absent by done.
  assert (NoDup (c ++ [(book_id b, v)]).*1) as Hnd.
  { rewrite fmap_app. apply NoDup_app. split_and!; [done| |apply NoDup_singleton].
    by intros k Hk ->%list_elem_of_singleton. }
  rewrite length_app. cbn [length].
  destruct (Nat.ltb_spec 1000 (length c + 1)) as [Hfull|Hroom].
  - rewrite delete_oldest by done.
    assert (length c = 1000%nat) as Hc by lia. rewrite decide_True by done.
    rewrite drop_app_le by lia.
    assert (NoDup (drop 100 c ++ [(book_id b, v)]).*1) as Hnd'.
    { rewrite <- (drop_app_le _ _ 100) by lia. rewrite fmap_drop.
      eapply sublist_NoDup; [exact Hnd|apply sublist_drop]. }
    split; [done|]. split; [rewrite length_app, length_drop; cbn [length]; lia|].
    split; [done|].
    intros v' [= <-]. apply Hhit. apply dict_get_elem; [done|].
    apply elem_of_app. right. by apply list_elem_of_singleton.
  - rewrite decide_False by lia.
    split; [done|]. split; [rewrite length_app; cbn [length]; lia|]. split; [done|].
    intros v' [= <-]. apply Hhit. apply dict_get_elem; [done|].
    apply elem_of_app. right. by apply list_elem_of_singleton.
Qed.

(** A vector is computed for a new book while the cache holds 1000
    entries: 901 are left, the new one among them. *)
Lemma vector_cache_stays_bounded_witness :
  let c' := (_transform_single_book_to_vector (λ _, Some [1%Q]) (book_with_id "new")
               (numbered 1000)).2 in
  NoDup c'.*1 ∧ (length c' ≤ 1000)%nat.
Proof.
  cbv zeta.
  assert (NoDup (numbered 1000).*1) as Hkeys
    by (apply (bool_decide_unpack _); by vm_compute).
  assert (length (numbered 1000) ≤ 1000)%nat as Hsize
    by (apply Nat.leb_le; by vm_compute).
  pose proof (vector_cache_stays_bounded (λ _, Some [1%Q]) (book_with_id "new")
                (numbered 1000) Hkeys Hsize) as H.
  destruct (_transform_single_book_to_vector _ _ _) as [res c'].
  destruct H as (H1 & H2 & _). by split.
Defined.

End VectorCacheFacts.
